(** * Acre-Detector: GPS field-area measurement

    A shallow embedding of the measurement engine of the Acre-Detector
    repository and the properties its specification states about it.

    - [JS]       : the JavaScript primitives the code relies on
                   (numbers, [Math], [toFixed] / [parseFloat], array loops);
    - [Tracker]  : the field-measurement React component
                   (fix filtering, polygon closing, perimeter, dual-mode
                   area, result construction, averaging);
    - [Server]   : the statistics endpoint of the express server;
    - [MapView]  : the map-based component
                   [src/client/src/components/DistanceCalculator.js];
    - [Spec]     : the formulations of the specification that the code is
                   compared with;
    - [Session]  : runs of the callbacks of a measurement session, call
                   by call;
    - [Examples] : concrete inputs;
    - [TrackerView] : the accuracy banner and the scaling of the drawing;
    - [Lifecycle]   : the buttons and callbacks of the field-measurement
                      component, as actions on its state;
    - [Mounted]     : the component in the browser, with the effect that
                      is cleaned up when [watchId] changes and the
                      watches and timers the browser serves;
    - [MapTracker]  : the tracking state of the map-based component;
    - [Api]         : the measurement store and the routes of the express
                      server;
    - [Invariant]   : what a recording session maintains;
    - [Samples]     : further concrete inputs.

    The properties the specification states are labelled C1 to C10; the
    further properties of the code are labelled X1 to X24.

    JavaScript numbers are IEEE-754 doubles.  They are idealised here as
    real numbers: rounding, overflow, NaN and the infinities are not
    modelled. *)

From Stdlib Require Import Reals Lra Lia List ZArith Bool Sorted Permutation.
Import ListNotations.

Open Scope R_scope.

(* ================================================================== *)
(** ** JavaScript primitives *)
(* ================================================================== *)

Module JS.

(** Comparison operators, as the booleans JavaScript returns. *)
Definition gtb (a b : R) : bool := if Rgt_dec a b then true else false.
Definition ltb (a b : R) : bool := if Rlt_dec a b then true else false.
Definition geb (a b : R) : bool := if Rge_dec a b then true else false.

(** [Math.atan2(y, x)]: the angle of the point [(x, y)], in
    [(-PI, PI]]. *)
Definition Math_atan2 (y x : R) : R :=
  if Rgt_dec x 0 then atan (y / x)
  else if Rlt_dec x 0 then
    (if Rge_dec y 0 then atan (y / x) + PI else atan (y / x) - PI)
  else if Rgt_dec y 0 then PI / 2
  else if Rlt_dec y 0 then - (PI / 2)
  else 0.

(** [Math.max(...xs)] and [Math.min(...xs)].  On an empty array
    JavaScript answers [-Infinity] and [Infinity]; no caller below
    passes one, and the model answers [0] there. *)
Definition Math_max (xs : list R) : R :=
  match xs with
  | [] => 0
  | x :: rest => fold_left Rmax rest x
  end.

Definition Math_min (xs : list R) : R :=
  match xs with
  | [] => 0
  | x :: rest => fold_left Rmin rest x
  end.

(** [for (let i = 0; i < n; i++) acc = body(i, acc)]. *)
Definition for_range {A : Type} (n : nat) (body : nat -> A -> A) (init : A) : A :=
  fold_left (fun acc i => body i acc) (seq 0 n) init.

(** [xs.reduce((sum, v) => sum + f(v), 0)]. *)
Definition reduce_sum {A : Type} (f : A -> R) (xs : list A) : R :=
  fold_left (fun sum v => sum + f v) xs 0.

(** [xs.map(f)] for a callback that may throw: the first exception
    aborts the whole map. *)
Fixpoint map_throwing {A B : Type} (f : A -> option B) (xs : list A) : option (list B) :=
  match xs with
  | [] => Some []
  | v :: rest =>
      match f v with
      | None => None
      | Some w =>
          match map_throwing f rest with
          | None => None
          | Some ws => Some (w :: ws)
          end
      end
  end.

(** The string [x.toFixed(d)] is represented by the integer it spells:
    [mkFixed d n] is the decimal numeral of [n / 10^d] with [d]
    fraction digits. *)
Inductive Fixed (d : nat) : Type := mkFixed (units : Z).
Arguments mkFixed d units : clear implicits.

Definition units {d : nat} (s : Fixed d) : Z :=
  match s with mkFixed _ n => n end.

(** [Number.prototype.toFixed]: the integer [n] for which [n / 10^d]
    is closest to [x], the larger one on a tie; a negative [x] is
    rendered as ["-"] followed by the rendering of [-x].  The tie is that
    of the real number: the double that stands for a number halfway
    between two numerals lies beside it and may be rendered as either,
    so a statement about a rendered quotient or mean is made up to the
    tie, with [Spec.renders]. *)
Definition toFixed (d : nat) (x : R) : Fixed d :=
  if Rlt_dec x 0
  then mkFixed d (- Zfloor (- x * 10 ^ d + / 2))
  else mkFixed d (Zfloor (x * 10 ^ d + / 2)).

(** [parseFloat] of such a string. *)
Definition parseFloat {d : nat} (s : Fixed d) : R := IZR (units s) / 10 ^ d.

End JS.

(* ================================================================== *)
(** ** The field-measurement component *)
(* ================================================================== *)

Module Tracker.
Import JS.

(** *** Configuration constants *)

Definition RECORDING_INTERVAL : Z := 2000.
Definition MIN_DISTANCE_THRESHOLD : R := 2.5.
Definition ACCURACY_THRESHOLD : R := 10.
Definition POLYGON_CLOSURE_THRESHOLD : R := 5.
Definition MAX_COORDINATES : nat := Z.to_nat 10000.

(** *** Data *)

(** [position.coords] as delivered by the geolocation API. *)
Module Coords.
Record t : Type := mk { latitude : R; longitude : R; accuracy : R }.
End Coords.

(** A recorded point. *)
Record Point : Type := mkPoint {
  lat : R;
  lng : R;
  timestamp : Z;
  accuracy : R
}.

(** A planar coordinate pair. *)
Record XY : Type := mkXY { x : R; y : R }.

(** Array reads [a[i]]; every read below is in range. *)
Definition point0 : Point := mkPoint 0 0 0 0.
Definition xy0 : XY := mkXY 0 0.
Definition at_point (a : list Point) (i : nat) : Point := nth i a point0.
Definition at_xy (a : list XY) (i : nat) : XY := nth i a xy0.

(** *** Geometry *)

Definition toRadians (degrees : R) : R := degrees * (PI / 180).

Definition EARTH_RADIUS : R := 6371000.

(** [Math.sqrt] of a negative number is [NaN], where [sqrt] is 0.  In
    real arithmetic the number [a] below lies between 0 and 1 whatever
    the coordinates, so neither root is taken of a negative number; in
    doubles the sum can round to a number just above 1 when the two
    points are antipodal, or nearly so, and the distance is then [NaN].
    No statement below rests on the value of [sqrt] at a negative
    number. *)
Definition haversineDistance (lat1 lng1 lat2 lng2 : R) : R :=
  let dLat := toRadians (lat2 - lat1) in
  let dLng := toRadians (lng2 - lng1) in
  let a := sin (dLat / 2) * sin (dLat / 2) +
           cos (toRadians lat1) * cos (toRadians lat2) *
           sin (dLng / 2) * sin (dLng / 2) in
  let c := 2 * Math_atan2 (sqrt a) (sqrt (1 - a)) in
  EARTH_RADIUS * c.

(** Distance between two recorded points. *)
Definition pointDistance (p q : Point) : R :=
  haversineDistance (lat p) (lng p) (lat q) (lng q).

Definition createClosedPolygon (coords : list Point) : list Point :=
  if (length coords <? 3)%nat then coords
  else
    let firstPoint := at_point coords 0 in
    let lastPoint := at_point coords (length coords - 1) in
    let closingDistance :=
      haversineDistance (lat firstPoint) (lng firstPoint)
                        (lat lastPoint) (lng lastPoint) in
    if gtb closingDistance POLYGON_CLOSURE_THRESHOLD
    then coords ++ [firstPoint]
    else coords.

Definition calculatePerimeter (closedCoords : list Point) : R :=
  if (length closedCoords <? 2)%nat then 0
  else
    for_range (length closedCoords - 1)
      (fun i totalDistance =>
         let distance :=
           haversineDistance (lat (at_point closedCoords i))
                             (lng (at_point closedCoords i))
                             (lat (at_point closedCoords (i + 1)))
                             (lng (at_point closedCoords (i + 1))) in
         totalDistance + distance)
      0.

(** The shoelace loop shared by both area functions:
    [for (i = 0; i < cs.length - 1; i++)
       area += cs[i].x * cs[i+1].y - cs[i+1].x * cs[i].y]. *)
Definition shoelaceLoop (cs : list XY) : R :=
  for_range (length cs - 1)
    (fun i area =>
       area + (x (at_xy cs i) * y (at_xy cs (i + 1)) -
               x (at_xy cs (i + 1)) * y (at_xy cs i)))
    0.

Definition calculateAreaWithShoelace (closedCoords : list Point) : R :=
  let avgLat := reduce_sum lat closedCoords / INR (length closedCoords) in
  let metersPerDegreeLat := 111000 in
  let metersPerDegreeLng := 111000 * cos (toRadians avgLat) in
  let meterCoords :=
    map (fun coord => mkXY (lng coord * metersPerDegreeLng)
                           (lat coord * metersPerDegreeLat))
        closedCoords in
  let area := shoelaceLoop meterCoords in
  Rabs area / 2.

(** *** Results *)

(** The object [newResult] built when a measurement completes. *)
Record Result : Type := mkResult {
  distance : Fixed 2;
  areaSquareMeters : Fixed 2;
  acres : Fixed 4;
  hectares : Fixed 4;
  guntalu : Fixed 4;
  measurementNumber : nat;
  pointsRecorded : nat;
  closedPolygonPoints : nat;
  avgAccuracy : Fixed 1;
  skippedPoints : nat
}.

(** The object returned by [calculateAverageResults]. *)
Module Average.
Record t : Type := mk {
  areaSquareMeters : Fixed 2;
  distance : Fixed 2;
  acres : Fixed 4;
  hectares : Fixed 4;
  guntalu : Fixed 4;
  measurementCount : nat
}.
End Average.

(** [null] is [None].  The means are those of the real numbers the
    stored numerals spell. *)
Definition calculateAverageResults (measurements : list Result) : option Average.t :=
  if (length measurements <? 2)%nat then None
  else
    let avgArea :=
      reduce_sum (fun m => parseFloat (areaSquareMeters m)) measurements
      / INR (length measurements) in
    let avgDistance :=
      reduce_sum (fun m => parseFloat (distance m)) measurements
      / INR (length measurements) in
    Some (Average.mk (toFixed 2 avgArea)
                     (toFixed 2 avgDistance)
                     (toFixed 4 (avgArea / 4047))
                     (toFixed 4 (avgArea / 10000))
                     (toFixed 4 (avgArea / 101.17))
                     (length measurements)).

(** *** Component state *)

(** The messages passed to [setError]; [NoError] is the empty string. *)
Inductive ErrorMessage : Type :=
| NoError
| GpsUnsupported
| PermissionDenied
| PositionUnavailable
| Timeout
| GpsFailure
| InsufficientPoints.

(** The error codes of the geolocation API. *)
Inductive GeoErrorCode : Type :=
| PERMISSION_DENIED
| POSITION_UNAVAILABLE
| TIMEOUT
| OTHER_ERROR.

(** The [useState] cells and [useRef] cells of the component, together
    with [currentPosition], the variable shared by the two callbacks
    that [startTracking] installs. *)
Record State : Type := mkState {
  isTracking : bool;
  coordinates : list Point;
  watchId : option Z;
  error : ErrorMessage;
  results : option Result;
  gpsAccuracy : option R;
  showInstructions : bool;
  measurements : list Result;
  currentMeasurement : nat;
  currentDistance : R;
  isGpsReady : bool;
  skippedPointsCount : nat;
  intervalRef : option Z;
  lastRecordedPoint : option Point;
  cumulativeDistance : R;
  currentPosition : option Coords.t
}.

(** The state of a freshly mounted component. *)
Definition initialState : State :=
  {| isTracking := false; coordinates := []; watchId := None;
     error := NoError; results := None; gpsAccuracy := None;
     showInstructions := false; measurements := [];
     currentMeasurement := 1; currentDistance := 0;
     isGpsReady := false; skippedPointsCount := 0;
     intervalRef := None; lastRecordedPoint := None;
     cumulativeDistance := 0; currentPosition := None |}.

Definition set_isTracking (v : bool) (st : State) : State :=
  mkState v (coordinates st) (watchId st) (error st) (results st)
    (gpsAccuracy st) (showInstructions st) (measurements st)
    (currentMeasurement st) (currentDistance st) (isGpsReady st)
    (skippedPointsCount st) (intervalRef st) (lastRecordedPoint st)
    (cumulativeDistance st) (currentPosition st).

Definition set_coordinates (v : list Point) (st : State) : State :=
  mkState (isTracking st) v (watchId st) (error st) (results st)
    (gpsAccuracy st) (showInstructions st) (measurements st)
    (currentMeasurement st) (currentDistance st) (isGpsReady st)
    (skippedPointsCount st) (intervalRef st) (lastRecordedPoint st)
    (cumulativeDistance st) (currentPosition st).

Definition set_watchId (v : option Z) (st : State) : State :=
  mkState (isTracking st) (coordinates st) v (error st) (results st)
    (gpsAccuracy st) (showInstructions st) (measurements st)
    (currentMeasurement st) (currentDistance st) (isGpsReady st)
    (skippedPointsCount st) (intervalRef st) (lastRecordedPoint st)
    (cumulativeDistance st) (currentPosition st).

Definition set_error (v : ErrorMessage) (st : State) : State :=
  mkState (isTracking st) (coordinates st) (watchId st) v (results st)
    (gpsAccuracy st) (showInstructions st) (measurements st)
    (currentMeasurement st) (currentDistance st) (isGpsReady st)
    (skippedPointsCount st) (intervalRef st) (lastRecordedPoint st)
    (cumulativeDistance st) (currentPosition st).

Definition set_results (v : option Result) (st : State) : State :=
  mkState (isTracking st) (coordinates st) (watchId st) (error st) v
    (gpsAccuracy st) (showInstructions st) (measurements st)
    (currentMeasurement st) (currentDistance st) (isGpsReady st)
    (skippedPointsCount st) (intervalRef st) (lastRecordedPoint st)
    (cumulativeDistance st) (currentPosition st).

Definition set_gpsAccuracy (v : option R) (st : State) : State :=
  mkState (isTracking st) (coordinates st) (watchId st) (error st)
    (results st) v (showInstructions st) (measurements st)
    (currentMeasurement st) (currentDistance st) (isGpsReady st)
    (skippedPointsCount st) (intervalRef st) (lastRecordedPoint st)
    (cumulativeDistance st) (currentPosition st).

Definition set_showInstructions (v : bool) (st : State) : State :=
  mkState (isTracking st) (coordinates st) (watchId st) (error st)
    (results st) (gpsAccuracy st) v (measurements st)
    (currentMeasurement st) (currentDistance st) (isGpsReady st)
    (skippedPointsCount st) (intervalRef st) (lastRecordedPoint st)
    (cumulativeDistance st) (currentPosition st).

Definition set_measurements (v : list Result) (st : State) : State :=
  mkState (isTracking st) (coordinates st) (watchId st) (error st)
    (results st) (gpsAccuracy st) (showInstructions st) v
    (currentMeasurement st) (currentDistance st) (isGpsReady st)
    (skippedPointsCount st) (intervalRef st) (lastRecordedPoint st)
    (cumulativeDistance st) (currentPosition st).

Definition set_currentMeasurement (v : nat) (st : State) : State :=
  mkState (isTracking st) (coordinates st) (watchId st) (error st)
    (results st) (gpsAccuracy st) (showInstructions st) (measurements st)
    v (currentDistance st) (isGpsReady st)
    (skippedPointsCount st) (intervalRef st) (lastRecordedPoint st)
    (cumulativeDistance st) (currentPosition st).

Definition set_currentDistance (v : R) (st : State) : State :=
  mkState (isTracking st) (coordinates st) (watchId st) (error st)
    (results st) (gpsAccuracy st) (showInstructions st) (measurements st)
    (currentMeasurement st) v (isGpsReady st)
    (skippedPointsCount st) (intervalRef st) (lastRecordedPoint st)
    (cumulativeDistance st) (currentPosition st).

Definition set_isGpsReady (v : bool) (st : State) : State :=
  mkState (isTracking st) (coordinates st) (watchId st) (error st)
    (results st) (gpsAccuracy st) (showInstructions st) (measurements st)
    (currentMeasurement st) (currentDistance st) v
    (skippedPointsCount st) (intervalRef st) (lastRecordedPoint st)
    (cumulativeDistance st) (currentPosition st).

Definition set_skippedPointsCount (v : nat) (st : State) : State :=
  mkState (isTracking st) (coordinates st) (watchId st) (error st)
    (results st) (gpsAccuracy st) (showInstructions st) (measurements st)
    (currentMeasurement st) (currentDistance st) (isGpsReady st)
    v (intervalRef st) (lastRecordedPoint st)
    (cumulativeDistance st) (currentPosition st).

Definition set_intervalRef (v : option Z) (st : State) : State :=
  mkState (isTracking st) (coordinates st) (watchId st) (error st)
    (results st) (gpsAccuracy st) (showInstructions st) (measurements st)
    (currentMeasurement st) (currentDistance st) (isGpsReady st)
    (skippedPointsCount st) v (lastRecordedPoint st)
    (cumulativeDistance st) (currentPosition st).

Definition set_lastRecordedPoint (v : option Point) (st : State) : State :=
  mkState (isTracking st) (coordinates st) (watchId st) (error st)
    (results st) (gpsAccuracy st) (showInstructions st) (measurements st)
    (currentMeasurement st) (currentDistance st) (isGpsReady st)
    (skippedPointsCount st) (intervalRef st) v
    (cumulativeDistance st) (currentPosition st).

Definition set_cumulativeDistance (v : R) (st : State) : State :=
  mkState (isTracking st) (coordinates st) (watchId st) (error st)
    (results st) (gpsAccuracy st) (showInstructions st) (measurements st)
    (currentMeasurement st) (currentDistance st) (isGpsReady st)
    (skippedPointsCount st) (intervalRef st) (lastRecordedPoint st)
    v (currentPosition st).

Definition set_currentPosition (v : option Coords.t) (st : State) : State :=
  mkState (isTracking st) (coordinates st) (watchId st) (error st)
    (results st) (gpsAccuracy st) (showInstructions st) (measurements st)
    (currentMeasurement st) (currentDistance st) (isGpsReady st)
    (skippedPointsCount st) (intervalRef st) (lastRecordedPoint st)
    (cumulativeDistance st) v.

(** Statements of a handler run one after the other on the state. *)
Definition then_ (f g : State -> State) : State -> State :=
  fun st => g (f st).
Notation "f ;; g" := (then_ f g) (at level 61, right associativity).
Definition skip : State -> State := fun st => st.

(** *** Handlers *)

Definition showInstructionsDialog : State -> State := set_showInstructions true.
Definition hideInstructionsDialog : State -> State := set_showInstructions false.

(** [startTracking].  [geolocation] tells whether
    [navigator.geolocation] exists; [id] and [interval] are the handles
    returned by [watchPosition] and [setInterval]. *)
Definition startTracking (geolocation : bool) (id interval : Z) : State -> State :=
  if negb geolocation then set_error GpsUnsupported
  else
    set_error NoError ;;
    set_results None ;;
    set_coordinates [] ;;
    set_gpsAccuracy None ;;
    set_currentDistance 0 ;;
    set_isGpsReady false ;;
    set_skippedPointsCount 0 ;;
    set_lastRecordedPoint None ;;
    set_cumulativeDistance 0 ;;
    set_currentPosition None ;;
    set_isTracking true ;;
    set_watchId (Some id) ;;
    set_intervalRef (Some interval) ;;
    hideInstructionsDialog.

(** The success callback given to [watchPosition]. *)
Definition onPosition (position : Coords.t) : State -> State :=
  set_currentPosition (Some position) ;;
  set_gpsAccuracy (Some (Coords.accuracy position)) ;;
  set_isGpsReady true ;;
  set_error NoError.

(** The error callback given to [watchPosition]. *)
Definition onPositionError (code : GeoErrorCode) : State -> State :=
  set_error (match code with
             | PERMISSION_DENIED => PermissionDenied
             | POSITION_UNAVAILABLE => PositionUnavailable
             | TIMEOUT => Timeout
             | OTHER_ERROR => GpsFailure
             end) ;;
  set_isTracking false ;;
  set_isGpsReady false.

(** [recordGPSPoint]; [now] is the value of [Date.now()]. *)
Definition recordGPSPoint (now : Z) (position : Coords.t) (st : State) : State :=
  let latitude := Coords.latitude position in
  let longitude := Coords.longitude position in
  let accuracy := Coords.accuracy position in
  if gtb accuracy ACCURACY_THRESHOLD then
    set_skippedPointsCount (skippedPointsCount st + 1) st
  else
    let newPoint := mkPoint latitude longitude now accuracy in
    let append (st : State) : State :=
      let newCoords := coordinates st ++ [newPoint] in
      let kept :=
        if (MAX_COORDINATES <? length newCoords)%nat
        then skipn (length newCoords - MAX_COORDINATES) newCoords
        else newCoords in
      set_lastRecordedPoint (Some newPoint) (set_coordinates kept st) in
    match lastRecordedPoint st with
    | Some last =>
        let distance :=
          haversineDistance (lat last) (lng last) (lat newPoint) (lng newPoint) in
        if ltb distance MIN_DISTANCE_THRESHOLD then
          set_skippedPointsCount (skippedPointsCount st + 1) st
        else
          append
            (set_currentDistance (cumulativeDistance st + distance)
               (set_cumulativeDistance (cumulativeDistance st + distance) st))
    | None => append st
    end.

(** The callback given to [setInterval]. *)
Definition onTick (now : Z) (st : State) : State :=
  match currentPosition st with
  | Some position => recordGPSPoint now position st
  | None => st
  end.

Definition discardCurrentMeasurement : State -> State :=
  set_error NoError ;;
  set_coordinates [] ;;
  set_currentDistance 0 ;;
  set_skippedPointsCount 0 ;;
  set_lastRecordedPoint None ;;
  set_cumulativeDistance 0 ;;
  showInstructionsDialog.

Definition startNewMeasurement (st : State) : State :=
  (set_currentMeasurement (currentMeasurement st + 1) ;;
   set_results None ;;
   set_coordinates [] ;;
   set_error NoError ;;
   set_lastRecordedPoint None ;;
   showInstructionsDialog) st.

(** *** Projection (the [proj4] library) *)

Inductive Hemisphere : Type := north | south.

(** The definition string
    ["+proj=utm +zone=Z +H +ellps=WGS84 +datum=WGS84 +units=m +no_defs"]. *)
Record UtmDef : Type := mkUtm { zone : Z; hemisphere : Hemisphere }.

Section WithProj4.

(** [proj4('EPSG:4326', utm, [lng, lat])]: the projected pair, or
    [None] when the library throws. *)
Variable proj4 : UtmDef -> R * R -> option (R * R).

(** The zone definition built from the centroid. *)
Definition utmOf (closedCoords : list Point) : UtmDef :=
  let centerLat := reduce_sum lat closedCoords / INR (length closedCoords) in
  let centerLng := reduce_sum lng closedCoords / INR (length closedCoords) in
  let utmZone := (Zfloor ((centerLng + 180) / 6) + 1)%Z in
  let hemisphere := if geb centerLat 0 then north else south in
  mkUtm utmZone hemisphere.

(** The [try] block of [calculateAreaWithProjection]: [None] when an
    exception is thrown. *)
Definition projectedArea (closedCoords : list Point) : option R :=
  let utm := utmOf closedCoords in
  match map_throwing
          (fun coord =>
             match proj4 utm (lng coord, lat coord) with
             | Some (px, py) => Some (mkXY px py)
             | None => None
             end)
          closedCoords with
  | Some utmCoords => Some (Rabs (shoelaceLoop utmCoords) / 2)
  | None => None
  end.

Definition calculateAreaWithProjection (closedCoords : list Point) : R :=
  match projectedArea closedCoords with
  | Some area => area
  | None => calculateAreaWithShoelace closedCoords
  end.

(** The local constant [useProjForLargeFields] of [calculateArea]. *)
Definition useProjForLargeFields (closedCoords : list Point) : bool :=
  let lats := map lat closedCoords in
  let lngs := map lng closedCoords in
  let latRange := Math_max lats - Math_min lats in
  let lngRange := Math_max lngs - Math_min lngs in
  gtb latRange 0.01 || gtb lngRange 0.01.

Definition calculateArea (closedCoords : list Point) : R :=
  if (length closedCoords <? 3)%nat then 0
  else if useProjForLargeFields closedCoords
       then calculateAreaWithProjection closedCoords
       else calculateAreaWithShoelace closedCoords.


Definition calculateResultsWithCoordinates (coords : list Point) (st : State) : State :=
  let closedPolygon := createClosedPolygon coords in
  let perimeter := calculatePerimeter closedPolygon in
  let areaInSquareMeters := calculateArea closedPolygon in
  let acres := areaInSquareMeters / 4047 in
  let hectares := areaInSquareMeters / 10000 in
  let guntalu := areaInSquareMeters / 101.17 in
  let avgAccuracy :=
    if (0 <? length coords)%nat
    then reduce_sum accuracy coords / INR (length coords)
    else 0 in
  let newResult :=
    {| distance := toFixed 2 perimeter;
       areaSquareMeters := toFixed 2 areaInSquareMeters;
       acres := toFixed 4 acres;
       hectares := toFixed 4 hectares;
       guntalu := toFixed 4 guntalu;
       measurementNumber := currentMeasurement st;
       pointsRecorded := length coords;
       closedPolygonPoints := length closedPolygon;
       avgAccuracy := toFixed 1 avgAccuracy;
       skippedPoints := skippedPointsCount st |} in
  set_measurements (measurements st ++ [newResult])
    (set_results (Some newResult) st).

Definition stopTracking (st : State) : State :=
  let st1 :=
    ((match watchId st with
      | Some id => if (id =? 0)%Z then skip else set_watchId None
      | None => skip
      end) ;;
     (match intervalRef st with
      | Some interval => if (interval =? 0)%Z then skip else set_intervalRef None
      | None => skip
      end) ;;
     set_isTracking false) st in
  if (length (coordinates st) <? 3)%nat
  then set_error InsufficientPoints st1
  else calculateResultsWithCoordinates (coordinates st) st1.

End WithProj4.

End Tracker.

(* ================================================================== *)
(** ** The statistics endpoint of the server *)
(* ================================================================== *)

Module Server.
Import JS.

(** The JSON value stored under the key [id]: an integer, or any other
    value (a fraction, a string, [null], ...).  The lookups compare it
    with [===] to the integer that [parseInt] returns, which no value of
    the second kind equals. *)
Inductive IdValue : Type :=
| IntegerId (i : Z)
| OtherId (tag : nat).

(** A stored measurement, as far as the routes read it.  [POST] stores
    the body as it comes: [pointsRecorded] and [skippedPoints] hold the
    number posted under these keys, negative and fractional ones
    included; [areaSquareMeters] and [avgAccuracy] hold the numeral
    posted, which the component renders with two digits and with one.  A
    key the body does not carry is [None]; a value of another JSON type
    under one of these four keys is not modelled. *)
Record Measurement : Type := mkMeasurement {
  id : IdValue;
  areaSquareMeters : option (Fixed 2);
  pointsRecorded : option R;
  skippedPoints : option R;
  avgAccuracy : option (Fixed 1)
}.

(** The [data] object answered by [GET /api/stats]. *)
Record Stats : Type := mkStats {
  totalMeasurements : nat;
  totalArea : Fixed 2;
  averageArea : Fixed 2;
  totalAreaInAcres : Fixed 4;
  totalAreaInHectares : Fixed 4;
  avgPointsPerMeasurement : Fixed 1;
  totalSkippedPoints : R;
  statsAvgAccuracy : Fixed 1;
  (** [None] is the literal ['100%']. *)
  dataQuality : option (Fixed 1)
}.

(** [parseFloat(v || 0)]. *)
Definition parseFloatOr0 {d : nat} (v : option (Fixed d)) : R :=
  match v with
  | Some s => parseFloat s
  | None => 0
  end.

(** [v || 0]. *)
Definition or0 (v : option R) : R :=
  match v with
  | Some n => n
  | None => 0
  end.

(** The handler of [GET /api/stats].  When posted counts cancel out so
    that recorded and skipped points add up to 0 while skipped points
    are counted, JavaScript divides by zero and renders an infinity or
    [NaN]; that case is not modelled. *)
Definition stats (measurements : list Measurement) : Stats :=
  let totalMeasurements := length measurements in
  let totalArea :=
    reduce_sum (fun m => parseFloatOr0 (areaSquareMeters m)) measurements in
  let avgArea :=
    if (0 <? totalMeasurements)%nat then totalArea / INR totalMeasurements else 0 in
  let sumPoints :=
    reduce_sum (fun m => or0 (pointsRecorded m)) measurements in
  let avgPointsPerMeasurement :=
    if (0 <? totalMeasurements)%nat
    then sumPoints / INR totalMeasurements else 0 in
  let totalSkippedPoints :=
    reduce_sum (fun m => or0 (skippedPoints m)) measurements in
  let avgAccuracy :=
    if (0 <? totalMeasurements)%nat
    then reduce_sum (fun m => parseFloatOr0 (avgAccuracy m)) measurements
         / INR totalMeasurements
    else 0 in
  {| totalMeasurements := totalMeasurements;
     totalArea := toFixed 2 totalArea;
     averageArea := toFixed 2 avgArea;
     totalAreaInAcres := toFixed 4 (totalArea / 4047);
     totalAreaInHectares := toFixed 4 (totalArea / 10000);
     avgPointsPerMeasurement := toFixed 1 avgPointsPerMeasurement;
     totalSkippedPoints := totalSkippedPoints;
     statsAvgAccuracy := toFixed 1 avgAccuracy;
     dataQuality :=
       if gtb totalSkippedPoints 0
       then Some (toFixed 1 (sumPoints / (sumPoints + totalSkippedPoints) * 100))
       else None |}.

End Server.

(* ================================================================== *)
(** ** The map-based component *)
(* ================================================================== *)

Module MapView.
Import JS.

(** A coordinate [[latitude, longitude]]. *)
Definition Coord : Type := (R * R)%type.

Definition at_coord (a : list Coord) (i : nat) : Coord := nth i a (0, 0).

Definition haversineDistance (coord1 coord2 : Coord) : R :=
  let R_ := 6371000 in
  let lat1 := fst coord1 * PI / 180 in
  let lat2 := fst coord2 * PI / 180 in
  let deltaLat := (fst coord2 - fst coord1) * PI / 180 in
  let deltaLon := (snd coord2 - snd coord1) * PI / 180 in
  let a := sin (deltaLat / 2) ^ 2 +
           cos lat1 * cos lat2 * sin (deltaLon / 2) ^ 2 in
  let c := 2 * Math_atan2 (sqrt a) (sqrt (1 - a)) in
  R_ * c.

Definition polygonArea (coords : list Coord) : R :=
  if (length coords <? 3)%nat then 0
  else
    let R_ := 6378137 in
    let area :=
      for_range (length coords)
        (fun i area =>
           let '(lat1, lon1) := at_coord coords i in
           let '(lat2, lon2) := at_coord coords ((i + 1) mod length coords) in
           let x1 := lon1 * PI / 180 * R_ * cos (lat1 * PI / 180) in
           let y1 := lat1 * PI / 180 * R_ in
           let x2 := lon2 * PI / 180 * R_ * cos (lat2 * PI / 180) in
           let y2 := lat2 * PI / 180 * R_ in
           area + (x1 * y2 - x2 * y1))
        0 in
    Rabs (area / 2).

(** The conversions computed in the body of the component. *)
Definition acres (areaSqMeters : R) : R := areaSqMeters / 4046.86.



End MapView.

(* ================================================================== *)
(** ** Formulations of the specification *)
(* ================================================================== *)

Module Spec.
Import Tracker.

(** The consecutive pairs [(v_i, v_{i+1})] of a sequence. *)
Fixpoint consecutive {A : Type} (l : list A) : list (A * A) :=
  match l with
  | [] => []
  | a :: t =>
      match t with
      | [] => []
      | b :: _ => (a, b) :: consecutive t
      end
  end.

Definition sumR (l : list R) : R := fold_right Rplus 0 l.

(** The sum of [f v_i v_{i+1}] over the consecutive pairs. *)
Definition pathSum {A : Type} (f : A -> A -> R) (l : list A) : R :=
  sumR (map (fun e => f (fst e) (snd e)) (consecutive l)).

(** The term of such a sum that joins the end of [u] to the start of
    [v]. *)
Definition link {A : Type} (f : A -> A -> R) (u v : list A) : R :=
  match u, v with
  | a :: _, b :: _ => f (last u a) b
  | _, _ => 0
  end.

(** Degrees to radians. *)
Definition radians (degrees : R) : R := degrees * PI / 180.

(** The haversine of an angle. *)
Definition hav (theta : R) : R := sin (theta / 2) ^ 2.

(** Geodesic (haversine) distance: the great-circle distance between two
    points given by latitude and longitude in degrees, on a sphere of
    radius [radius], by the haversine formula
    [2 r arcsin (sqrt (hav (phi2 - phi1)
                       + cos phi1 * cos phi2 * hav (lambda2 - lambda1)))]. *)
Definition haversine (radius lat1 lng1 lat2 lng2 : R) : R :=
  2 * radius
  * asin (sqrt (hav (radians lat2 - radians lat1)
                + cos (radians lat1) * cos (radians lat2)
                  * hav (radians lng2 - radians lng1))).

(** The geodesic distance between two recorded points, on the Earth
    taken as a sphere of radius 6371000 m. *)
Definition geodesic (p q : Point) : R :=
  haversine 6371000 (lat p) (lng p) (lat q) (lng q).

(** The length of a path as the code measures it: the sum of
    [haversineDistance] over the consecutive pairs. *)
Definition perimeter (polygon : list Point) : R :=
  pathSum pointDistance polygon.

(** The signed shoelace sum: the sum over consecutive vertex pairs of
    [x_i * y_{i+1} - x_{i+1} * y_i]. *)
Definition cross (p q : XY) : R := x p * y q - x q * y p.

Definition shoelaceSum (vertices : list XY) : R :=
  pathSum cross vertices.

(** The arithmetic mean. *)
Definition mean (values : list R) : R := sumR values / INR (length values).

(** A numeral with [d] fraction digits renders the number [v] when no
    numeral with [d] fraction digits is nearer to [v]: it differs from
    [v] by at most half a unit of its last digit.  A number halfway
    between two numerals is rendered by both. *)
Definition renders {d : nat} (v : R) (s : JS.Fixed d) : Prop :=
  Rabs (IZR (JS.units s) - v * 10 ^ d) <= / 2.

Definition meanLatitude (polygon : list Point) : R :=
  sumR (map lat polygon) / INR (length polygon).

(** Flat mode projects a vertex to
    [x = longitude * 111000 * cos(meanLatitudeRadians)],
    [y = latitude * 111000]. *)
Definition planar (meanLatitudeRadians : R) (p : Point) : XY :=
  mkXY (lng p * 111000 * cos meanLatitudeRadians) (lat p * 111000).

(** Flat-mode area: the shoelace sum, halved, absolute value taken. *)
Definition flatArea (polygon : list Point) : R :=
  Rabs (shoelaceSum (map (planar (radians (meanLatitude polygon))) polygon) / 2).

(** The latitude (longitude) range exceeds [bound] when two vertices
    are further apart than [bound] in latitude (longitude). *)
Definition latitudeRangeExceeds (bound : R) (polygon : list Point) : Prop :=
  exists p q, In p polygon /\ In q polygon /\ lat p - lat q > bound.

Definition longitudeRangeExceeds (bound : R) (polygon : list Point) : Prop :=
  exists p q, In p polygon /\ In q polygon /\ lng p - lng q > bound.

(** An explicitly closed polygon: the ring of its vertices followed by a
    copy of the first one. *)
Definition closeRing {A : Type} (ring : list A) : list A :=
  match ring with
  | [] => []
  | a :: _ => ring ++ [a]
  end.

(** The ring started at index [k] instead of index 0. *)
Definition rotate {A : Type} (k : nat) (ring : list A) : list A :=
  skipn k ring ++ firstn k ring.

(** FixFilter. *)
Inductive Verdict : Type := Accept | RejectLowAccuracy | RejectJitter.

Record Config : Type := mkConfig {
  accuracyThresholdMeters : R;
  minDistanceThresholdMeters : R
}.

Definition fixFilter (cfg : Config) (fix_ : Coords.t) (prior : option Point) : Verdict :=
  if Rgt_dec (Coords.accuracy fix_) (accuracyThresholdMeters cfg)
  then RejectLowAccuracy
  else
    match prior with
    | Some p =>
        if Rlt_dec (haversine 6371000 (lat p) (lng p)
                      (Coords.latitude fix_) (Coords.longitude fix_))
                   (minDistanceThresholdMeters cfg)
        then RejectJitter
        else Accept
    | None => Accept
    end.

(** The configuration the component is built with. *)
Definition config : Config :=
  mkConfig ACCURACY_THRESHOLD MIN_DISTANCE_THRESHOLD.

End Spec.

(* ================================================================== *)
(** ** Measurement sessions *)
(* ================================================================== *)

Module Session.
Import JS Tracker.

(** What happens while a session records: the location source delivers
    a fix, or the recording timer fires at time [now]. *)
Inductive Event : Type :=
| FixDelivered (position : Coords.t)
| TimerTick (now : Z).

Definition handle (e : Event) : State -> State :=
  match e with
  | FixDelivered position => onPosition position
  | TimerTick now => onTick now
  end.

Definition runEvents (events : list Event) (st : State) : State :=
  fold_left (fun s e => handle e s) events st.

(** A session as its callbacks are written: [startTracking] on a device
    with geolocation, then the two callbacks it installs, called one
    after the other in the order of the events.  Which of these calls
    the browser makes on the mounted component, where an effect cleanup
    runs between them, is the matter of [Mounted]: there the timer
    callback is never called. *)
Definition session (events : list Event) (st0 : State) : State :=
  runEvents events (startTracking true 1 1 st0).

(** The point [recordGPSPoint] builds from a fix. *)
Definition pointOf (now : Z) (fix_ : Coords.t) : Point :=
  mkPoint (Coords.latitude fix_) (Coords.longitude fix_) now (Coords.accuracy fix_).

(** The window kept after appending [p]: the newest [MAX_COORDINATES]
    entries. *)
Definition retained (before : list Point) (p : Point) : list Point :=
  skipn (length (before ++ [p]) - MAX_COORDINATES) (before ++ [p]).

(** What a tick does to the session when the fix is accepted. *)
Definition acceptedInto (now : Z) (fix_ : Coords.t) (st st' : State) : Prop :=
  coordinates st' = retained (coordinates st) (pointOf now fix_)
  /\ last (coordinates st') point0 = pointOf now fix_
  /\ lastRecordedPoint st' = Some (pointOf now fix_)
  /\ skippedPointsCount st' = skippedPointsCount st.

(** What a tick does to the session when the fix is rejected. *)
Definition rejectedFrom (st st' : State) : Prop :=
  st' = set_skippedPointsCount (skippedPointsCount st + 1) st.

(** The verdicts FixFilter gives along a run of events: each timer tick
    evaluates the most recently delivered fix against the last accepted
    point. *)
Fixpoint verdicts (cfg : Spec.Config) (current : option Coords.t)
         (prior : option Point) (events : list Event) : list Spec.Verdict :=
  match events with
  | [] => []
  | FixDelivered position :: rest => verdicts cfg (Some position) prior rest
  | TimerTick now :: rest =>
      match current with
      | None => verdicts cfg None prior rest
      | Some fix_ =>
          let v := Spec.fixFilter cfg fix_ prior in
          v :: verdicts cfg current
                 (match v with
                  | Spec.Accept => Some (pointOf now fix_)
                  | _ => prior
                  end)
                 rest
      end
  end.

Definition isAccept (v : Spec.Verdict) : bool :=
  match v with Spec.Accept => true | _ => false end.

Definition acceptedCount (vs : list Spec.Verdict) : nat :=
  length (filter isAccept vs).

Definition rejectionCount (vs : list Spec.Verdict) : nat :=
  length (filter (fun v => negb (isAccept v)) vs).

(** The verdicts of a whole session. *)
Definition sessionVerdicts (events : list Event) : list Spec.Verdict :=
  verdicts Spec.config None None events.

End Session.

(* ================================================================== *)
(** ** Concrete inputs *)
(* ================================================================== *)

Module Examples.
Import JS Tracker.

(** Three recorded points, two seconds apart. *)
Definition threePoints : list Point :=
  [mkPoint 0 0 0 5; mkPoint 0 1 2000 5; mkPoint 1 1 4000 5].

(** A session of two fixes, of accuracy 3 m and 12 m, each sampled by
    one tick. *)
Definition twoFixes (p1 p2 : R * R) (t1 t2 : Z) : list Session.Event :=
  [Session.FixDelivered (Coords.mk (fst p1) (snd p1) 3);
   Session.TimerTick t1;
   Session.FixDelivered (Coords.mk (fst p2) (snd p2) 12);
   Session.TimerTick t2].

(** A walk out and back: from the origin to a point 0.02 degrees north
    and east, and back to the origin. *)
Definition outAndBack : list Point :=
  [mkPoint 0 0 0 5; mkPoint 0.02 0.02 2000 5; mkPoint 0 0 4000 5].

(** A [proj4] that never throws and answers the pair it is given. *)
Definition identityProj4 : UtmDef -> R * R -> option (R * R) :=
  fun _ lngLat => Some lngLat.

(** The corners of a field of 0.01 by 0.01 degrees at latitude 45,
    walked from its south-west corner: south-west, south-east,
    north-east, north-west. *)
Definition fieldWalk : list Point :=
  [mkPoint 45 0 0 5; mkPoint 45 0.01 2000 5;
   mkPoint 45.01 0.01 4000 5; mkPoint 45.01 0 6000 5].

(** Two stored results whose areas, 2.01 and 0.00 m^2, have their mean
    1.005 halfway between two numerals of two digits. *)
Definition tiePair : list Result :=
  [ {| distance := mkFixed 2 600; areaSquareMeters := mkFixed 2 201;
       acres := mkFixed 4 5; hectares := mkFixed 4 2; guntalu := mkFixed 4 199;
       measurementNumber := 1; pointsRecorded := 3; closedPolygonPoints := 4;
       avgAccuracy := mkFixed 1 50; skippedPoints := 0 |};
    {| distance := mkFixed 2 400; areaSquareMeters := mkFixed 2 0;
       acres := mkFixed 4 0; hectares := mkFixed 4 0; guntalu := mkFixed 4 0;
       measurementNumber := 2; pointsRecorded := 3; closedPolygonPoints := 3;
       avgAccuracy := mkFixed 1 50; skippedPoints := 0 |} ].

(** A stored result: 1000 m of perimeter around 40000 m^2. *)
Definition sampleResult : Result :=
  {| distance := mkFixed 2 100000;
     areaSquareMeters := mkFixed 2 4000000;
     acres := mkFixed 4 98838;
     hectares := mkFixed 4 40000;
     guntalu := mkFixed 4 3953741;
     measurementNumber := 1;
     pointsRecorded := 120;
     closedPolygonPoints := 121;
     avgAccuracy := mkFixed 1 45;
     skippedPoints := 7 |}.


Definition twoFixSession : list Session.Event :=
  twoFixes (0, 0) (0, 1) 0 2000.

(** A steady walk along the equator: the fix of tick [i] lies
    [0.00003] degrees of longitude (about 3.3 m) east of the previous
    one and has accuracy 5 m. *)
Definition walkFix (i : nat) : Coords.t :=
  Coords.mk 0 (INR i * 0.00003) 5.

Fixpoint walkFrom (i n : nat) : list Session.Event :=
  match n with
  | O => []
  | S n' =>
      Session.FixDelivered (walkFix i)
        :: Session.TimerTick (2000 * Z.of_nat i)
        :: walkFrom (S i) n'
  end.

(** A [proj4] that throws on every call. *)
Definition failingProj4 : UtmDef -> R * R -> option (R * R) :=
  fun _ _ => None.

(** 10001 ticks of that walk. *)
Definition longWalk : list Session.Event := walkFrom 0 (Z.to_nat 10001).

(** A small triangular field around latitude 60, closed by a copy of
    its first corner; its latitudes average to 60 degrees. *)
Definition smallField : list Point :=
  [mkPoint 60 10 0 5; mkPoint 60.001 10.001 2000 5;
   mkPoint 59.999 10.001 4000 5; mkPoint 60 10 0 5].

(** Three points on the equator, at longitudes 0, 1 and 3 degrees. *)
Definition equatorPath : list Point :=
  [mkPoint 0 0 0 5; mkPoint 0 1 2000 5; mkPoint 0 3 4000 5].

End Examples.

(* ================================================================== *)
(** ** Display helpers of the field-measurement component *)
(* ================================================================== *)

Module TrackerView.
Import JS Tracker.

Definition leb (a b : R) : bool := if Rle_dec a b then true else false.

(** The [status] field of the object [getAccuracyStatus] returns; its
    colour and text are fixed by the status. *)
Inductive AccuracyStatus : Type := excellent | good.

(** [!gpsAccuracy] holds for [null] and for [0]. *)
Definition getAccuracyStatus (st : State) : option AccuracyStatus :=
  match gpsAccuracy st with
  | None => None
  | Some a =>
      if Req_dec_T a 0 then None
      else if leb a 5 then Some excellent
      else if leb a 10 then Some good
      else None
  end.

(** The state cell [containerDimensions]. *)
Record Dimensions : Type := mkDimensions { width : R; height : R }.

Definition initialDimensions : Dimensions := mkDimensions 400 300.

(** [handleResize], from [window.innerWidth] to the new dimensions. *)
Definition handleResize (innerWidth : R) : Dimensions :=
  let width :=
    if gtb innerWidth 768 then 400 else Math_min [350; innerWidth - 40] in
  let height := Math_min [300; (width * 3) / 4] in
  mkDimensions width height.

(** The value of [memoizedVisualizationData]; [null] is [None]. *)
Record Visualization : Type := mkVisualization {
  scaleX : R -> R;
  scaleY : R -> R;
  svgWidth : R;
  svgHeight : R
}.

Definition memoizedVisualizationData
           (coordinates : list Point) (containerDimensions : Dimensions)
  : option Visualization :=
  if (length coordinates =? 0)%nat then None
  else
    let lats := map lat coordinates in
    let lngs := map lng coordinates in
    let minLat := Math_min lats in
    let maxLat := Math_max lats in
    let minLng := Math_min lngs in
    let maxLng := Math_max lngs in
    let epsilon := 0.0001 in
    let latRange := Math_max [maxLat - minLat; epsilon] in
    let lngRange := Math_max [maxLng - minLng; epsilon] in
    let svgWidth := width containerDimensions in
    let svgHeight := height containerDimensions in
    let padding := 20 in
    Some {| scaleX := fun lng =>
              ((lng - minLng) / lngRange) * (svgWidth - 2 * padding) + padding;
            scaleY := fun lat =>
              svgHeight
              - (((lat - minLat) / latRange) * (svgHeight - 2 * padding) + padding);
            svgWidth := svgWidth;
            svgHeight := svgHeight |}.

End TrackerView.

(* ================================================================== *)
(** ** The life of the component *)
(* ================================================================== *)

Module Lifecycle.
Import JS Tracker.

(** What the user and the browser do to the component. *)
Inductive Action : Type :=
| PressStart (geolocation : bool) (id interval : Z)
| PressStop
| PressDiscard
| PressNewMeasurement
| OpenInstructions
| CloseInstructions
| PositionDelivered (position : Coords.t)
| PositionFailed (code : GeoErrorCode)
| TimerFired (now : Z).

Definition perform (proj4 : UtmDef -> R * R -> option (R * R)) (a : Action)
  : State -> State :=
  match a with
  | PressStart geolocation id interval => startTracking geolocation id interval
  | PressStop => stopTracking proj4
  | PressDiscard => discardCurrentMeasurement
  | PressNewMeasurement => startNewMeasurement
  | OpenInstructions => showInstructionsDialog
  | CloseInstructions => hideInstructionsDialog
  | PositionDelivered position => onPosition position
  | PositionFailed code => onPositionError code
  | TimerFired now => onTick now
  end.

Definition performAll (proj4 : UtmDef -> R * R -> option (R * R))
           (actions : list Action) (st : State) : State :=
  fold_left (fun s a => perform proj4 a s) actions st.

Definition isStop (a : Action) : bool :=
  match a with PressStop => true | _ => false end.

End Lifecycle.

(* ================================================================== *)
(** ** The component mounted in the browser *)
(* ================================================================== *)

Module Mounted.
Import JS Tracker.

(** [if (v)] on a handle: [null] and [0] are falsy. *)
Definition truthy (v : option Z) : bool :=
  match v with
  | Some n => negb (n =? 0)%Z
  | None => false
  end.

(** [clearWatch(v)] and [clearInterval(v)]: the handle is served no
    longer; a handle that is not in use is ignored. *)
Definition clear (v : option Z) (live : list Z) : list Z :=
  match v with
  | Some n => remove Z.eq_dec n live
  | None => live
  end.

(** The component in the browser: its hooks; the [watchId] of the render
    in which the effect
    [useEffect(() => { return () => {...}; }, [watchId])]
    was last installed, which is the one its cleanup closes over; the
    position watches and the interval timers the browser still serves;
    and the handles [watchPosition] and [setInterval] return next, which
    are greater than zero and not in use.  The component stays mounted:
    unmounting is not among the inputs. *)
Record Component : Type := mkComponent {
  hooks : State;
  effectWatchId : option Z;
  liveWatches : list Z;
  liveIntervals : list Z;
  nextWatch : Z;
  nextInterval : Z
}.

(** The component after its first render. *)
Definition mount : Component :=
  {| hooks := initialState; effectWatchId := None;
     liveWatches := []; liveIntervals := [];
     nextWatch := 1; nextInterval := 1 |}.

(** The cleanup function of the effect: it reads [watchId] from its
    closure and [intervalRef.current] when it runs. *)
Definition cleanup (c : Component) : Component :=
  {| hooks := hooks c;
     effectWatchId := effectWatchId c;
     liveWatches :=
       if truthy (effectWatchId c)
       then clear (effectWatchId c) (liveWatches c) else liveWatches c;
     liveIntervals :=
       if truthy (intervalRef (hooks c))
       then clear (intervalRef (hooks c)) (liveIntervals c)
       else liveIntervals c;
     nextWatch := nextWatch c;
     nextInterval := nextInterval c |}.

(** The comparison of a dependency with its value at the last render. *)
Definition sameValue (a b : option Z) : bool :=
  match a, b with
  | None, None => true
  | Some m, Some n => (m =? n)%Z
  | _, _ => false
  end.

(** The render that follows a handler or a callback: when [watchId] has
    changed, the cleanup of the installed effect runs and the effect is
    installed again, closing over the new [watchId]. *)
Definition rerender (c : Component) : Component :=
  if sameValue (effectWatchId c) (watchId (hooks c)) then c
  else
    let c' := cleanup c in
    {| hooks := hooks c';
       effectWatchId := watchId (hooks c');
       liveWatches := liveWatches c';
       liveIntervals := liveIntervals c';
       nextWatch := nextWatch c';
       nextInterval := nextInterval c' |}.

(** What the user and the browser do. *)
Inductive Input : Type :=
| ClickStart
| ClickStop
| ClickDiscard
| ClickNewMeasurement
| ClickShowInstructions
| ClickHideInstructions
| SourceDelivers (position : Coords.t)
| SourceFails (code : GeoErrorCode)
| PeriodElapses (now : Z).

Section WithDevice.

Variable proj4 : UtmDef -> R * R -> option (R * R).

(** Whether [navigator.geolocation] exists. *)
Variable geolocation : bool.

Definition withHooks (st : State) (c : Component) : Component :=
  {| hooks := st; effectWatchId := effectWatchId c;
     liveWatches := liveWatches c; liveIntervals := liveIntervals c;
     nextWatch := nextWatch c; nextInterval := nextInterval c |}.

(** [startTracking] together with its calls of [watchPosition] and
    [setInterval]. *)
Definition clickStart (c : Component) : Component :=
  if geolocation then
    {| hooks := startTracking true (nextWatch c) (nextInterval c) (hooks c);
       effectWatchId := effectWatchId c;
       liveWatches := nextWatch c :: liveWatches c;
       liveIntervals := nextInterval c :: liveIntervals c;
       nextWatch := (nextWatch c + 1)%Z;
       nextInterval := (nextInterval c + 1)%Z |}
  else withHooks (startTracking false 0 0 (hooks c)) c.

(** [stopTracking] together with its calls of [clearWatch] and
    [clearInterval]. *)
Definition clickStop (c : Component) : Component :=
  {| hooks := stopTracking proj4 (hooks c);
     effectWatchId := effectWatchId c;
     liveWatches :=
       if truthy (watchId (hooks c))
       then clear (watchId (hooks c)) (liveWatches c) else liveWatches c;
     liveIntervals :=
       if truthy (intervalRef (hooks c))
       then clear (intervalRef (hooks c)) (liveIntervals c)
       else liveIntervals c;
     nextWatch := nextWatch c;
     nextInterval := nextInterval c |}.

(** The handler or callbacks an input runs: a position or an error is
    passed to the callbacks of the watches still served, the timer
    callback runs once for every interval timer still served. *)
Definition react (i : Input) (c : Component) : Component :=
  match i with
  | ClickStart => clickStart c
  | ClickStop => clickStop c
  | ClickDiscard => withHooks (discardCurrentMeasurement (hooks c)) c
  | ClickNewMeasurement => withHooks (startNewMeasurement (hooks c)) c
  | ClickShowInstructions => withHooks (showInstructionsDialog (hooks c)) c
  | ClickHideInstructions => withHooks (hideInstructionsDialog (hooks c)) c
  | SourceDelivers position =>
      withHooks (fold_left (fun st _ => onPosition position st)
                           (liveWatches c) (hooks c)) c
  | SourceFails code =>
      withHooks (fold_left (fun st _ => onPositionError code st)
                           (liveWatches c) (hooks c)) c
  | PeriodElapses now =>
      withHooks (fold_left (fun st _ => onTick now st)
                           (liveIntervals c) (hooks c)) c
  end.

Definition step (i : Input) (c : Component) : Component :=
  rerender (react i c).

Definition run (inputs : list Input) (c : Component) : Component :=
  fold_left (fun c i => step i c) inputs c.

End WithDevice.

(** What holds of the mounted component after every render. *)
Definition settled (c : Component) : Prop :=
  liveIntervals c = []
  /\ effectWatchId c = watchId (hooks c)
  /\ (forall w, watchId (hooks c) = Some w -> (0 < w < nextWatch c)%Z)
  /\ (0 < nextWatch c)%Z /\ (0 < nextInterval c)%Z
  /\ coordinates (hooks c) = []
  /\ skippedPointsCount (hooks c) = 0%nat
  /\ results (hooks c) = None
  /\ measurements (hooks c) = [].

End Mounted.

(* ================================================================== *)
(** ** Tracking in the map-based component *)
(* ================================================================== *)

Module MapTracker.
Import JS MapView.

(** The text passed to [setError]: empty, the message of a geolocation
    error, or the notice that the browser has no geolocation. *)
Inductive ErrorText : Type :=
| NoText
| ProviderMessage (message : nat)
| Unsupported.

(** The [useState] cells of the component. *)
Record State : Type := mkState {
  coordinates : list Coord;
  error : ErrorText;
  watchId : option Z;
  isTracking : bool;
  totalDistance : R;
  currentPos : option Coord
}.

Definition initialState : State :=
  {| coordinates := []; error := NoText; watchId := None;
     isTracking := false; totalDistance := 0; currentPos := None |}.

(** [startTracking]; [geolocation] tells whether ["geolocation" in
    navigator], [id] is the handle [watchPosition] returns. *)
Definition startTracking (geolocation : bool) (id : Z) (st : State) : State :=
  if geolocation
  then {| coordinates := []; error := NoText; watchId := Some id;
          isTracking := true; totalDistance := 0; currentPos := currentPos st |}
  else {| coordinates := []; error := Unsupported; watchId := watchId st;
          isTracking := isTracking st; totalDistance := 0;
          currentPos := currentPos st |}.

(** The success callback given to [watchPosition]. *)
Definition onPosition (latitude longitude : R) (st : State) : State :=
  let newCoord := (latitude, longitude) in
  let newCoords := coordinates st ++ [newCoord] in
  let total :=
    if (1 <? length newCoords)%nat
    then
      let lastCoord := at_coord newCoords (length newCoords - 2) in
      let dist := haversineDistance lastCoord newCoord in
      totalDistance st + dist
    else totalDistance st in
  {| coordinates := newCoords; error := error st; watchId := watchId st;
     isTracking := isTracking st; totalDistance := total;
     currentPos := Some newCoord |}.

(** The error callback given to [watchPosition]. *)
Definition onError (message : nat) (st : State) : State :=
  {| coordinates := coordinates st; error := ProviderMessage message;
     watchId := watchId st; isTracking := isTracking st;
     totalDistance := totalDistance st; currentPos := currentPos st |}.

Definition stopTracking (st : State) : State :=
  {| coordinates := coordinates st; error := error st;
     watchId := None;
     isTracking := false; totalDistance := totalDistance st;
     currentPos := currentPos st |}.

(** Deliveries of fixes, one after the other. *)
Definition deliver (fixes : list Coord) (st : State) : State :=
  fold_left (fun s c => onPosition (fst c) (snd c) s) fixes st.

(** What the loop of [polygonArea] adds for the edge from [c1] to [c2]. *)
Definition edgeTerm (c1 c2 : Coord) : R :=
  snd c1 * PI / 180 * 6378137 * cos (fst c1 * PI / 180)
  * (fst c2 * PI / 180 * 6378137)
  - snd c2 * PI / 180 * 6378137 * cos (fst c2 * PI / 180)
    * (fst c1 * PI / 180 * 6378137).

End MapTracker.

(* ================================================================== *)
(** ** The measurement store of the express server *)
(* ================================================================== *)

Module Api.
Import JS Server.

(** The JSON body of a [POST]: the value under its own [id] key, if it
    has one, and the fields the statistics read. *)
Record Body : Type := mkBody {
  bodyId : option IdValue;
  bodyArea : option (Fixed 2);
  bodyPoints : option R;
  bodySkipped : option R;
  bodyAccuracy : option (Fixed 1)
}.

(** A stored object: the measurement and the instant of its
    [timestamp], in milliseconds. *)
Record Stored : Type := mkStored {
  measurement : Measurement;
  timestamp : Z
}.

(** The module-level variables [measurements] and [measurementId]. *)
Record Store : Type := mkStore {
  measurements : list Stored;
  measurementId : Z
}.

Definition initialStore : Store :=
  {| measurements := []; measurementId := 1 |}.

(** The requests served; [now] is what [new Date()] gives, [param] is
    [parseInt(req.params.id)], [None] for [NaN]. *)
Inductive Request : Type :=
| PostMeasurement (body : Body) (now : Z)
| GetMeasurements
| GetMeasurement (param : option Z)
| DeleteMeasurement (param : option Z)
| GetStats.

(** The answers: status 201, 200 with data, 200 after a deletion, 404. *)
Inductive Reply : Type :=
| Created (data : Stored)
| Listing (data : list Stored)
| Found (data : Stored)
| Deleted
| NotFound
| Statistics (data : Stats).

Definition idOf (m : Stored) : IdValue := id (measurement m).

(** [{ id: measurementId++, ...req.body, timestamp, location }]: a key
    of the body replaces the [id] written before the spread. *)
Definition postMeasurement (body : Body) (now : Z) (s : Store) : Reply * Store :=
  let assigned := measurementId s in
  let stored :=
    {| measurement :=
         {| id := match bodyId body with
                  | Some v => v
                  | None => IntegerId assigned
                  end;
            areaSquareMeters := bodyArea body;
            pointsRecorded := bodyPoints body;
            skippedPoints := bodySkipped body;
            avgAccuracy := bodyAccuracy body |};
       timestamp := now |} in
  (Created stored,
   {| measurements := measurements s ++ [stored];
      measurementId := (assigned + 1)%Z |}).

(** [measurements.sort((a, b) => new Date(b.timestamp) - new
    Date(a.timestamp))]: the stable sort, newest first. *)
Fixpoint insertByTime (m : Stored) (l : list Stored) : list Stored :=
  match l with
  | [] => [m]
  | x :: t =>
      if (timestamp x <=? timestamp m)%Z then m :: l
      else x :: insertByTime m t
  end.

Definition sortNewestFirst (l : list Stored) : list Stored :=
  fold_right insertByTime [] l.

(** [sort] works in place: the store keeps the sorted order. *)
Definition getMeasurements (s : Store) : Reply * Store :=
  let sorted := sortNewestFirst (measurements s) in
  (Listing sorted,
   {| measurements := sorted; measurementId := measurementId s |}).

(** [m => m.id === parseInt(req.params.id)]. *)
Definition matches (param : option Z) (m : Stored) : bool :=
  match param, idOf m with
  | Some i, IntegerId j => (j =? i)%Z
  | _, _ => false
  end.

Definition getMeasurement (param : option Z) (s : Store) : Reply * Store :=
  match find (matches param) (measurements s) with
  | Some m => (Found m, s)
  | None => (NotFound, s)
  end.

(** [findIndex]; [None] is [-1]. *)
Fixpoint findIndex {A : Type} (p : A -> bool) (l : list A) : option nat :=
  match l with
  | [] => None
  | x :: t => if p x then Some 0%nat else option_map S (findIndex p t)
  end.

(** [l.splice(index, 1)]. *)
Definition splice1 {A : Type} (index : nat) (l : list A) : list A :=
  firstn index l ++ skipn (S index) l.

Definition deleteMeasurement (param : option Z) (s : Store) : Reply * Store :=
  match findIndex (matches param) (measurements s) with
  | None => (NotFound, s)
  | Some index =>
      (Deleted,
       {| measurements := splice1 index (measurements s);
          measurementId := measurementId s |})
  end.

Definition getStats (s : Store) : Reply * Store :=
  (Statistics (stats (map measurement (measurements s))), s).

Definition handle (r : Request) (s : Store) : Reply * Store :=
  match r with
  | PostMeasurement body now => postMeasurement body now s
  | GetMeasurements => getMeasurements s
  | GetMeasurement param => getMeasurement param s
  | DeleteMeasurement param => deleteMeasurement param s
  | GetStats => getStats s
  end.

(** The store after a sequence of requests. *)
Definition run (requests : list Request) (s : Store) : Store :=
  fold_left (fun st r => snd (handle r st)) requests s.

(** The identifiers in the store, in its order. *)
Definition ids (s : Store) : list IdValue := map idOf (measurements s).

Definition isPost (r : Request) : bool :=
  match r with PostMeasurement _ _ => true | _ => false end.

(** The request is not a [POST] whose body has an [id] key. *)
Definition carriesNoId (r : Request) : bool :=
  match r with
  | PostMeasurement body _ =>
      match bodyId body with Some _ => false | None => true end
  | _ => true
  end.

Definition posts (requests : list Request) : nat :=
  length (filter isPost requests).

(** Identifiers are pairwise distinct integers, positive and below the
    counter. *)
Definition wellNumbered (s : Store) : Prop :=
  NoDup (ids s)
  /\ (1 <= measurementId s)%Z
  /\ forall v, In v (ids s) ->
                exists i, v = IntegerId i /\ (1 <= i < measurementId s)%Z.

(** The sum of the numerals of the stored areas, in hundredths. *)
Definition areaUnits (l : list Measurement) : Z :=
  fold_right (fun m acc =>
                (match areaSquareMeters m with
                 | Some a => units a
                 | None => 0
                 end + acc)%Z) 0%Z l.

End Api.

(* ================================================================== *)
(** ** What a recording session maintains *)
(* ================================================================== *)

Module Invariant.
Import JS Tracker.

(** The last entry of a sequence, if any. *)
Definition lastOf (l : list Point) : option Point :=
  match l with
  | [] => None
  | a :: _ => Some (last l a)
  end.

(** Every point was measured within the accuracy threshold. *)
Definition accurate (l : list Point) : Prop :=
  forall p, In p l -> accuracy p <= ACCURACY_THRESHOLD.

(** Consecutive points are at least the minimum distance apart. *)
Definition wellSpaced (l : list Point) : Prop :=
  forall e, In e (Spec.consecutive l) ->
            pointDistance (fst e) (snd e) >= MIN_DISTANCE_THRESHOLD.

(** The state of a session while it records. *)
Definition recording (st : State) : Prop :=
  accurate (coordinates st)
  /\ wellSpaced (coordinates st)
  /\ lastRecordedPoint st = lastOf (coordinates st)
  /\ (length (coordinates st) <= MAX_COORDINATES)%nat
  /\ currentDistance st = cumulativeDistance st
  /\ Spec.perimeter (coordinates st) <= cumulativeDistance st.

End Invariant.

(* ================================================================== *)
(** ** Constructions on recorded points *)
(* ================================================================== *)

Module Samples.
Import JS Tracker.

(** The session of two fixes, of accuracy 3 m and 12 m, on the mounted
    component: start, then each fix followed by the end of a recording
    period, then stop. *)
Definition twoFixInputs : list Mounted.Input :=
  [Mounted.ClickStart;
   Mounted.SourceDelivers (Coords.mk 0 0 3); Mounted.PeriodElapses 2000;
   Mounted.SourceDelivers (Coords.mk 0 1 12); Mounted.PeriodElapses 4000;
   Mounted.ClickStop].

(** Three ticks of the steady walk along the equator. *)
Definition shortWalk : list Session.Event := Examples.walkFrom 0 3.

(** The same point moved east by [delta] degrees of longitude. *)
Definition shiftLng (delta : R) (p : Point) : Point :=
  mkPoint (lat p) (lng p + delta) (timestamp p) (accuracy p).

(** A body with an area of 100.00 square metres and no [id] key. *)
Definition plainBody : Api.Body :=
  Api.mkBody None (Some (mkFixed 2 10000)) (Some 4) (Some 1)
             (Some (mkFixed 1 50)).

(** The store after that body has been posted to a freshly started
    server. *)
Definition oneStored : Api.Store :=
  snd (Api.handle (Api.PostMeasurement plainBody 5) Api.initialStore).

(** A stored measurement that reports -3 recorded points and 1 skipped
    point. *)
Definition negativeCount : Server.Measurement :=
  Server.mkMeasurement (Server.IntegerId 1) None (Some (-3)) (Some 1) None.

(** A stored measurement of 100.00 square metres, 4 points recorded and
    1 skipped. *)
Definition storedSample : Server.Measurement :=
  Server.mkMeasurement (Server.IntegerId 1) (Some (mkFixed 2 10000)) (Some 4)
                       (Some 1) (Some (mkFixed 1 50)).

(** Two posts around a deletion. *)
Definition postDeletePost : list Api.Request :=
  [Api.PostMeasurement plainBody 5; Api.DeleteMeasurement (Some 1%Z);
   Api.PostMeasurement plainBody 7].

(** Two coordinates on the equator, one degree apart. *)
Definition twoCorners : list MapView.Coord := [(0, 0); (0, 1)].

End Samples.

(* ================================================================== *)
(** ** Loops and sums *)
(* ================================================================== *)

Import JS Tracker Session Examples.

Section Loops.
Context {A : Type}.
Variable d : A.
Variable f : A -> A -> R.

Lemma reduce_sum_from (g : A -> R) (l : list A) (a0 : R) :
  fold_left (fun sum v => sum + g v) l a0 = a0 + Spec.sumR (map g l).
Proof.
  revert a0; induction l as [|v l IH]; intro a0; simpl.
  - lra.
  - rewrite IH. lra.
Qed.

Lemma reduce_sum_sumR (g : A -> R) (l : list A) :
  reduce_sum g l = Spec.sumR (map g l).
Proof. unfold reduce_sum. rewrite reduce_sum_from. lra. Qed.

(** Shifting the index of an indexed loop body by one. *)
Lemma fold_seq_shift (body : nat -> R -> R) (k n : nat) (a0 : R) :
  fold_left (fun acc i => body i acc) (seq (S k) n) a0 =
  fold_left (fun acc i => body (S i) acc) (seq k n) a0.
Proof.
  rewrite <- seq_shift.
  revert a0; induction (seq k n) as [|i is_ IH]; intro a0; simpl.
  - reflexivity.
  - apply IH.
Qed.

(** The loop over [i < length - 1] that reads [l[i]] and [l[i+1]] visits
    exactly the consecutive pairs, in order. *)
Lemma pair_loop_from (l : list A) (a0 : R) :
  fold_left (fun acc i => acc + f (nth i l d) (nth (i + 1) l d))
            (seq 0 (length l - 1)) a0 =
  a0 + Spec.sumR (map (fun e => f (fst e) (snd e)) (Spec.consecutive l)).
Proof.
  revert a0; induction l as [|a t IH]; intro a0.
  - simpl. lra.
  - destruct t as [|b t'].
    + simpl. lra.
    + replace (length (a :: b :: t') - 1)%nat with (S (length (b :: t') - 1))
        by (simpl; lia).
      cbn [seq fold_left].
      rewrite (fold_seq_shift
                 (fun i acc => acc + f (nth i (a :: b :: t') d)
                                       (nth (i + 1) (a :: b :: t') d))).
      cbn [nth Nat.add].
      rewrite IH.
      cbn [Spec.consecutive map Spec.sumR fold_right fst snd]. lra.
Qed.

Lemma pair_loop (l : list A) :
  for_range (length l - 1)
    (fun i acc => acc + f (nth i l d) (nth (i + 1) l d)) 0 =
  Spec.sumR (map (fun e => f (fst e) (snd e)) (Spec.consecutive l)).
Proof. unfold for_range. rewrite pair_loop_from. lra. Qed.

Lemma consecutive_length (l : list A) :
  length (Spec.consecutive l) = (length l - 1)%nat.
Proof.
  induction l as [|a t IH]; [reflexivity|].
  destruct t as [|b t']; [reflexivity|].
  cbn [Spec.consecutive length] in *. lia.
Qed.

Lemma consecutive_snoc (l : list A) (a b : A) :
  Spec.consecutive ((l ++ [a]) ++ [b]) = Spec.consecutive (l ++ [a]) ++ [(a, b)].
Proof.
  induction l as [|c t IH]; [reflexivity|].
  destruct t as [|c' t'].
  - reflexivity.
  - change (((c :: c' :: t') ++ [a]) ++ [b])
      with (c :: ((c' :: t') ++ [a]) ++ [b]).
    change ((c :: c' :: t') ++ [a]) with (c :: ((c' :: t') ++ [a])).
    cbn [Spec.consecutive app] in *. 
    rewrite IH. reflexivity.
Qed.

End Loops.

Lemma sumR_app (l1 l2 : list R) :
  Spec.sumR (l1 ++ l2) = Spec.sumR l1 + Spec.sumR l2.
Proof.
  induction l1 as [|a l1 IH]; simpl; [lra|]. rewrite IH. lra.
Qed.

Lemma pathSum_ext {A : Type} (f g : A -> A -> R) (l : list A) :
  (forall a b, f a b = g a b) -> Spec.pathSum f l = Spec.pathSum g l.
Proof.
  intro H. unfold Spec.pathSum. f_equal. apply map_ext. intro e. apply H.
Qed.

(* ================================================================== *)
(** ** The haversine formula *)
(* ================================================================== *)

Lemma Math_atan2_pos (y x : R) : x > 0 -> Math_atan2 y x = atan (y / x).
Proof. intro H. unfold Math_atan2. destruct (Rgt_dec x 0); [reflexivity|lra]. Qed.

Lemma toRadians_radians (degrees : R) : toRadians degrees = Spec.radians degrees.
Proof. unfold toRadians, Spec.radians. lra. Qed.

(** The square of the sine of a half angle. *)
Lemma sin_half_sqr (t : R) : sin (t / 2) * sin (t / 2) = (1 - cos t) / 2.
Proof.
  replace t with (2 * (t / 2)) at 3 by lra.
  rewrite cos_2a_sin. lra.
Qed.

(** The cosine of the angle between two directions lies in [[-1, 1]]. *)
Lemma product_bound (su cu sv cv w : R) :
  su * su + cu * cu = 1 -> sv * sv + cv * cv = 1 -> -1 <= w <= 1 ->
  -1 <= su * sv + cu * cv * w <= 1.
Proof.
  intros Hu Hv Hw.
  pose proof (Rle_0_sqr (su - sv)) as H1. pose proof (Rle_0_sqr (su + sv)) as H2.
  pose proof (Rle_0_sqr (cu - cv)) as H3. pose proof (Rle_0_sqr (cu + cv)) as H4.
  unfold Rsqr in H1, H2, H3, H4.
  destruct (Rle_dec 0 (cu * cv)) as [Hp|Hn].
  - assert (- (cu * cv) <= cu * cv * w <= cu * cv) by nra. lra.
  - assert (cu * cv <= cu * cv * w <= - (cu * cv)) by nra. lra.
Qed.

(** The number whose square roots [haversineDistance] takes lies in
    [[0, 1]], whatever the coordinates: neither square root is taken of a
    negative number. *)
Lemma haversine_term (u v l : R) :
  0 <= sin ((v - u) / 2) * sin ((v - u) / 2)
       + cos u * cos v * sin (l / 2) * sin (l / 2) <= 1.
Proof.
  rewrite sin_half_sqr.
  replace (cos u * cos v * sin (l / 2) * sin (l / 2))
    with (cos u * cos v * (sin (l / 2) * sin (l / 2))) by ring.
  rewrite sin_half_sqr, cos_minus.
  pose proof (COS_bound l) as Hl.
  pose proof (sin2_cos2 u) as Hu. pose proof (sin2_cos2 v) as Hv.
  unfold Rsqr in Hu, Hv.
  pose proof (product_bound (sin u) (cos u) (sin v) (cos v) (cos l) Hu Hv Hl).
  lra.
Qed.

(** [atan2 (sqrt a) (sqrt (1 - a))] is the arc sine of [sqrt a]. *)
Lemma atan2_sqrt_asin (a : R) :
  0 <= a <= 1 -> Math_atan2 (sqrt a) (sqrt (1 - a)) = asin (sqrt a).
Proof.
  intros [H0 H1].
  destruct (Req_dec a 1) as [->|Hne].
  - replace (1 - 1) with 0 by lra. rewrite sqrt_0, sqrt_1, asin_1.
    unfold Math_atan2.
    destruct (Rgt_dec 0 0); [lra|]. destruct (Rlt_dec 0 0); [lra|].
    destruct (Rgt_dec 1 0); [reflexivity|lra].
  - assert (Hx : 0 < sqrt (1 - a)) by (apply sqrt_lt_R0; lra).
    rewrite Math_atan2_pos by lra.
    assert (Hs : 0 <= sqrt a < 1).
    { split; [apply sqrt_pos|].
      assert (Hlt : sqrt a < sqrt 1) by (apply sqrt_lt_1; lra).
      rewrite sqrt_1 in Hlt. exact Hlt. }
    rewrite asin_atan by lra.
    rewrite Rsqr_sqrt by lra. reflexivity.
Qed.

(** [haversineDistance] computes the haversine formula on the sphere of
    radius 6371000 m. *)
Lemma haversineDistance_formula (lat1 lng1 lat2 lng2 : R) :
  haversineDistance lat1 lng1 lat2 lng2 = Spec.haversine 6371000 lat1 lng1 lat2 lng2.
Proof.
  unfold haversineDistance, Spec.haversine, Spec.hav, EARTH_RADIUS.
  rewrite <- !toRadians_radians.
  replace (toRadians lat2 - toRadians lat1) with (toRadians (lat2 - lat1))
    by (unfold toRadians; lra).
  replace (toRadians lng2 - toRadians lng1) with (toRadians (lng2 - lng1))
    by (unfold toRadians; lra).
  set (dLat := toRadians (lat2 - lat1)). set (dLng := toRadians (lng2 - lng1)).
  set (a := sin (dLat / 2) * sin (dLat / 2)
            + cos (toRadians lat1) * cos (toRadians lat2)
              * sin (dLng / 2) * sin (dLng / 2)).
  assert (Ha : 0 <= a <= 1).
  { unfold a, dLat.
    replace (toRadians (lat2 - lat1)) with (toRadians lat2 - toRadians lat1)
      by (unfold toRadians; lra).
    apply haversine_term. }
  replace (sin (dLat / 2) ^ 2
           + cos (toRadians lat1) * cos (toRadians lat2) * sin (dLng / 2) ^ 2)
    with a by (unfold a; ring).
  rewrite atan2_sqrt_asin by exact Ha. ring.
Qed.

(** The verdict of FixFilter, with the distance as [haversineDistance]
    computes it. *)
Lemma fixFilter_code (cfg : Spec.Config) (fix_ : Coords.t) (prior : option Point) :
  Spec.fixFilter cfg fix_ prior =
  if Rgt_dec (Coords.accuracy fix_) (Spec.accuracyThresholdMeters cfg)
  then Spec.RejectLowAccuracy
  else
    match prior with
    | Some p =>
        if Rlt_dec (haversineDistance (lat p) (lng p)
                      (Coords.latitude fix_) (Coords.longitude fix_))
                   (Spec.minDistanceThresholdMeters cfg)
        then Spec.RejectJitter
        else Spec.Accept
    | None => Spec.Accept
    end.
Proof.
  unfold Spec.fixFilter.
  destruct prior; [rewrite <- haversineDistance_formula|]; reflexivity.
Qed.

Lemma pointDistance_geodesic (p q : Point) :
  pointDistance p q = Spec.geodesic p q.
Proof. unfold pointDistance, Spec.geodesic. apply haversineDistance_formula. Qed.

Lemma perimeter_geodesic (l : list Point) :
  Spec.perimeter l = Spec.pathSum Spec.geodesic l.
Proof. unfold Spec.perimeter. apply pathSum_ext. apply pointDistance_geodesic. Qed.

(* ================================================================== *)
(** ** Perimeter *)
(* ================================================================== *)

Lemma calculatePerimeter_sum (closedCoords : list Point) :
  calculatePerimeter closedCoords = Spec.perimeter closedCoords.
Proof.
  unfold calculatePerimeter, Spec.perimeter, Spec.pathSum.
  destruct (Nat.ltb_spec (length closedCoords) 2) as [Hlt|Hge].
  - destruct closedCoords as [|a [|b t]]; simpl in *; try reflexivity; lia.
  - unfold at_point.
    apply (pair_loop point0 pointDistance closedCoords).
Qed.

Lemma perimeter_snoc (l : list Point) (a b : Point) :
  Spec.perimeter ((l ++ [a]) ++ [b]) =
  Spec.perimeter (l ++ [a]) + pointDistance a b.
Proof.
  unfold Spec.perimeter, Spec.pathSum.
  rewrite consecutive_snoc, map_app, sumR_app. simpl. lra.
Qed.

Lemma at_point_last (l : list Point) (a : Point) :
  at_point (l ++ [a]) (length (l ++ [a]) - 1) = a.
Proof.
  unfold at_point. rewrite length_app. simpl.
  replace (length l + 1 - 1)%nat with (length l) by lia.
  rewrite app_nth2 by lia. rewrite Nat.sub_diag. reflexivity.
Qed.

Lemma snoc_cases {A : Type} (l : list A) :
  l = [] \/ exists l' a, l = l' ++ [a].
Proof.
  destruct l as [|a l]; [now left|right].
  destruct (@exists_last _ (a :: l)) as [l' [b Hl]]; [discriminate|]. eauto.
Qed.

(** C4.  The perimeter computed for a polygon of N points is the sum of
    the geodesic (haversine) distances, on the sphere of radius
    6371000 m, over its consecutive pairs, which are exactly N-1 edges,
    and the result reports it, rendered with two decimals, for the closed
    polygon.  For recorded points that [createClosedPolygon] closes by
    appending the first point, the closing edge (last recorded point to
    first point) is therefore counted exactly once; when nothing is
    appended no further edge is added. *)
Theorem calculatePerimeter_consecutive_edges (closedCoords : list Point) :
  calculatePerimeter closedCoords =
    Spec.sumR (map (fun e => Spec.geodesic (fst e) (snd e))
                   (Spec.consecutive closedCoords))
  /\ length (Spec.consecutive closedCoords) = (length closedCoords - 1)%nat
  /\ (forall proj4 st,
        option_map distance
          (results (calculateResultsWithCoordinates proj4 closedCoords st))
        = Some (toFixed 2 (Spec.pathSum Spec.geodesic
                             (createClosedPolygon closedCoords))))
  /\ calculatePerimeter (createClosedPolygon closedCoords) =
       Spec.pathSum Spec.geodesic closedCoords +
       (if (3 <=? length closedCoords)%nat &&
           gtb (Spec.geodesic (at_point closedCoords 0)
                  (at_point closedCoords (length closedCoords - 1)))
               5
        then Spec.geodesic (at_point closedCoords (length closedCoords - 1))
                           (at_point closedCoords 0)
        else 0).
Proof.
  split; [rewrite calculatePerimeter_sum; apply perimeter_geodesic|].
  split; [apply consecutive_length|].
  split.
  { intros proj4 st. unfold calculateResultsWithCoordinates.
    cbn [results set_measurements set_results option_map distance].
    rewrite calculatePerimeter_sum, perimeter_geodesic. reflexivity. }
  rewrite calculatePerimeter_sum, <- perimeter_geodesic, <- !pointDistance_geodesic.
  change 5 with POLYGON_CLOSURE_THRESHOLD.
  unfold createClosedPolygon, pointDistance.
  destruct (Nat.ltb_spec (length closedCoords) 3) as [Hlt|Hge].
  - replace (3 <=? length closedCoords)%nat with false
      by (symmetry; apply Nat.leb_gt; lia).
    simpl. lra.
  - replace (3 <=? length closedCoords)%nat with true
      by (symmetry; apply Nat.leb_le; lia).
    cbn [andb].
    destruct (gtb _ POLYGON_CLOSURE_THRESHOLD); [|lra].
    destruct (snoc_cases closedCoords) as [->|[l' [a ->]]]; [simpl in Hge; lia|].
    rewrite perimeter_snoc, at_point_last. reflexivity.
Qed.

(* ================================================================== *)
(** ** Polygon closing *)
(* ================================================================== *)

Lemma gtb_true (a b : R) : gtb a b = true <-> a > b.
Proof. unfold gtb. destruct (Rgt_dec a b); split; intros; try easy. Qed.

Lemma gtb_false (a b : R) : gtb a b = false <-> a <= b.
Proof.
  unfold gtb. destruct (Rgt_dec a b); split; intros; try easy; lra.
Qed.

Lemma ltb_true (a b : R) : ltb a b = true <-> a < b.
Proof. unfold ltb. destruct (Rlt_dec a b); split; intros; try easy. Qed.

Lemma ltb_false (a b : R) : ltb a b = false <-> b <= a.
Proof.
  unfold ltb. destruct (Rlt_dec a b); split; intros; try easy; lra.
Qed.

Lemma at_point_0 (l : list Point) : at_point l 0 = hd point0 l.
Proof. destruct l; reflexivity. Qed.

Lemma at_point_end (l : list Point) :
  at_point l (length l - 1) = last l point0.
Proof.
  destruct (snoc_cases l) as [->|[l' [a ->]]]; [reflexivity|].
  rewrite at_point_last, last_last. reflexivity.
Qed.

Lemma snoc_neq {A : Type} (l : list A) (a : A) : l ++ [a] <> l.
Proof.
  intro H. apply (f_equal (@length A)) in H.
  rewrite length_app in H. simpl in H. lia.
Qed.

Lemma createClosedPolygon_gap (coords : list Point) :
  (3 <= length coords)%nat ->
  createClosedPolygon coords =
  if gtb (Spec.geodesic (hd point0 coords) (last coords point0)) 5
  then coords ++ [hd point0 coords] else coords.
Proof.
  intro Hlen. unfold createClosedPolygon.
  destruct (Nat.ltb_spec (length coords) 3) as [Hlt|_]; [lia|].
  rewrite at_point_0, at_point_end.
  rewrite <- pointDistance_geodesic. reflexivity.
Qed.

(** C2.  For a sequence of at least 3 recorded points, the first point is
    appended exactly when the geodesic (haversine) distance between the
    first and the last point exceeds the closure threshold of 5 m;
    otherwise the sequence is returned unchanged.  Either way the result
    starts at the original first point, and its first and last entries
    are identical or within the closure tolerance. *)
Theorem createClosedPolygon_closes (coords : list Point) :
  (3 <= length coords)%nat ->
  let firstPoint := hd point0 coords in
  let lastPoint := last coords point0 in
  let closed := createClosedPolygon coords in
  (closed = coords ++ [firstPoint] <->
     Spec.geodesic firstPoint lastPoint > 5)
  /\ (closed = coords <->
        Spec.geodesic firstPoint lastPoint <= 5)
  /\ hd point0 closed = firstPoint
  /\ (last closed point0 = hd point0 closed \/
      Spec.geodesic (hd point0 closed) (last closed point0) <= 5).
Proof.
  intros Hlen firstPoint lastPoint closed.
  assert (Hc : closed =
               if gtb (Spec.geodesic firstPoint lastPoint) 5
               then coords ++ [firstPoint] else coords)
    by (apply createClosedPolygon_gap; exact Hlen).
  destruct (gtb (Spec.geodesic firstPoint lastPoint) 5) eqn:Hgap; rewrite Hc.
  - apply gtb_true in Hgap.
    repeat split; intros; try lra; try reflexivity.
    + exfalso. eapply snoc_neq; eauto.
    + destruct coords; [simpl in Hlen; lia| reflexivity].
    + left. rewrite last_last.
      destruct coords; [simpl in Hlen; lia| reflexivity].
  - apply gtb_false in Hgap.
    repeat split; intros; try lra; try reflexivity.
    + exfalso. eapply snoc_neq; eauto.
    + right. exact Hgap.
Qed.

(* ================================================================== *)
(** ** Fix filtering *)
(* ================================================================== *)

Lemma MAX_COORDINATES_pos : (0 < MAX_COORDINATES)%nat.
Proof. unfold MAX_COORDINATES. lia. Qed.

Lemma retained_eq (before : list Point) (p : Point) :
  (if (MAX_COORDINATES <? length (before ++ [p]))%nat
   then skipn (length (before ++ [p]) - MAX_COORDINATES) (before ++ [p])
   else before ++ [p]) = retained before p.
Proof.
  unfold retained.
  destruct (Nat.ltb_spec MAX_COORDINATES (length (before ++ [p]))) as [H|H].
  - reflexivity.
  - replace (length (before ++ [p]) - MAX_COORDINATES)%nat with 0%nat by lia.
    reflexivity.
Qed.

Lemma retained_small (before : list Point) (p : Point) :
  (length before < MAX_COORDINATES)%nat -> retained before p = before ++ [p].
Proof.
  intro H. unfold retained. rewrite length_app. simpl.
  replace (length before + 1 - MAX_COORDINATES)%nat with 0%nat by lia.
  reflexivity.
Qed.

Lemma retained_length (before : list Point) (p : Point) :
  length (retained before p) = Nat.min (length before + 1) MAX_COORDINATES.
Proof.
  unfold retained. rewrite length_skipn, length_app. simpl.
  pose proof MAX_COORDINATES_pos. lia.
Qed.

Lemma retained_last (before : list Point) (p : Point) :
  last (retained before p) point0 = p.
Proof.
  unfold retained. rewrite length_app. simpl.
  pose proof MAX_COORDINATES_pos as Hpos.
  rewrite skipn_app.
  replace (length before + 1 - MAX_COORDINATES - length before)%nat with 0%nat by lia.
  simpl. apply last_last.
Qed.

Lemma recordGPSPoint_verdict (now : Z) (fix_ : Coords.t) (st : State) :
  match Spec.fixFilter Spec.config fix_ (lastRecordedPoint st) with
  | Spec.Accept => acceptedInto now fix_ st (recordGPSPoint now fix_ st)
  | Spec.RejectLowAccuracy | Spec.RejectJitter =>
      rejectedFrom st (recordGPSPoint now fix_ st)
  end.
Proof.
  rewrite fixFilter_code.
  unfold recordGPSPoint, rejectedFrom, acceptedInto, gtb, ltb.
  cbn [Spec.config Spec.accuracyThresholdMeters Spec.minDistanceThresholdMeters].
  destruct (Rgt_dec (Coords.accuracy fix_) ACCURACY_THRESHOLD); [reflexivity|].
  destruct (lastRecordedPoint st) as [p|] eqn:Hlast.
  - cbn [lat lng].
    destruct (Rlt_dec _ MIN_DISTANCE_THRESHOLD); [reflexivity|].
    cbn [set_lastRecordedPoint set_coordinates set_currentDistance
         set_cumulativeDistance coordinates lastRecordedPoint
         skippedPointsCount].
    rewrite retained_eq. fold (pointOf now fix_).
    repeat split. apply retained_last.
  - cbn [set_lastRecordedPoint set_coordinates coordinates lastRecordedPoint
         skippedPointsCount].
    rewrite retained_eq. fold (pointOf now fix_).
    repeat split. apply retained_last.
Qed.



(* ================================================================== *)
(** ** Haversine distance along the equator *)
(* ================================================================== *)

(** Two points on the equator less than half a turn apart are separated
    by the arc of their longitude difference. *)
Lemma haversine_equator (lng1 lng2 : R) :
  0 < lng2 - lng1 < 180 ->
  haversineDistance 0 lng1 0 lng2 = EARTH_RADIUS * toRadians (lng2 - lng1).
Proof.
  intros [Hlo Hhi].
  unfold haversineDistance.
  set (h := toRadians (lng2 - lng1) / 2).
  assert (Hh : 0 < h < PI / 2).
  { unfold h, toRadians. pose proof PI_RGT_0. split; nra. }
  replace (toRadians (0 - 0) / 2) with 0 by (unfold toRadians; lra).
  replace (toRadians 0) with 0 by (unfold toRadians; lra).
  rewrite sin_0, cos_0.
  assert (Hsin : 0 < sin h) by (apply sin_gt_0; lra).
  assert (Hcos : 0 < cos h) by (apply cos_gt_0; lra).
  replace (0 * 0 + 1 * 1 * sin h * sin h) with ((sin h)²) by (unfold Rsqr; lra).
  rewrite sqrt_Rsqr by lra.
  rewrite <- (cos2 h), sqrt_Rsqr by lra.
  rewrite Math_atan2_pos by lra.
  fold (tan h). rewrite atan_tan by lra.
  unfold h. lra.
Qed.

Lemma walk_step_far (l : R) :
  haversineDistance 0 l 0 (l + 0.00003) >= MIN_DISTANCE_THRESHOLD.
Proof.
  rewrite haversine_equator by lra.
  unfold EARTH_RADIUS, toRadians, MIN_DISTANCE_THRESHOLD.
  pose proof PI2_3_2. nra.
Qed.

(* ================================================================== *)
(** ** Session counters *)
(* ================================================================== *)

Lemma recordGPSPoint_currentPosition (now : Z) (fix_ : Coords.t) (st : State) :
  currentPosition (recordGPSPoint now fix_ st) = currentPosition st.
Proof.
  unfold recordGPSPoint.
  destruct (gtb _ ACCURACY_THRESHOLD); [reflexivity|].
  destruct (lastRecordedPoint st); [|reflexivity].
  destruct (ltb _ MIN_DISTANCE_THRESHOLD); reflexivity.
Qed.

Lemma acceptedCount_cons (v : Spec.Verdict) (vs : list Spec.Verdict) :
  acceptedCount (v :: vs) =
  ((if isAccept v then 1 else 0) + acceptedCount vs)%nat.
Proof. unfold acceptedCount. simpl. destruct (isAccept v); reflexivity. Qed.

Lemma rejectionCount_cons (v : Spec.Verdict) (vs : list Spec.Verdict) :
  rejectionCount (v :: vs) =
  ((if isAccept v then 0 else 1) + rejectionCount vs)%nat.
Proof. unfold rejectionCount. simpl. destruct (isAccept v); reflexivity. Qed.

(** Along any run of events the skip counter grows by the number of
    rejections and the retained sequence by the number of accepted fixes,
    up to the capacity. *)
Lemma runEvents_counts (events : list Event) :
  forall st : State,
  (length (coordinates st) <= MAX_COORDINATES)%nat ->
  let vs := verdicts Spec.config (currentPosition st) (lastRecordedPoint st) events in
  let st' := runEvents events st in
  skippedPointsCount st' = (skippedPointsCount st + rejectionCount vs)%nat
  /\ length (coordinates st') =
     Nat.min (length (coordinates st) + acceptedCount vs) MAX_COORDINATES.
Proof.
  induction events as [|e rest IH]; intros st Hcap.
  - cbv zeta. cbn [verdicts runEvents fold_left].
    unfold rejectionCount, acceptedCount. cbn [filter length]. split; lia.
  - destruct e as [position|now].
    + cbn [verdicts runEvents fold_left handle].
      specialize (IH (onPosition position st) Hcap). exact IH.
    + cbn [verdicts runEvents fold_left handle]. unfold onTick.
      destruct (currentPosition st) as [fix_|] eqn:Hcur.
      * pose proof (recordGPSPoint_verdict now fix_ st) as Hv.
        pose proof (recordGPSPoint_currentPosition now fix_ st) as Hcp.
        set (st1 := recordGPSPoint now fix_ st) in *.
        destruct (Spec.fixFilter Spec.config fix_ (lastRecordedPoint st)) eqn:Hf.
        -- destruct Hv as (Hc & _ & Hl & Hs).
           assert (Hcap1 : (length (coordinates st1) <= MAX_COORDINATES)%nat)
             by (rewrite Hc, retained_length; lia).
           specialize (IH st1 Hcap1). cbv zeta in IH.
           rewrite Hcp, Hcur, Hl in IH. fold (runEvents rest st1).
           destruct IH as [IHs IHc].
           rewrite IHs, IHc, Hs, Hc, retained_length.
           rewrite acceptedCount_cons, rejectionCount_cons. cbn [isAccept].
           split; lia.
        -- unfold rejectedFrom in Hv.
           assert (Hcap1 : (length (coordinates st1) <= MAX_COORDINATES)%nat)
             by (rewrite Hv; exact Hcap).
           specialize (IH st1 Hcap1). cbv zeta in IH.
           rewrite Hcp, Hcur in IH. fold (runEvents rest st1).
           replace (lastRecordedPoint st1) with (lastRecordedPoint st) in IH
             by (rewrite Hv; reflexivity).
           destruct IH as [IHs IHc].
           rewrite IHs, IHc.
           rewrite acceptedCount_cons, rejectionCount_cons. cbn [isAccept].
           rewrite Hv. cbn [skippedPointsCount coordinates set_skippedPointsCount].
           split; lia.
        -- unfold rejectedFrom in Hv.
           assert (Hcap1 : (length (coordinates st1) <= MAX_COORDINATES)%nat)
             by (rewrite Hv; exact Hcap).
           specialize (IH st1 Hcap1). cbv zeta in IH.
           rewrite Hcp, Hcur in IH. fold (runEvents rest st1).
           replace (lastRecordedPoint st1) with (lastRecordedPoint st) in IH
             by (rewrite Hv; reflexivity).
           destruct IH as [IHs IHc].
           rewrite IHs, IHc.
           rewrite acceptedCount_cons, rejectionCount_cons. cbn [isAccept].
           rewrite Hv. cbn [skippedPointsCount coordinates set_skippedPointsCount].
           split; lia.
      * specialize (IH st Hcap). cbv zeta in IH. rewrite Hcur in IH. exact IH.
Qed.

Lemma stopTracking_result (proj4 : UtmDef -> R * R -> option (R * R))
      (st : State) (r : Result) :
  results st = None ->
  results (stopTracking proj4 st) = Some r ->
  pointsRecorded r = length (coordinates st)
  /\ skippedPoints r = skippedPointsCount st.
Proof.
  intros Hnone. unfold stopTracking.
  set (st1 := (_ ;; _ ;; set_isTracking false) st).
  assert (H1 : results st1 = results st /\
               skippedPointsCount st1 = skippedPointsCount st).
  { unfold st1, then_, skip.
    destruct (watchId st) as [w|]; [destruct (w =? 0)%Z|];
      (destruct (intervalRef st) as [i|]; [destruct (i =? 0)%Z|]);
      split; reflexivity. }
  destruct H1 as [Hr Hs].
  destruct (length (coordinates st) <? 3)%nat.
  - cbn [results set_error]. rewrite Hr, Hnone. discriminate.
  - unfold calculateResultsWithCoordinates.
    cbn [results set_measurements set_results].
    intro H. injection H as <-. cbn [pointsRecorded skippedPoints].
    split; [reflexivity|exact Hs].
Qed.

Lemma runEvents_results (events : list Event) :
  forall st, results (runEvents events st) = results st.
Proof.
  induction events as [|e rest IH]; intro st; [reflexivity|].
  cbn [runEvents fold_left]. fold (runEvents rest (handle e st)).
  rewrite IH. destruct e as [p|now]; [reflexivity|].
  cbn [handle]. unfold onTick.
  destruct (currentPosition st) as [fix_|]; [|reflexivity].
  unfold recordGPSPoint.
  destruct (gtb _ ACCURACY_THRESHOLD); [reflexivity|].
  destruct (lastRecordedPoint st); [|reflexivity].
  destruct (ltb _ MIN_DISTANCE_THRESHOLD); reflexivity.
Qed.

Lemma stopTracking_produces (proj4 : UtmDef -> R * R -> option (R * R)) (st : State) :
  (3 <= length (coordinates st))%nat ->
  exists r,
    results (stopTracking proj4 st) = Some r
    /\ measurements (stopTracking proj4 st) = measurements st ++ [r]
    /\ pointsRecorded r = length (coordinates st)
    /\ skippedPoints r = skippedPointsCount st
    /\ areaSquareMeters r =
         toFixed 2 (calculateArea proj4 (createClosedPolygon (coordinates st))).
Proof.
  intro Hlen. unfold stopTracking.
  set (st1 := (_ ;; _ ;; set_isTracking false) st).
  assert (H1 : measurements st1 = measurements st /\
               skippedPointsCount st1 = skippedPointsCount st).
  { unfold st1, then_, skip.
    destruct (watchId st) as [w|]; [destruct (w =? 0)%Z|];
      (destruct (intervalRef st) as [i|]; [destruct (i =? 0)%Z|]);
      split; reflexivity. }
  destruct H1 as [Hm Hs].
  destruct (Nat.ltb_spec (length (coordinates st)) 3) as [Hlt|_]; [lia|].
  unfold calculateResultsWithCoordinates.
  cbn [results measurements set_measurements set_results].
  eexists. split; [reflexivity|].
  cbn [pointsRecorded skippedPoints areaSquareMeters].
  rewrite Hm, Hs. repeat split.
Qed.

Lemma session_start (st0 : State) :
  let st := startTracking true 1 1 st0 in
  coordinates st = [] /\ skippedPointsCount st = 0%nat
  /\ lastRecordedPoint st = None /\ currentPosition st = None
  /\ results st = None.
Proof. repeat split. Qed.

Lemma twoFixes_verdicts (p1 p2 : R * R) (t1 t2 : Z) :
  sessionVerdicts (twoFixes p1 p2 t1 t2) = [Spec.Accept; Spec.RejectLowAccuracy].
Proof.
  unfold sessionVerdicts, twoFixes. cbn [verdicts].
  rewrite !fixFilter_code.
  cbn [Spec.config Spec.accuracyThresholdMeters Coords.accuracy].
  unfold ACCURACY_THRESHOLD.
  destruct (Rgt_dec 3 10) as [H|_]; [lra|].
  destruct (Rgt_dec 12 10) as [_|H]; [reflexivity|lra].
Qed.

Lemma session_counters (events : list Event) (st0 : State) :
  skippedPointsCount (session events st0) = rejectionCount (sessionVerdicts events)
  /\ length (coordinates (session events st0)) =
     Nat.min (acceptedCount (sessionVerdicts events)) MAX_COORDINATES.
Proof.
  destruct (session_start st0) as (Hc & Hs & Hl & Hp & Hr).
  pose proof (runEvents_counts events (startTracking true 1 1 st0)) as Hrun.
  rewrite Hc, Hs, Hl, Hp in Hrun. cbv zeta in Hrun.
  specialize (Hrun (Nat.le_0_l _)).
  cbn [length Nat.add] in Hrun. exact Hrun.
Qed.

(** X24.  What the two callbacks count when they are called, one after
    the other, after [startTracking]: every rejection increments the skip counter by
    exactly one; after any sequence of calls the skip counter equals the
    number of rejections so far, and the number of recorded points equals
    the number of accepted fixes up to the capacity [MAX_COORDINATES] of
    the retained sequence; a result produced on stop reports these two
    numbers.  Two fixes with accuracy 3 m and 12 m, each followed by a
    call of the timer callback, yield one skipped and one recorded
    point. *)
Theorem session_counts (events : list Event) (st0 : State) :
  let st := session events st0 in
  let vs := sessionVerdicts events in
  skippedPointsCount st = rejectionCount vs
  /\ length (coordinates st) = Nat.min (acceptedCount vs) MAX_COORDINATES
  /\ (forall proj4 r,
        results (stopTracking proj4 st) = Some r ->
        skippedPoints r = rejectionCount vs
        /\ pointsRecorded r = Nat.min (acceptedCount vs) MAX_COORDINATES)
  /\ (forall now fix_ s,
        Spec.fixFilter Spec.config fix_ (lastRecordedPoint s) <> Spec.Accept ->
        skippedPointsCount (recordGPSPoint now fix_ s) = S (skippedPointsCount s))
  /\ (forall p1 p2 t1 t2,
        events = twoFixes p1 p2 t1 t2 ->
        skippedPointsCount st = 1%nat /\ length (coordinates st) = 1%nat).
Proof.
  intros st vs.
  destruct (session_start st0) as (_ & _ & _ & _ & Hr).
  destruct (session_counters events st0) as [Hskip Hlen].
  fold st in Hskip, Hlen. fold vs in Hskip, Hlen.
  split; [exact Hskip|]. split; [exact Hlen|]. split; [|split].
  - intros proj4 r Hres.
    apply stopTracking_result in Hres.
    + destruct Hres as [Hpr Hsk]. rewrite Hpr, Hsk. split; assumption.
    + unfold st, session. rewrite runEvents_results. exact Hr.
  - intros now fix_ s Hv.
    pose proof (recordGPSPoint_verdict now fix_ s) as H.
    destruct (Spec.fixFilter Spec.config fix_ (lastRecordedPoint s));
      [congruence| |]; rewrite H; cbn [skippedPointsCount set_skippedPointsCount]; lia.
  - intros p1 p2 t1 t2 He.
    rewrite Hskip, Hlen. unfold vs. rewrite He, twoFixes_verdicts.
    unfold rejectionCount, acceptedCount, MAX_COORDINATES.
    cbn [filter isAccept negb length]. split; lia.
Qed.

Lemma session_counts_witness :
  let st := session twoFixSession initialState in
  skippedPointsCount st = 1%nat /\ length (coordinates st) = 1%nat.
Proof.
  apply (session_counts twoFixSession initialState)
    with (p1 := (0, 0)) (p2 := (0, 1)) (t1 := 0%Z) (t2 := 2000%Z).
  reflexivity.
Defined.

(** The walk along the equator is accepted tick after tick. *)
Lemma walk_verdicts (n : nat) :
  forall (i : nat) (current : option Coords.t) (prior : option Point),
  match prior with
  | None => True
  | Some p => lat p = 0 /\ lng p + 0.00003 = INR i * 0.00003
  end ->
  verdicts Spec.config current prior (walkFrom i n) = repeat Spec.Accept n.
Proof.
  induction n as [|n IH]; intros i current prior Hprior; [reflexivity|].
  cbn [walkFrom verdicts repeat].
  assert (Hv : Spec.fixFilter Spec.config (walkFix i) prior = Spec.Accept).
  { rewrite fixFilter_code.
    cbn [Spec.config Spec.accuracyThresholdMeters Spec.minDistanceThresholdMeters
         walkFix Coords.accuracy Coords.latitude Coords.longitude].
    destruct (Rgt_dec 5 ACCURACY_THRESHOLD) as [H|_];
      [unfold ACCURACY_THRESHOLD in H; lra|].
    destruct prior as [p|]; [|reflexivity].
    destruct Hprior as [Hlat Hlng]. rewrite Hlat, <- Hlng.
    pose proof (walk_step_far (lng p)).
    destruct (Rlt_dec _ MIN_DISTANCE_THRESHOLD); [lra|reflexivity]. }
  rewrite Hv. f_equal.
  apply IH. cbn [pointOf lat lng walkFix Coords.latitude Coords.longitude].
  split; [reflexivity|]. rewrite S_INR. lra.
Qed.

Lemma acceptedCount_repeat (n : nat) :
  acceptedCount (repeat Spec.Accept n) = n.
Proof.
  unfold acceptedCount. induction n as [|n IH]; [reflexivity|].
  cbn [repeat filter isAccept length]. rewrite IH. reflexivity.
Qed.

(** After 10001 accepted fixes the result reports 10000 recorded
    points. *)
Lemma longWalk_pointsRecorded_capped :
  let st := session longWalk initialState in
  let accepted := acceptedCount (sessionVerdicts longWalk) in
  accepted = Z.to_nat 10001
  /\ exists r,
       results (stopTracking failingProj4 st) = Some r
       /\ pointsRecorded r = Z.to_nat 10000
       /\ pointsRecorded r <> accepted.
Proof.
  intros st accepted.
  assert (Hacc : accepted = Z.to_nat 10001).
  { unfold accepted, sessionVerdicts, longWalk.
    rewrite walk_verdicts by exact I. apply acceptedCount_repeat. }
  split; [exact Hacc|].
  destruct (session_counters longWalk initialState) as (_ & Hlen).
  fold st in Hlen. fold accepted in Hlen. rewrite Hacc in Hlen.
  unfold MAX_COORDINATES in Hlen.
  destruct (stopTracking_produces failingProj4 st) as (r & Hr & _ & Hp & _).
  { rewrite Hlen. lia. }
  exists r. split; [exact Hr|]. rewrite Hp, Hlen, Hacc. split; lia.
Qed.

(* ================================================================== *)
(** ** The mounted component never records *)
(* ================================================================== *)

Lemma sameValue_true (a b : option Z) : Mounted.sameValue a b = true <-> a = b.
Proof.
  destruct a as [m|], b as [n|]; cbn [Mounted.sameValue];
    try (split; [discriminate|congruence]); [|tauto].
  rewrite Z.eqb_eq. split; congruence.
Qed.

Lemma clear_none (v : option Z) : Mounted.clear v [] = [].
Proof. destruct v; reflexivity. Qed.

Lemma clear_only (n : Z) : Mounted.clear (Some n) [n] = [].
Proof.
  cbn [Mounted.clear remove]. destruct (Z.eq_dec n n); [reflexivity|congruence].
Qed.

(** A render changes no hook; after it the installed effect closes over
    the current [watchId]; and it serves no interval timer that was not
    served before. *)
Lemma rerender_hooks (c : Mounted.Component) :
  Mounted.hooks (Mounted.rerender c) = Mounted.hooks c
  /\ Mounted.effectWatchId (Mounted.rerender c) = watchId (Mounted.hooks c)
  /\ Mounted.nextWatch (Mounted.rerender c) = Mounted.nextWatch c
  /\ Mounted.nextInterval (Mounted.rerender c) = Mounted.nextInterval c
  /\ (Mounted.liveIntervals c = [] ->
      Mounted.liveIntervals (Mounted.rerender c) = []).
Proof.
  unfold Mounted.rerender.
  destruct (Mounted.sameValue (Mounted.effectWatchId c) (watchId (Mounted.hooks c)))
    eqn:Hsame.
  - apply sameValue_true in Hsame. repeat split; auto.
  - cbn. repeat split. intros ->. rewrite clear_none.
    destruct (Mounted.truthy _); reflexivity.
Qed.

(** The render that follows [startTracking] clears the interval timer
    that [startTracking] has just created. *)
Lemma start_clears_interval (c : Mounted.Component) :
  Mounted.settled c ->
  Mounted.liveIntervals
    (Mounted.rerender
       {| Mounted.hooks :=
            startTracking true (Mounted.nextWatch c) (Mounted.nextInterval c)
                          (Mounted.hooks c);
          Mounted.effectWatchId := Mounted.effectWatchId c;
          Mounted.liveWatches := Mounted.nextWatch c :: Mounted.liveWatches c;
          Mounted.liveIntervals :=
            Mounted.nextInterval c :: Mounted.liveIntervals c;
          Mounted.nextWatch := (Mounted.nextWatch c + 1)%Z;
          Mounted.nextInterval := (Mounted.nextInterval c + 1)%Z |}) = [].
Proof.
  intros (Hlive & Heff & Hfresh & Hw & Hi & _).
  unfold Mounted.rerender.
  cbn [Mounted.hooks Mounted.effectWatchId Mounted.liveIntervals].
  replace (watchId (startTracking true (Mounted.nextWatch c)
                      (Mounted.nextInterval c) (Mounted.hooks c)))
    with (Some (Mounted.nextWatch c)) by reflexivity.
  assert (Hchanged : Mounted.sameValue (Mounted.effectWatchId c)
                       (Some (Mounted.nextWatch c)) = false).
  { destruct (Mounted.sameValue _ _) eqn:Hs; [|reflexivity].
    apply sameValue_true in Hs. rewrite Heff in Hs.
    apply Hfresh in Hs. lia. }
  rewrite Hchanged.
  cbn [Mounted.liveIntervals Mounted.cleanup Mounted.hooks].
  replace (intervalRef (startTracking true (Mounted.nextWatch c)
                          (Mounted.nextInterval c) (Mounted.hooks c)))
    with (Some (Mounted.nextInterval c)) by reflexivity.
  rewrite Hlive. cbn [Mounted.truthy].
  replace (Mounted.nextInterval c =? 0)%Z with false
    by (symmetry; apply Z.eqb_neq; lia).
  cbn [negb]. apply clear_only.
Qed.

Lemma stopTracking_empty (proj4 : UtmDef -> R * R -> option (R * R)) (st : State) :
  coordinates st = [] ->
  coordinates (stopTracking proj4 st) = []
  /\ skippedPointsCount (stopTracking proj4 st) = skippedPointsCount st
  /\ results (stopTracking proj4 st) = results st
  /\ measurements (stopTracking proj4 st) = measurements st
  /\ error (stopTracking proj4 st) = InsufficientPoints
  /\ (forall w, watchId (stopTracking proj4 st) = Some w -> w = 0%Z).
Proof.
  intro Hc. unfold stopTracking. rewrite Hc. cbn [length Nat.ltb Nat.leb].
  unfold then_, skip.
  destruct (watchId st) as [w|] eqn:Hw; destruct (intervalRef st) as [i|];
    try destruct (Z.eqb_spec w 0); try destruct (i =? 0)%Z;
    cbn; rewrite ?Hc, ?Hw; repeat split; try congruence; intros ? [=]; congruence.
Qed.

Lemma step_settled (proj4 : UtmDef -> R * R -> option (R * R))
      (geolocation : bool) (i : Mounted.Input) (c : Mounted.Component) :
  Mounted.settled c -> Mounted.settled (Mounted.step proj4 geolocation i c).
Proof.
  intro Hc. pose proof Hc as (Hlive & Heff & Hfresh & Hw & Hi & Hco & Hsk & Hre & Hme).
  unfold Mounted.step.
  assert (Hkeep : forall st,
            watchId st = watchId (Mounted.hooks c) ->
            coordinates st = [] -> skippedPointsCount st = 0%nat ->
            results st = None -> measurements st = [] ->
            Mounted.settled (Mounted.rerender (Mounted.withHooks st c))).
  { intros st Hwid H1 H2 H3 H4.
    destruct (rerender_hooks (Mounted.withHooks st c)) as (Hh & He & Hnw & Hni & Hl).
    unfold Mounted.settled. rewrite Hh, He, Hnw, Hni.
    cbn [Mounted.withHooks Mounted.hooks Mounted.nextWatch Mounted.nextInterval].
    split; [apply Hl; exact Hlive|]. split; [reflexivity|].
    split; [rewrite Hwid; exact Hfresh|]. auto 10. }
  destruct i as [| | | | | |position|code|now]; cbn [Mounted.react].
  - unfold Mounted.clickStart. destruct geolocation.
    + pose proof (start_clears_interval c Hc) as Hcleared.
      match goal with
      | |- Mounted.settled (Mounted.rerender ?c1) =>
          destruct (rerender_hooks c1) as (Hh & He & Hnw & Hni & _);
          unfold Mounted.settled; rewrite Hh, He, Hnw, Hni, Hcleared
      end.
      cbn [Mounted.hooks Mounted.nextWatch Mounted.nextInterval].
      split; [reflexivity|]. split; [reflexivity|].
      split; [intros w [= <-]; lia|].
      split; [lia|]. split; [lia|].
      repeat split; assumption.
    + apply Hkeep; cbn; auto.
  - unfold Mounted.clickStop.
    destruct (stopTracking_empty proj4 (Mounted.hooks c) Hco)
      as (S1 & S2 & S3 & S4 & _ & S6).
    match goal with
    | |- Mounted.settled (Mounted.rerender ?c1) =>
        destruct (rerender_hooks c1) as (Hh & He & Hnw & Hni & Hl);
        unfold Mounted.settled; rewrite Hh, He, Hnw, Hni
    end.
    cbn [Mounted.hooks Mounted.nextWatch Mounted.nextInterval
         Mounted.liveIntervals] in *.
    split.
    { apply Hl. rewrite Hlive, clear_none.
      destruct (Mounted.truthy (intervalRef (Mounted.hooks c))); reflexivity. }
    split; [reflexivity|].
    split.
    { intros w Hwid. pose proof (S6 w Hwid) as ->.
      assert (Hold : watchId (Mounted.hooks c) = Some 0%Z).
      { revert Hwid. unfold stopTracking. rewrite Hco.
        cbn [length Nat.ltb Nat.leb]. unfold then_, skip.
        destruct (watchId (Mounted.hooks c)) as [w1|] eqn:Hw0;
          destruct (intervalRef (Mounted.hooks c)) as [i1|];
          try destruct (Z.eqb_spec w1 0); try destruct (i1 =? 0)%Z;
          cbn; rewrite ?Hw0; congruence. }
      apply Hfresh in Hold. lia. }
    rewrite S1, S2, S3, S4. auto 10.
  - apply Hkeep; cbn; auto.
  - apply Hkeep; cbn; auto.
  - apply Hkeep; cbn; auto.
  - apply Hkeep; cbn; auto.
  - assert (Hfold : forall n st,
              watchId st = watchId (Mounted.hooks c) /\ coordinates st = []
              /\ skippedPointsCount st = 0%nat /\ results st = None
              /\ measurements st = [] ->
              let st' := fold_left (fun s (_ : Z) => onPosition position s) n st in
              watchId st' = watchId (Mounted.hooks c) /\ coordinates st' = []
              /\ skippedPointsCount st' = 0%nat /\ results st' = None
              /\ measurements st' = []).
    { induction n as [|w n IH]; intros st Hst; [exact Hst|].
      cbn [fold_left]. apply IH. cbn. exact Hst. }
    destruct (Hfold (Mounted.liveWatches c) (Mounted.hooks c)) as (A & B & C & D & E);
      [auto 10|].
    apply Hkeep; assumption.
  - assert (Hfold : forall n st,
              watchId st = watchId (Mounted.hooks c) /\ coordinates st = []
              /\ skippedPointsCount st = 0%nat /\ results st = None
              /\ measurements st = [] ->
              let st' := fold_left (fun s (_ : Z) => onPositionError code s) n st in
              watchId st' = watchId (Mounted.hooks c) /\ coordinates st' = []
              /\ skippedPointsCount st' = 0%nat /\ results st' = None
              /\ measurements st' = []).
    { induction n as [|w n IH]; intros st Hst; [exact Hst|].
      cbn [fold_left]. apply IH. cbn. exact Hst. }
    destruct (Hfold (Mounted.liveWatches c) (Mounted.hooks c)) as (A & B & C & D & E);
      [auto 10|].
    apply Hkeep; assumption.
  - rewrite Hlive. cbn [fold_left]. apply Hkeep; auto.
Qed.

Lemma run_settled (proj4 : UtmDef -> R * R -> option (R * R))
      (geolocation : bool) (inputs : list Mounted.Input) (c : Mounted.Component) :
  Mounted.settled c -> Mounted.settled (Mounted.run proj4 geolocation inputs c).
Proof.
  revert c. induction inputs as [|i inputs IH]; intros c Hc; [exact Hc|].
  cbn [Mounted.run fold_left]. apply IH. apply step_settled. exact Hc.
Qed.

Lemma mount_settled : Mounted.settled Mounted.mount.
Proof.
  unfold Mounted.settled, Mounted.mount. cbn.
  repeat split; try reflexivity; try lia; discriminate.
Qed.

(** C9.  The mounted component counts nothing, because it records
    nothing: the render that follows [startTracking] runs the cleanup of
    the effect that depends on [watchId], and the cleanup clears the
    interval timer that [startTracking] has just stored in
    [intervalRef].  Whatever the user and the location source do, no
    interval timer is served after a render, so the timer callback and
    with it [recordGPSPoint] never run: no point is recorded, no fix is
    counted as skipped, and no result is produced.  On the session of two
    fixes with accuracy 3 m and 12 m, each followed by the end of a
    recording period, stopping reports insufficient points, with 0
    skipped and 0 recorded points. *)
Theorem mounted_session_records_nothing
        (proj4 : UtmDef -> R * R -> option (R * R)) (geolocation : bool)
        (inputs : list Mounted.Input) :
  let c := Mounted.run proj4 geolocation inputs Mounted.mount in
  let c2 := Mounted.run proj4 true Samples.twoFixInputs Mounted.mount in
  (Mounted.liveIntervals c = []
   /\ coordinates (Mounted.hooks c) = []
   /\ skippedPointsCount (Mounted.hooks c) = 0%nat
   /\ results (Mounted.hooks c) = None
   /\ measurements (Mounted.hooks c) = [])
  /\ (skippedPointsCount (Mounted.hooks c2) = 0%nat
      /\ length (coordinates (Mounted.hooks c2)) = 0%nat
      /\ results (Mounted.hooks c2) = None
      /\ error (Mounted.hooks c2) = InsufficientPoints
      /\ isTracking (Mounted.hooks c2) = false).
Proof.
  intros c c2.
  destruct (run_settled proj4 geolocation inputs Mounted.mount mount_settled)
    as (H1 & _ & _ & _ & _ & H2 & H3 & H4 & H5).
  split; [repeat split; assumption|].
  destruct (run_settled proj4 true Samples.twoFixInputs Mounted.mount mount_settled)
    as (_ & _ & _ & _ & _ & K2 & K3 & K4 & _).
  fold c2 in K2, K3, K4. rewrite K2, K3, K4.
  repeat split; reflexivity.
Qed.

(** As long as the watch is served, the hooks of the mounted component
    are those of a session in which no timer callback is called. *)
Lemma mounted_run_is_session (proj4 : UtmDef -> R * R -> option (R * R))
      (fixes : list Coords.t) :
  Mounted.hooks
    (Mounted.run proj4 true (Mounted.ClickStart :: map Mounted.SourceDelivers fixes)
                 Mounted.mount)
  = session (map FixDelivered fixes) initialState.
Proof.
  cbn [Mounted.run fold_left map].
  set (c0 := Mounted.step proj4 true Mounted.ClickStart Mounted.mount).
  assert (H0 : Mounted.hooks c0 = startTracking true 1 1 initialState
               /\ Mounted.liveWatches c0 = [1%Z]
               /\ Mounted.effectWatchId c0 = watchId (Mounted.hooks c0))
    by (repeat split; reflexivity).
  unfold session. generalize (startTracking true 1 1 initialState) H0.
  generalize c0. clear c0 H0.
  induction fixes as [|f fixes IH]; intros c st (Hh & Hl & He).
  - exact Hh.
  - cbn [map fold_left runEvents]. apply IH.
    unfold Mounted.step. cbn [Mounted.react].
    destruct (rerender_hooks
                (Mounted.withHooks
                   (fold_left (fun s (_ : Z) => onPosition f s)
                              (Mounted.liveWatches c) (Mounted.hooks c)) c))
      as (Rh & Re & _).
    rewrite Rh, Re. cbn [Mounted.withHooks Mounted.hooks].
    rewrite Hl, Hh. cbn [fold_left handle].
    split; [reflexivity|]. split; [|reflexivity].
    unfold Mounted.rerender.
    cbn [Mounted.withHooks Mounted.hooks Mounted.effectWatchId].
    rewrite He, Hh.
    replace (Mounted.sameValue (watchId st) (watchId (onPosition f st)))
      with true by (symmetry; apply sameValue_true; reflexivity).
    cbn [Mounted.liveWatches Mounted.withHooks]. exact Hl.
Qed.

(* ================================================================== *)
(** ** Stopping with too few points *)
(* ================================================================== *)

(** Stopping with fewer than 3 recorded points, in any state. *)
Lemma stopTracking_too_few
      (proj4 : UtmDef -> R * R -> option (R * R)) (st : State) :
  (length (coordinates st) < 3)%nat ->
  let st' := stopTracking proj4 st in
  measurements st' = measurements st
  /\ results st' = results st
  /\ error st' = InsufficientPoints
  /\ isTracking st' = false
  /\ coordinates st' = coordinates st
  /\ (let fresh := discardCurrentMeasurement st' in
      error fresh = NoError
      /\ coordinates fresh = []
      /\ skippedPointsCount fresh = 0%nat
      /\ lastRecordedPoint fresh = None
      /\ isTracking fresh = false
      /\ showInstructions fresh = true
      /\ results fresh = results st
      /\ measurements fresh = measurements st).
Proof.
  intros Hlen st'.
  assert (Hst' : st' =
            set_error InsufficientPoints
              (((match watchId st with
                 | Some id => if (id =? 0)%Z then skip else set_watchId None
                 | None => skip
                 end) ;;
                (match intervalRef st with
                 | Some interval =>
                     if (interval =? 0)%Z then skip else set_intervalRef None
                 | None => skip
                 end) ;;
                set_isTracking false) st)).
  { unfold st', stopTracking.
    destruct (Nat.ltb_spec (length (coordinates st)) 3) as [_|H]; [reflexivity|lia]. }
  assert (Hall : measurements st' = measurements st
                 /\ results st' = results st
                 /\ error st' = InsufficientPoints
                 /\ isTracking st' = false
                 /\ coordinates st' = coordinates st).
  { rewrite Hst'. unfold then_, skip.
    destruct (watchId st) as [w|]; [destruct (w =? 0)%Z|];
      (destruct (intervalRef st) as [i|]; [destruct (i =? 0)%Z|]);
      repeat split. }
  destruct Hall as (Hm & Hr & He & Ht & Hc).
  split; [exact Hm|]. split; [exact Hr|].
  split; [exact He|]. split; [exact Ht|]. split; [exact Hc|].
  cbv zeta. unfold discardCurrentMeasurement, showInstructionsDialog, then_.
  cbn [error coordinates skippedPointsCount lastRecordedPoint isTracking
       showInstructions results measurements
       set_error set_coordinates set_currentDistance set_skippedPointsCount
       set_lastRecordedPoint set_cumulativeDistance set_showInstructions].
  rewrite Ht, Hr, Hm. repeat split.
Qed.

Lemma runEvents_measurements (events : list Event) :
  forall st, measurements (runEvents events st) = measurements st.
Proof.
  induction events as [|e rest IH]; intro st; [reflexivity|].
  cbn [runEvents fold_left]. fold (runEvents rest (handle e st)).
  rewrite IH. destruct e as [p|now]; [reflexivity|].
  cbn [handle]. unfold onTick.
  destruct (currentPosition st) as [fix_|]; [|reflexivity].
  unfold recordGPSPoint.
  destruct (gtb _ ACCURACY_THRESHOLD); [reflexivity|].
  destruct (lastRecordedPoint st); [|reflexivity].
  destruct (ltb _ MIN_DISTANCE_THRESHOLD); reflexivity.
Qed.

(** C5.  Stopping a session in which fewer than 3 fixes were accepted
    produces no result and appends nothing to the measurements: the
    session is halted with the insufficient-points error and is not
    restarted; its points stay until the measurement is discarded, which
    clears the session and opens the start dialogue. *)
Theorem stopTracking_insufficient_points
        (proj4 : UtmDef -> R * R -> option (R * R))
        (events : list Event) (st0 : State) :
  (acceptedCount (sessionVerdicts events) < 3)%nat ->
  let st := session events st0 in
  let st' := stopTracking proj4 st in
  results st' = None
  /\ measurements st' = measurements st0
  /\ error st' = InsufficientPoints
  /\ isTracking st' = false
  /\ coordinates st' = coordinates st
  /\ (let fresh := discardCurrentMeasurement st' in
      error fresh = NoError
      /\ coordinates fresh = []
      /\ skippedPointsCount fresh = 0%nat
      /\ lastRecordedPoint fresh = None
      /\ isTracking fresh = false
      /\ showInstructions fresh = true
      /\ results fresh = None
      /\ measurements fresh = measurements st0).
Proof.
  intros Hfew st st'.
  assert (Hlen : (length (coordinates st) < 3)%nat).
  { destruct (session_counters events st0) as [_ Hlen]. fold st in Hlen.
    rewrite Hlen. lia. }
  assert (Hres : results st = None)
    by (unfold st, session; rewrite runEvents_results; reflexivity).
  assert (Hms : measurements st = measurements st0)
    by (unfold st, session; rewrite runEvents_measurements; reflexivity).
  pose proof (stopTracking_too_few proj4 st Hlen) as T. cbv zeta in T.
  fold st' in T.
  destruct T as (Hm & Hr & He & Ht & Hc & D1 & D2 & D3 & D4 & D5 & D6 & D7 & D8).
  rewrite Hres in Hr, D7. rewrite Hms in Hm, D8.
  repeat split; assumption.
Qed.

Lemma stopTracking_insufficient_points_witness :
  (acceptedCount (sessionVerdicts twoFixSession) < 3)%nat
  /\ results (stopTracking failingProj4 (session twoFixSession initialState)) = None
  /\ measurements (stopTracking failingProj4 (session twoFixSession initialState)) = [].
Proof.
  assert (H : (acceptedCount (sessionVerdicts twoFixSession) < 3)%nat).
  { unfold twoFixSession. rewrite twoFixes_verdicts.
    unfold acceptedCount. simpl. lia. }
  split; [exact H|].
  pose proof (stopTracking_insufficient_points failingProj4 twoFixSession
                initialState H) as T.
  cbv zeta in T. destruct T as (Hr & Hm & _).
  split; [exact Hr|exact Hm].
Defined.

(* ================================================================== *)
(** ** Rendering numbers *)
(* ================================================================== *)

Lemma pow10_pos (d : nat) : 0 < 10 ^ d.
Proof. apply pow_lt. lra. Qed.

Lemma Zfloor_half (z : Z) : Zfloor (IZR z + / 2) = z.
Proof. apply Zfloor_eq. lra. Qed.

(** Parsing a rendered number and rendering it again with the same
    number of digits gives the same string. *)
Lemma toFixed_parseFloat (d : nat) (s : Fixed d) : toFixed d (parseFloat s) = s.
Proof.
  destruct s as [n]. unfold toFixed, parseFloat. cbn [units].
  pose proof (pow10_pos d) as Hp.
  destruct (Rlt_dec (IZR n / 10 ^ d) 0) as [Hneg|Hpos].
  - replace (- (IZR n / 10 ^ d) * 10 ^ d) with (IZR (- n))
      by (rewrite opp_IZR; field; lra).
    rewrite Zfloor_half. f_equal. lia.
  - replace (IZR n / 10 ^ d * 10 ^ d) with (IZR n) by (field; lra).
    rewrite Zfloor_half. reflexivity.
Qed.

(* ================================================================== *)
(** ** Averaging *)
(* ================================================================== *)

(** [toFixed] renders its argument. *)
Lemma toFixed_renders (d : nat) (v : R) : Spec.renders v (toFixed d v).
Proof.
  unfold Spec.renders, toFixed. pose proof (pow10_pos d) as Hp.
  destruct (Rlt_dec v 0) as [Hneg|Hpos]; cbn [units].
  - destruct (Zfloor_bound (- v * 10 ^ d + / 2)) as [Hlo Hhi].
    rewrite opp_IZR. apply Rabs_le. lra.
  - destruct (Zfloor_bound (v * 10 ^ d + / 2)) as [Hlo Hhi].
    apply Rabs_le. lra.
Qed.

(** C7.  With fewer than 2 stored results the average is unavailable
    ([null]).  With at least 2 the averaged area and the averaged
    perimeter are the arithmetic means of the stored areas and of the
    stored perimeters, rendered with two digits; acres, hectares and
    guntalu are the mean area divided by 4047, 10000 and 101.17, rendered
    with four digits; and the count is the number of results.  For two
    results with identical area the averaged area is that area and the
    count is 2. *)
Theorem calculateAverageResults_mean (measurements : list Result) :
  ((length measurements < 2)%nat -> calculateAverageResults measurements = None)
  /\ ((2 <= length measurements)%nat ->
      let meanArea :=
        Spec.mean (map (fun m => parseFloat (areaSquareMeters m)) measurements) in
      let meanPerimeter :=
        Spec.mean (map (fun m => parseFloat (distance m)) measurements) in
      exists avg,
        calculateAverageResults measurements = Some avg
        /\ Spec.renders meanArea (Average.areaSquareMeters avg)
        /\ Spec.renders meanPerimeter (Average.distance avg)
        /\ Spec.renders (meanArea / 4047) (Average.acres avg)
        /\ Spec.renders (meanArea / 10000) (Average.hectares avg)
        /\ Spec.renders (meanArea / 101.17) (Average.guntalu avg)
        /\ Average.measurementCount avg = length measurements)
  /\ (forall m1 m2,
        measurements = [m1; m2] ->
        areaSquareMeters m1 = areaSquareMeters m2 ->
        exists avg,
          calculateAverageResults measurements = Some avg
          /\ Average.areaSquareMeters avg = areaSquareMeters m1
          /\ Average.measurementCount avg = 2%nat).
Proof.
  split; [|split].
  - intro H. unfold calculateAverageResults.
    destruct (Nat.ltb_spec (length measurements) 2); [reflexivity|lia].
  - intros H meanArea meanPerimeter. unfold calculateAverageResults.
    destruct (Nat.ltb_spec (length measurements) 2); [lia|].
    rewrite !reduce_sum_sumR.
    eexists. split; [reflexivity|].
    cbn [Average.areaSquareMeters Average.distance Average.acres
         Average.hectares Average.guntalu Average.measurementCount].
    unfold meanArea, meanPerimeter, Spec.mean. rewrite !length_map.
    repeat split; apply toFixed_renders.
  - intros m1 m2 -> Heq. unfold calculateAverageResults.
    cbn [length Nat.ltb Nat.leb].
    eexists. split; [reflexivity|].
    cbn [Average.areaSquareMeters Average.measurementCount].
    split; [|reflexivity].
    unfold reduce_sum. cbn [fold_left]. rewrite <- Heq.
    replace ((0 + parseFloat (areaSquareMeters m1)
                + parseFloat (areaSquareMeters m1)) / INR 2)
      with (parseFloat (areaSquareMeters m1)) by (simpl; field).
    apply toFixed_parseFloat.
Qed.

(** Two results of 2.01 and 0.00 m^2 are averaged to a figure within
    0.005 of 1.005 m^2; two copies of one result are averaged to its
    area. *)
Lemma calculateAverageResults_mean_witness :
  ((2 <= length tiePair)%nat
   /\ exists avg,
        calculateAverageResults tiePair = Some avg
        /\ Spec.renders (Spec.mean (map (fun m => parseFloat (areaSquareMeters m))
                                         tiePair))
                        (Average.areaSquareMeters avg)
        /\ Average.measurementCount avg = 2%nat)
  /\ (exists avg,
        calculateAverageResults [sampleResult; sampleResult] = Some avg
        /\ Average.areaSquareMeters avg = areaSquareMeters sampleResult
        /\ Average.measurementCount avg = 2%nat).
Proof.
  assert (H : (2 <= length tiePair)%nat) by (simpl; lia).
  split.
  - split; [exact H|].
    destruct (proj1 (proj2 (calculateAverageResults_mean tiePair)) H)
      as (avg & Havg & Harea & _ & _ & _ & _ & Hcount).
    exists avg. split; [exact Havg|split; [exact Harea|exact Hcount]].
  - exact (proj2 (proj2 (calculateAverageResults_mean [sampleResult; sampleResult]))
             sampleResult sampleResult eq_refl eq_refl).
Defined.

(* ================================================================== *)
(** ** Unit conversions *)
(* ================================================================== *)



(** Two non-negative numbers at least one unit of the last digit apart
    are rendered differently. *)
Lemma toFixed_apart (d : nat) (a b : R) :
  0 <= a -> 0 <= b -> 1 <= (a - b) * 10 ^ d -> toFixed d a <> toFixed d b.
Proof.
  intros Ha Hb Hfar. unfold toFixed.
  destruct (Rlt_dec a 0); [lra|]. destruct (Rlt_dec b 0); [lra|].
  intro H. injection H as H.
  pose proof (Zfloor_bound (a * 10 ^ d + / 2)) as Ba.
  pose proof (Zfloor_bound (b * 10 ^ d + / 2)) as Bb.
  rewrite H in Ba. lra.
Qed.




(* ================================================================== *)
(** ** Extent of a polygon *)
(* ================================================================== *)

Lemma fold_Rmax_spec (l : list R) :
  forall x0,
  (fold_left Rmax l x0 = x0 \/ In (fold_left Rmax l x0) l)
  /\ x0 <= fold_left Rmax l x0
  /\ (forall v, In v l -> v <= fold_left Rmax l x0).
Proof.
  induction l as [|a l IH]; intro x0; cbn [fold_left].
  - split; [now left|]. split; [lra|]. intros v [].
  - destruct (IH (Rmax x0 a)) as (Hin & Hle & Hub).
    pose proof (Rmax_l x0 a). pose proof (Rmax_r x0 a).
    split; [|split].
    + destruct Hin as [Heq|Hin]; [|right; now right].
      rewrite Heq. unfold Rmax. destruct (Rle_dec x0 a); [right; now left|now left].
    + lra.
    + intros v [<-|Hv]; [lra|]. apply Hub, Hv.
Qed.

Lemma fold_Rmin_spec (l : list R) :
  forall x0,
  (fold_left Rmin l x0 = x0 \/ In (fold_left Rmin l x0) l)
  /\ fold_left Rmin l x0 <= x0
  /\ (forall v, In v l -> fold_left Rmin l x0 <= v).
Proof.
  induction l as [|a l IH]; intro x0; cbn [fold_left].
  - split; [now left|]. split; [lra|]. intros v [].
  - destruct (IH (Rmin x0 a)) as (Hin & Hle & Hlb).
    pose proof (Rmin_l x0 a). pose proof (Rmin_r x0 a).
    split; [|split].
    + destruct Hin as [Heq|Hin]; [|right; now right].
      rewrite Heq. unfold Rmin. destruct (Rle_dec x0 a); [now left|right; now left].
    + lra.
    + intros v [<-|Hv]; [lra|]. apply Hlb, Hv.
Qed.

(** [Math.max] of a non-empty array is its greatest element. *)
Lemma Math_max_spec (l : list R) :
  l <> [] -> In (Math_max l) l /\ forall v, In v l -> v <= Math_max l.
Proof.
  destruct l as [|a l]; [congruence|]. intros _. cbn [Math_max].
  destruct (fold_Rmax_spec l a) as (Hin & Hle & Hub).
  split.
  - destruct Hin as [->|Hin]; [now left|now right].
  - intros v [<-|Hv]; [exact Hle|apply Hub, Hv].
Qed.

(** [Math.min] of a non-empty array is its least element. *)
Lemma Math_min_spec (l : list R) :
  l <> [] -> In (Math_min l) l /\ forall v, In v l -> Math_min l <= v.
Proof.
  destruct l as [|a l]; [congruence|]. intros _. cbn [Math_min].
  destruct (fold_Rmin_spec l a) as (Hin & Hle & Hlb).
  split.
  - destruct Hin as [->|Hin]; [now left|now right].
  - intros v [<-|Hv]; [exact Hle|apply Hlb, Hv].
Qed.

(** The range [max - min] exceeds a bound exactly when two elements are
    further apart than the bound. *)
Lemma range_exceeds (l : list R) (bound : R) :
  l <> [] ->
  (Math_max l - Math_min l > bound <->
   exists u v, In u l /\ In v l /\ u - v > bound).
Proof.
  intro Hne.
  destruct (Math_max_spec l Hne) as [Hmax Hub].
  destruct (Math_min_spec l Hne) as [Hmin Hlb].
  split.
  - intro H. exists (Math_max l), (Math_min l). auto.
  - intros (u & v & Hu & Hv & H).
    specialize (Hub u Hu). specialize (Hlb v Hv). lra.
Qed.

Lemma field_range_exceeds (g : Point -> R) (cs : list Point) (bound : R) :
  cs <> [] ->
  (gtb (Math_max (map g cs) - Math_min (map g cs)) bound = true <->
   exists p q, In p cs /\ In q cs /\ g p - g q > bound).
Proof.
  intro Hne. rewrite gtb_true, range_exceeds.
  - split.
    + intros (u & v & Hu & Hv & H).
      apply in_map_iff in Hu. destruct Hu as (p & <- & Hp).
      apply in_map_iff in Hv. destruct Hv as (q & <- & Hq).
      exists p, q. auto.
    + intros (p & q & Hp & Hq & H).
      exists (g p), (g q). split; [|split]; auto using in_map.
  - destruct cs; [congruence|discriminate].
Qed.

(* ================================================================== *)
(** ** Flat-mode area *)
(* ================================================================== *)

Lemma shoelaceLoop_sum (cs : list XY) : shoelaceLoop cs = Spec.shoelaceSum cs.
Proof.
  unfold shoelaceLoop, Spec.shoelaceSum, Spec.pathSum, at_xy.
  apply (pair_loop xy0 Spec.cross cs).
Qed.

Lemma Rabs_half (a : R) : Rabs a / 2 = Rabs (a / 2).
Proof.
  unfold Rdiv. rewrite Rabs_mult. f_equal.
  symmetry. apply Rabs_pos_eq. lra.
Qed.

Lemma calculateAreaWithShoelace_flat (closedCoords : list Point) :
  calculateAreaWithShoelace closedCoords = Spec.flatArea closedCoords.
Proof.
  unfold calculateAreaWithShoelace, Spec.flatArea.
  rewrite shoelaceLoop_sum, Rabs_half, reduce_sum_sumR.
  fold (Spec.meanLatitude closedCoords).
  rewrite <- toRadians_radians.
  do 3 f_equal. apply map_ext. intro p.
  unfold Spec.planar. f_equal. ring.
Qed.

(** C1.  For a closed polygon (at least 3 entries), the projected mode
    is selected exactly when two vertices differ by more than 0.01
    degrees in latitude or in longitude, that is when the latitude range
    or the longitude range exceeds 0.01; otherwise the flat mode is used,
    whose area is the absolute value of half the shoelace sum over
    [x = longitude * 111000 * cos(meanLatitudeRadians)],
    [y = latitude * 111000]. *)
Theorem calculateArea_mode_selection
        (proj4 : UtmDef -> R * R -> option (R * R)) (closedCoords : list Point) :
  (3 <= length closedCoords)%nat ->
  (useProjForLargeFields closedCoords = true <->
     Spec.latitudeRangeExceeds 0.01 closedCoords
     \/ Spec.longitudeRangeExceeds 0.01 closedCoords)
  /\ (useProjForLargeFields closedCoords = true ->
      calculateArea proj4 closedCoords =
      calculateAreaWithProjection proj4 closedCoords)
  /\ (useProjForLargeFields closedCoords = false ->
      calculateArea proj4 closedCoords = calculateAreaWithShoelace closedCoords
      /\ calculateArea proj4 closedCoords = Spec.flatArea closedCoords).
Proof.
  intro Hlen.
  assert (Hne : closedCoords <> []) by (destruct closedCoords; [simpl in Hlen; lia|discriminate]).
  assert (Harea : calculateArea proj4 closedCoords =
                  if useProjForLargeFields closedCoords
                  then calculateAreaWithProjection proj4 closedCoords
                  else calculateAreaWithShoelace closedCoords).
  { unfold calculateArea.
    destruct (Nat.ltb_spec (length closedCoords) 3); [lia|reflexivity]. }
  split; [|split].
  - unfold useProjForLargeFields, Spec.latitudeRangeExceeds,
      Spec.longitudeRangeExceeds.
    rewrite orb_true_iff, !field_range_exceeds by exact Hne. reflexivity.
  - intro H. rewrite Harea, H. reflexivity.
  - intro H. rewrite Harea, H.
    split; [reflexivity|apply calculateAreaWithShoelace_flat].
Qed.

(* ================================================================== *)
(** ** Projection failure *)
(* ================================================================== *)

Lemma haversine_same (lat0 lng0 : R) : haversineDistance lat0 lng0 lat0 lng0 = 0.
Proof.
  unfold haversineDistance.
  replace (toRadians (lat0 - lat0) / 2) with 0 by (unfold toRadians; lra).
  replace (toRadians (lng0 - lng0) / 2) with 0 by (unfold toRadians; lra).
  rewrite sin_0.
  replace (0 * 0 + cos (toRadians lat0) * cos (toRadians lat0) * 0 * 0)
    with 0 by ring.
  replace (1 - 0) with 1 by lra.
  rewrite sqrt_0, sqrt_1, Math_atan2_pos by lra.
  replace (0 / 1) with 0 by lra. rewrite atan_0. lra.
Qed.

(** The result built on stop depends on the projection only through the
    area it yields. *)
Lemma calculateResults_area_only
      (proj4 proj4' : UtmDef -> R * R -> option (R * R))
      (coords : list Point) (st : State) :
  calculateArea proj4' (createClosedPolygon coords) =
  calculateArea proj4 (createClosedPolygon coords) ->
  calculateResultsWithCoordinates proj4' coords st =
  calculateResultsWithCoordinates proj4 coords st.
Proof.
  intro H. unfold calculateResultsWithCoordinates. rewrite H. reflexivity.
Qed.

Lemma stopTracking_area_only
      (proj4 proj4' : UtmDef -> R * R -> option (R * R)) (st : State) :
  calculateArea proj4' (createClosedPolygon (coordinates st)) =
  calculateArea proj4 (createClosedPolygon (coordinates st)) ->
  stopTracking proj4' st = stopTracking proj4 st.
Proof.
  intro H. unfold stopTracking.
  destruct (length (coordinates st) <? 3)%nat; [reflexivity|].
  apply calculateResults_area_only, H.
Qed.

Lemma createClosedPolygon_length (coords : list Point) :
  (length coords <= length (createClosedPolygon coords))%nat.
Proof.
  unfold createClosedPolygon.
  destruct (length coords <? 3)%nat; [lia|].
  destruct (gtb _ POLYGON_CLOSURE_THRESHOLD); [|lia].
  rewrite length_app. simpl. lia.
Qed.

Lemma outAndBack_closed : createClosedPolygon outAndBack = outAndBack.
Proof.
  unfold createClosedPolygon, outAndBack.
  cbn [length Nat.ltb Nat.leb Nat.sub at_point nth lat lng].
  rewrite haversine_same. unfold gtb, POLYGON_CLOSURE_THRESHOLD.
  destruct (Rgt_dec 0 5); [lra|reflexivity].
Qed.

Lemma outAndBack_projected : useProjForLargeFields outAndBack = true.
Proof.
  unfold useProjForLargeFields. apply orb_true_iff. left.
  apply field_range_exceeds; [discriminate|].
  exists (mkPoint 0.02 0.02 2000 5), (mkPoint 0 0 0 5).
  unfold outAndBack. cbn [In lat]. split; [|split]; auto. lra.
Qed.

Lemma outAndBack_flat_area : calculateAreaWithShoelace outAndBack = 0.
Proof.
  unfold calculateAreaWithShoelace, shoelaceLoop, for_range, at_xy, outAndBack.
  cbn [map length Nat.sub seq fold_left nth Nat.add x y lat lng].
  match goal with |- Rabs ?s / 2 = 0 => replace s with 0 by ring end.
  rewrite Rabs_R0. lra.
Qed.

Lemma outAndBack_area (proj4 : UtmDef -> R * R -> option (R * R)) :
  proj4 = failingProj4 \/ proj4 = identityProj4 ->
  calculateArea proj4 outAndBack = 0.
Proof.
  intro Hp. unfold calculateArea.
  rewrite outAndBack_projected. cbn [outAndBack length Nat.ltb Nat.leb].
  fold outAndBack. unfold calculateAreaWithProjection, projectedArea.
  destruct Hp as [->| ->].
  - cbn [outAndBack map_throwing failingProj4]. apply outAndBack_flat_area.
  - unfold outAndBack at 2. cbn [map_throwing identityProj4 lat lng].
    unfold shoelaceLoop, for_range, at_xy.
    cbn [length Nat.sub seq fold_left nth Nat.add x y].
    match goal with |- Rabs ?s / 2 = 0 => replace s with 0 by ring end.
    rewrite Rabs_R0. lra.
Qed.

(** C6 (as stated) fails: no reading of the result tells a measurement
    whose projection failed from one whose projection succeeded.  On the
    out-and-back walk, which selects the projected mode, the result
    obtained with a failing [proj4] is the result obtained with a
    succeeding one. *)
Lemma degraded_precision_unmarked_counterexample :
  ~ exists marked : Result -> bool,
      forall proj4 coords st r,
        (3 <= length coords)%nat ->
        useProjForLargeFields (createClosedPolygon coords) = true ->
        results (calculateResultsWithCoordinates proj4 coords st) = Some r ->
        (marked r = true <-> projectedArea proj4 (createClosedPolygon coords) = None).
Proof.
  intros [marked Hm].
  assert (Hlen : (3 <= length outAndBack)%nat) by (simpl; lia).
  assert (Hproj : useProjForLargeFields (createClosedPolygon outAndBack) = true)
    by (rewrite outAndBack_closed; apply outAndBack_projected).
  assert (Hsame : calculateResultsWithCoordinates identityProj4 outAndBack initialState
                  = calculateResultsWithCoordinates failingProj4 outAndBack initialState).
  { apply calculateResults_area_only. rewrite outAndBack_closed.
    rewrite !outAndBack_area; auto. }
  destruct (results (calculateResultsWithCoordinates failingProj4 outAndBack initialState))
    as [r|] eqn:Hr; [|discriminate].
  pose proof (Hm failingProj4 outAndBack initialState r Hlen Hproj Hr) as Hfail.
  rewrite <- Hsame in Hr.
  pose proof (Hm identityProj4 outAndBack initialState r Hlen Hproj Hr) as Hok.
  assert (Hmarked : marked r = true).
  { apply Hfail. rewrite outAndBack_closed. reflexivity. }
  apply Hok in Hmarked. rewrite outAndBack_closed in Hmarked.
  unfold projectedArea, outAndBack in Hmarked.
  cbn [map_throwing identityProj4 lat lng] in Hmarked. discriminate.
Qed.

(** C6 (as the code has it).  When the projected mode is selected and
    the projection throws, the area is the flat-mode area; stopping the
    session still produces a result and appends it, with that area; and
    the outcome of the stop is the one any projection yielding the same
    area would give: the result carries no degraded-precision marker. *)
Theorem projection_failure_falls_back
        (proj4 : UtmDef -> R * R -> option (R * R)) (st : State) :
  (3 <= length (coordinates st))%nat ->
  let closed := createClosedPolygon (coordinates st) in
  useProjForLargeFields closed = true ->
  projectedArea proj4 closed = None ->
  calculateArea proj4 closed = Spec.flatArea closed
  /\ (exists r,
        results (stopTracking proj4 st) = Some r
        /\ measurements (stopTracking proj4 st) = measurements st ++ [r]
        /\ areaSquareMeters r = toFixed 2 (Spec.flatArea closed))
  /\ (forall proj4',
        calculateArea proj4' closed = Spec.flatArea closed ->
        stopTracking proj4' st = stopTracking proj4 st).
Proof.
  intros Hlen closed Hmode Hfail.
  assert (Harea : calculateArea proj4 closed = Spec.flatArea closed).
  { unfold calculateArea.
    pose proof (createClosedPolygon_length (coordinates st)) as Hc. fold closed in Hc.
    destruct (Nat.ltb_spec (length closed) 3); [lia|].
    rewrite Hmode. unfold calculateAreaWithProjection. rewrite Hfail.
    apply calculateAreaWithShoelace_flat. }
  split; [exact Harea|]. split.
  - destruct (stopTracking_produces proj4 st Hlen) as (r & Hr & Hm & _ & _ & Ha).
    exists r. split; [exact Hr|]. split; [exact Hm|].
    rewrite Ha. fold closed. rewrite Harea. reflexivity.
  - intros proj4' H'. apply stopTracking_area_only.
    fold closed. rewrite H', Harea. reflexivity.
Qed.

Lemma projection_failure_falls_back_witness :
  (3 <= length (coordinates (set_coordinates outAndBack initialState)))%nat
  /\ useProjForLargeFields (createClosedPolygon outAndBack) = true
  /\ projectedArea failingProj4 (createClosedPolygon outAndBack) = None
  /\ calculateArea failingProj4 (createClosedPolygon outAndBack)
     = Spec.flatArea (createClosedPolygon outAndBack).
Proof.
  assert (H1 : (3 <= length (coordinates (set_coordinates outAndBack initialState)))%nat)
    by (simpl; lia).
  assert (H2 : useProjForLargeFields (createClosedPolygon outAndBack) = true)
    by (rewrite outAndBack_closed; apply outAndBack_projected).
  assert (H3 : projectedArea failingProj4 (createClosedPolygon outAndBack) = None)
    by (rewrite outAndBack_closed; reflexivity).
  split; [exact H1|]. split; [exact H2|]. split; [exact H3|].
  exact (proj1 (projection_failure_falls_back failingProj4
                  (set_coordinates outAndBack initialState) H1 H2 H3)).
Defined.

(* ================================================================== *)
(** ** Sums along a path *)
(* ================================================================== *)

Lemma last_cons_cons {A : Type} (a b : A) (t : list A) (d : A) :
  last (a :: b :: t) d = last (b :: t) d.
Proof. reflexivity. Qed.

Lemma last_default {A : Type} (a : A) (l : list A) (d d' : A) :
  last (a :: l) d = last (a :: l) d'.
Proof.
  revert a. induction l as [|b t IH]; intro a; [reflexivity|].
  rewrite !last_cons_cons. apply IH.
Qed.

Section PathSums.
Context {A : Type}.
Variable f : A -> A -> R.

Lemma pathSum_cons2 (a b : A) (t : list A) :
  Spec.pathSum f (a :: b :: t) = f a b + Spec.pathSum f (b :: t).
Proof. reflexivity. Qed.

Lemma pathSum_app (u v : list A) :
  Spec.pathSum f (u ++ v) =
  Spec.pathSum f u + Spec.link f u v + Spec.pathSum f v.
Proof.
  induction u as [|a u IH].
  - unfold Spec.pathSum at 2, Spec.link. simpl. lra.
  - destruct u as [|b t].
    + destruct v as [|c v'].
      * unfold Spec.pathSum, Spec.link. simpl. lra.
      * change ([a] ++ c :: v') with (a :: c :: v').
        rewrite pathSum_cons2.
        unfold Spec.pathSum at 2, Spec.link. simpl. lra.
    + change ((a :: b :: t) ++ v) with (a :: b :: (t ++ v)).
      rewrite !pathSum_cons2.
      change (b :: t ++ v) with ((b :: t) ++ v).
      rewrite IH.
      assert (Hl : Spec.link f (a :: b :: t) v = Spec.link f (b :: t) v).
      { unfold Spec.link. destruct v as [|c v']; [reflexivity|].
        rewrite last_cons_cons. f_equal. apply last_default. }
      rewrite Hl. lra.
Qed.

Lemma pathSum_closeRing_swap (u v : list A) :
  Spec.pathSum f (Spec.closeRing (u ++ v)) =
  Spec.pathSum f (Spec.closeRing (v ++ u)).
Proof.
  destruct u as [|a u]; [rewrite app_nil_r; reflexivity|].
  destruct v as [|b v]; [rewrite app_nil_r; reflexivity|].
  change (Spec.closeRing ((a :: u) ++ b :: v))
    with (((a :: u) ++ (b :: v)) ++ [a]).
  change (Spec.closeRing ((b :: v) ++ a :: u))
    with (((b :: v) ++ (a :: u)) ++ [b]).
  rewrite <- !app_assoc, !pathSum_app.
  assert (H1 : Spec.link f (a :: u) ((b :: v) ++ [a]) = f (last (a :: u) a) b)
    by reflexivity.
  assert (H2 : Spec.link f (b :: v) ((a :: u) ++ [b]) = f (last (b :: v) b) a)
    by reflexivity.
  assert (H3 : Spec.link f (b :: v) [a] = f (last (b :: v) b) a) by reflexivity.
  assert (H4 : Spec.link f (a :: u) [b] = f (last (a :: u) a) b) by reflexivity.
  rewrite H1, H2, H3, H4.
  assert (H0 : forall c : A, Spec.pathSum f [c] = 0) by reflexivity.
  rewrite !H0. lra.
Qed.

(** The sum over a closed ring does not depend on the start index. *)
Lemma pathSum_rotate (k : nat) (ring : list A) :
  Spec.pathSum f (Spec.closeRing (Spec.rotate k ring)) =
  Spec.pathSum f (Spec.closeRing ring).
Proof.
  unfold Spec.rotate.
  rewrite <- (firstn_skipn k ring) at 3.
  apply pathSum_closeRing_swap.
Qed.

(** Reversing the sequence swaps the arguments of every term. *)
Lemma pathSum_rev (l : list A) :
  Spec.pathSum f (rev l) = Spec.pathSum (fun a b => f b a) l.
Proof.
  induction l as [|a l IH]; [reflexivity|].
  destruct l as [|b t]; [reflexivity|].
  change (rev (a :: b :: t)) with ((rev t ++ [b]) ++ [a]).
  change (Spec.pathSum (fun a0 b0 => f b0 a0) (a :: b :: t))
    with (f b a + Spec.pathSum (fun a0 b0 => f b0 a0) (b :: t)).
  rewrite <- IH.
  change (rev (b :: t)) with (rev t ++ [b]).
  unfold Spec.pathSum.
  rewrite consecutive_snoc, map_app, sumR_app.
  cbn [map Spec.sumR fold_right fst snd]. lra.
Qed.

End PathSums.

(* ================================================================== *)
(** ** Polygons with the same vertices *)
(* ================================================================== *)

Lemma sumR_rev (l : list R) : Spec.sumR (rev l) = Spec.sumR l.
Proof.
  induction l as [|a l IH]; [reflexivity|].
  cbn [rev]. rewrite sumR_app, IH. simpl. lra.
Qed.

Lemma pathSum_opp {A : Type} (f : A -> A -> R) (l : list A) :
  Spec.pathSum (fun a b => - f a b) l = - Spec.pathSum f l.
Proof.
  unfold Spec.pathSum.
  induction (Spec.consecutive l) as [|e es IH]; simpl; [lra|].
  rewrite IH. lra.
Qed.

Lemma shoelaceSum_rev (vertices : list XY) :
  Spec.shoelaceSum (rev vertices) = - Spec.shoelaceSum vertices.
Proof.
  unfold Spec.shoelaceSum.
  rewrite pathSum_rev, <- pathSum_opp.
  unfold Spec.pathSum. f_equal. apply map_ext.
  intro e. unfold Spec.cross. ring.
Qed.

Lemma Math_max_members (l l' : list R) :
  l <> [] -> (forall v, In v l' <-> In v l) -> Math_max l' = Math_max l.
Proof.
  intros Hne Hmem.
  assert (Hne' : l' <> []).
  { destruct l as [|a l]; [congruence|].
    destruct l'; [|discriminate]. destruct (proj2 (Hmem a)). now left. }
  destruct (Math_max_spec l Hne) as [Hin Hub].
  destruct (Math_max_spec l' Hne') as [Hin' Hub'].
  apply Rle_antisym.
  - apply Hub, Hmem, Hin'.
  - apply Hub', Hmem, Hin.
Qed.

Lemma Math_min_members (l l' : list R) :
  l <> [] -> (forall v, In v l' <-> In v l) -> Math_min l' = Math_min l.
Proof.
  intros Hne Hmem.
  assert (Hne' : l' <> []).
  { destruct l as [|a l]; [congruence|].
    destruct l'; [|discriminate]. destruct (proj2 (Hmem a)). now left. }
  destruct (Math_min_spec l Hne) as [Hin Hlb].
  destruct (Math_min_spec l' Hne') as [Hin' Hlb'].
  apply Rle_antisym.
  - apply Hlb', Hmem, Hin.
  - apply Hlb, Hmem, Hin'.
Qed.

Lemma map_members {A B : Type} (g : A -> B) (l l' : list A) :
  (forall p, In p l' <-> In p l) ->
  forall v, In v (map g l') <-> In v (map g l).
Proof.
  intros Hmem v. rewrite !in_map_iff.
  split; intros (p & Hp & Hin); exists p; split; auto; apply Hmem; exact Hin.
Qed.

Lemma useProjForLargeFields_members (c c' : list Point) :
  c <> [] -> (forall p, In p c' <-> In p c) ->
  useProjForLargeFields c' = useProjForLargeFields c.
Proof.
  intros Hne Hmem. unfold useProjForLargeFields.
  assert (Hn : forall g : Point -> R, map g c <> [])
    by (intro g; destruct c; [congruence|discriminate]).
  rewrite (Math_max_members (map lat c) (map lat c')),
          (Math_min_members (map lat c) (map lat c')),
          (Math_max_members (map lng c) (map lng c')),
          (Math_min_members (map lng c) (map lng c'));
    auto using map_members.
Qed.

(** A throwing map succeeds exactly when the callback succeeds on every
    element, and then maps each element to what the callback returns. *)
Lemma map_throwing_total {A B : Type} (g : A -> option B) (d : B) (l : list A) :
  map_throwing g l =
  if forallb (fun v => match g v with Some _ => true | None => false end) l
  then Some (map (fun v => match g v with Some w => w | None => d end) l)
  else None.
Proof.
  induction l as [|v l IH]; [reflexivity|].
  cbn [map_throwing forallb map]. rewrite IH.
  destruct (g v); [|reflexivity]. cbn [andb].
  destruct (forallb _ l); reflexivity.
Qed.

Lemma forallb_members {A : Type} (t : A -> bool) (l l' : list A) :
  (forall p, In p l' <-> In p l) -> forallb t l' = forallb t l.
Proof.
  intro Hmem.
  destruct (forallb t l) eqn:H.
  - rewrite forallb_forall in *. intros p Hp. apply H, Hmem, Hp.
  - destruct (forallb t l') eqn:H'; [|reflexivity].
    rewrite <- H. symmetry.
    rewrite forallb_forall in *. intros p Hp. apply H', Hmem, Hp.
Qed.

(** Two closed sequences with the same length, the same vertices, the
    same mean latitude, the same UTM definition and, in every planar
    projection, the same absolute shoelace sum have the same area. *)
Lemma calculateArea_same
      (proj4 : UtmDef -> R * R -> option (R * R)) (c c' : list Point) :
  length c' = length c ->
  (forall p, In p c' <-> In p c) ->
  Spec.meanLatitude c' = Spec.meanLatitude c ->
  utmOf c' = utmOf c ->
  (forall g : Point -> XY,
     Rabs (Spec.shoelaceSum (map g c')) = Rabs (Spec.shoelaceSum (map g c))) ->
  calculateArea proj4 c' = calculateArea proj4 c.
Proof.
  intros Hlen Hmem Hmean Hutm Hsum.
  unfold calculateArea. rewrite Hlen.
  destruct (Nat.ltb_spec (length c) 3) as [|Hge]; [reflexivity|].
  assert (Hne : c <> []) by (destruct c; [simpl in Hge; lia|discriminate]).
  rewrite (useProjForLargeFields_members c c' Hne Hmem).
  assert (Hflat : calculateAreaWithShoelace c' = calculateAreaWithShoelace c).
  { rewrite !calculateAreaWithShoelace_flat. unfold Spec.flatArea.
    rewrite Hmean, <- !Rabs_half, Hsum. reflexivity. }
  destruct (useProjForLargeFields c); [|exact Hflat].
  unfold calculateAreaWithProjection, projectedArea. rewrite Hutm.
  rewrite !(map_throwing_total _ xy0).
  rewrite (forallb_members _ c c' Hmem).
  destruct (forallb _ c); [|exact Hflat].
  rewrite !shoelaceLoop_sum, Hsum. reflexivity.
Qed.

Lemma meanLatitude_rev (c : list Point) :
  Spec.meanLatitude (rev c) = Spec.meanLatitude c.
Proof.
  unfold Spec.meanLatitude. rewrite map_rev, sumR_rev, length_rev. reflexivity.
Qed.

Lemma utmOf_rev (c : list Point) : utmOf (rev c) = utmOf c.
Proof.
  unfold utmOf. rewrite !reduce_sum_sumR, !map_rev, !sumR_rev, length_rev.
  reflexivity.
Qed.

Lemma calculateArea_rev
      (proj4 : UtmDef -> R * R -> option (R * R)) (c : list Point) :
  calculateArea proj4 (rev c) = calculateArea proj4 c.
Proof.
  apply calculateArea_same.
  - apply length_rev.
  - intro p. symmetry. apply in_rev.
  - apply meanLatitude_rev.
  - apply utmOf_rev.
  - intro g. rewrite map_rev, shoelaceSum_rev. apply Rabs_Ropp.
Qed.

Lemma closeRing_members {A : Type} (ring : list A) (a : A) :
  In a (Spec.closeRing ring) <-> In a ring.
Proof.
  destruct ring as [|b t]; [reflexivity|].
  unfold Spec.closeRing. rewrite in_app_iff. cbn [In]. tauto.
Qed.

Lemma rotate_members {A : Type} (k : nat) (ring : list A) (a : A) :
  In a (Spec.rotate k ring) <-> In a ring.
Proof.
  unfold Spec.rotate. rewrite <- (firstn_skipn k ring) at 3.
  rewrite !in_app_iff. tauto.
Qed.

Lemma rotate_length {A : Type} (k : nat) (ring : list A) :
  length (Spec.rotate k ring) = length ring.
Proof.
  unfold Spec.rotate. rewrite <- (firstn_skipn k ring) at 3.
  rewrite !length_app. lia.
Qed.

Lemma closeRing_length {A : Type} (ring ring' : list A) :
  length ring' = length ring ->
  length (Spec.closeRing ring') = length (Spec.closeRing ring).
Proof.
  intro H. destruct ring, ring'; try discriminate; [reflexivity|].
  unfold Spec.closeRing. rewrite !length_app, H. reflexivity.
Qed.

Lemma map_closeRing {A B : Type} (g : A -> B) (ring : list A) :
  map g (Spec.closeRing ring) = Spec.closeRing (map g ring).
Proof.
  destruct ring as [|a t]; [reflexivity|].
  unfold Spec.closeRing. cbn [map]. rewrite map_app. reflexivity.
Qed.

Lemma map_rotate {A B : Type} (g : A -> B) (k : nat) (ring : list A) :
  map g (Spec.rotate k ring) = Spec.rotate k (map g ring).
Proof.
  unfold Spec.rotate. rewrite map_app, skipn_map, firstn_map. reflexivity.
Qed.

(** Closing a ring adds the term that joins its last vertex to its
    first: a sequence taken as closed within the tolerance, to which
    nothing was appended, lacks that term. *)
Lemma shoelaceSum_closeRing (a : XY) (l : list XY) :
  Spec.shoelaceSum (Spec.closeRing (a :: l)) =
  Spec.shoelaceSum (a :: l) + Spec.cross (last (a :: l) a) a.
Proof.
  unfold Spec.shoelaceSum, Spec.closeRing.
  rewrite pathSum_app. unfold Spec.link, Spec.pathSum at 2. simpl. lra.
Qed.

Lemma shoelaceSum_rotate (k : nat) (ring : list XY) :
  Spec.shoelaceSum (Spec.closeRing (Spec.rotate k ring)) =
  Spec.shoelaceSum (Spec.closeRing ring).
Proof. apply pathSum_rotate. Qed.

Lemma calculateArea_rotate
      (proj4 : UtmDef -> R * R -> option (R * R)) (k : nat) (ring : list Point) :
  Spec.meanLatitude (Spec.closeRing (Spec.rotate k ring)) =
  Spec.meanLatitude (Spec.closeRing ring) ->
  utmOf (Spec.closeRing (Spec.rotate k ring)) = utmOf (Spec.closeRing ring) ->
  calculateArea proj4 (Spec.closeRing (Spec.rotate k ring)) =
  calculateArea proj4 (Spec.closeRing ring).
Proof.
  intros Hmean Hutm. apply calculateArea_same; auto.
  - apply closeRing_length, rotate_length.
  - intro p. rewrite !closeRing_members. apply rotate_members.
  - intro g. rewrite !map_closeRing, map_rotate, shoelaceSum_rotate. reflexivity.
Qed.

(* ================================================================== *)
(** ** The field walk *)
(* ================================================================== *)

Ltac eval_minmax :=
  repeat match goal with
         | |- context [Rmax ?a ?b] =>
             first [rewrite (Rmax_left a b) by lra | rewrite (Rmax_right a b) by lra]
         | |- context [Rmin ?a ?b] =>
             first [rewrite (Rmin_left a b) by lra | rewrite (Rmin_right a b) by lra]
         end.

(** The haversine angle of a half-angle [h] in the first quadrant. *)
Lemma atan2_half_angle (h : R) :
  0 < h < PI / 2 ->
  2 * Math_atan2 (sqrt (sin h * sin h)) (sqrt (1 - sin h * sin h)) = 2 * h.
Proof.
  intro Hh.
  assert (Hsin : 0 < sin h) by (apply sin_gt_0; lra).
  assert (Hcos : 0 < cos h) by (apply cos_gt_0; lra).
  fold (Rsqr (sin h)).
  rewrite sqrt_Rsqr by lra.
  rewrite <- (cos2 h), sqrt_Rsqr by lra.
  rewrite Math_atan2_pos by lra.
  fold (tan h). rewrite atan_tan by lra. reflexivity.
Qed.

(** Two points on one meridian, 0.01 degrees of latitude apart, are
    about 1112 m apart. *)
Lemma haversine_meridian_side (lat1 lat2 lng0 : R) :
  lat2 - lat1 = 0.01 \/ lat2 - lat1 = - 0.01 ->
  haversineDistance lat1 lng0 lat2 lng0 = EARTH_RADIUS * toRadians 0.01.
Proof.
  intro Hd. unfold haversineDistance.
  replace (toRadians (lng0 - lng0) / 2) with 0 by (unfold toRadians; lra).
  rewrite sin_0.
  set (h := toRadians 0.01 / 2).
  assert (Hh : 0 < h < PI / 2)
    by (unfold h, toRadians; pose proof PI_RGT_0; split; lra).
  assert (Ha : sin (toRadians (lat2 - lat1) / 2) * sin (toRadians (lat2 - lat1) / 2)
               = sin h * sin h).
  { destruct Hd as [-> | ->].
    - reflexivity.
    - replace (toRadians (- 0.01) / 2) with (- h) by (unfold h, toRadians; lra).
      rewrite sin_neg. ring. }
  match goal with
  | |- context [Math_atan2 (sqrt ?a) _] =>
      replace a with (sin h * sin h) by (rewrite <- Ha; ring)
  end.
  rewrite atan2_half_angle by exact Hh. unfold h. lra.
Qed.

Lemma side_exceeds_threshold :
  EARTH_RADIUS * toRadians 0.01 > POLYGON_CLOSURE_THRESHOLD.
Proof.
  unfold EARTH_RADIUS, toRadians, POLYGON_CLOSURE_THRESHOLD.
  pose proof PI2_3_2. lra.
Qed.

Lemma fieldWalk_closed (k : nat) :
  k = 0%nat \/ k = 2%nat ->
  createClosedPolygon (Spec.rotate k fieldWalk) =
  Spec.closeRing (Spec.rotate k fieldWalk).
Proof.
  pose proof side_exceeds_threshold as Hside.
  intros [-> | ->]; unfold createClosedPolygon, fieldWalk, Spec.rotate;
    cbn [skipn firstn app length Nat.ltb Nat.leb Nat.sub at_point nth lat lng];
    rewrite haversine_meridian_side by lra;
    apply gtb_true in Hside; rewrite Hside; reflexivity.
Qed.

(** The field walk ends 1112 m from where it starts and is closed by a
    copy of its first point; the walk out and back ends where it starts
    and is returned as it is. *)
Lemma createClosedPolygon_closes_witness :
  ((3 <= length fieldWalk)%nat
   /\ Spec.geodesic (hd point0 fieldWalk) (last fieldWalk point0) > 5
   /\ createClosedPolygon fieldWalk = fieldWalk ++ [hd point0 fieldWalk])
  /\ ((3 <= length outAndBack)%nat
      /\ Spec.geodesic (hd point0 outAndBack) (last outAndBack point0) <= 5
      /\ createClosedPolygon outAndBack = outAndBack).
Proof.
  assert (H1 : (3 <= length fieldWalk)%nat) by (simpl; lia).
  assert (G1 : Spec.geodesic (hd point0 fieldWalk) (last fieldWalk point0) > 5).
  { rewrite <- pointDistance_geodesic. unfold pointDistance, fieldWalk.
    cbn [hd last lat lng]. rewrite haversine_meridian_side by lra.
    apply side_exceeds_threshold. }
  assert (H2 : (3 <= length outAndBack)%nat) by (simpl; lia).
  assert (G2 : Spec.geodesic (hd point0 outAndBack) (last outAndBack point0) <= 5).
  { rewrite <- pointDistance_geodesic. unfold pointDistance, outAndBack.
    cbn [hd last lat lng]. rewrite haversine_same. lra. }
  split.
  - split; [exact H1|split; [exact G1|]].
    apply (proj1 (createClosedPolygon_closes fieldWalk H1)). exact G1.
  - split; [exact H2|split; [exact G2|]].
    apply (proj1 (proj2 (createClosedPolygon_closes outAndBack H2))). exact G2.
Defined.

(** Along the equator from longitude 0 over 1 to 3 degrees the perimeter
    is the arc of 3 degrees. *)
Lemma calculatePerimeter_consecutive_edges_witness :
  calculatePerimeter equatorPath = 6371000 * (3 * PI / 180).
Proof.
  rewrite (proj1 (calculatePerimeter_consecutive_edges equatorPath)).
  unfold equatorPath. cbn [Spec.consecutive map Spec.sumR fold_right fst snd].
  rewrite <- !pointDistance_geodesic. unfold pointDistance. cbn [lat lng].
  rewrite !haversine_equator by lra. unfold EARTH_RADIUS, toRadians. lra.
Defined.

Lemma smallField_flatArea : Spec.flatArea smallField = 6160.5.
Proof.
  unfold Spec.flatArea.
  assert (Hm : Spec.radians (Spec.meanLatitude smallField) = PI / 3).
  { unfold Spec.radians, Spec.meanLatitude, smallField.
    cbn [map lat Spec.sumR fold_right length INR]. lra. }
  rewrite Hm. unfold Spec.shoelaceSum, Spec.pathSum, smallField.
  cbn [map Spec.consecutive Spec.sumR fold_right fst snd].
  unfold Spec.cross, Spec.planar. cbn [x y lat lng].
  rewrite cos_PI3.
  match goal with
  | |- Rabs (?e / 2) = _ => replace (e / 2) with (- 6160.5) by lra
  end.
  rewrite Rabs_left by lra. lra.
Qed.

(** The small field, 0.002 degrees across, is measured in flat mode, with
    the longitude scaled by the cosine of 60 degrees; the three points a
    degree apart are measured in projected mode. *)
Lemma calculateArea_mode_selection_witness :
  ((3 <= length smallField)%nat
   /\ useProjForLargeFields smallField = false
   /\ calculateArea failingProj4 smallField = 6160.5)
  /\ ((3 <= length threePoints)%nat
      /\ useProjForLargeFields threePoints = true
      /\ calculateArea failingProj4 threePoints
         = calculateAreaWithProjection failingProj4 threePoints).
Proof.
  assert (H1 : (3 <= length smallField)%nat) by (simpl; lia).
  assert (F1 : useProjForLargeFields smallField = false).
  { unfold useProjForLargeFields, smallField.
    cbn [map lat lng Math_max Math_min fold_left].
    eval_minmax. apply orb_false_iff.
    split; apply gtb_false; lra. }
  assert (H2 : (3 <= length threePoints)%nat) by (simpl; lia).
  assert (F2 : useProjForLargeFields threePoints = true).
  { apply (proj1 (calculateArea_mode_selection failingProj4 threePoints H2)).
    left. exists (mkPoint 1 1 4000 5), (mkPoint 0 0 0 5).
    unfold threePoints. cbn [In lat]. split; [tauto|split; [tauto|lra]]. }
  split.
  - split; [exact H1|split; [exact F1|]].
    rewrite (proj2 (proj2 (proj2 (calculateArea_mode_selection
                                    failingProj4 smallField H1)) F1)).
    apply smallField_flatArea.
  - split; [exact H2|split; [exact F2|]].
    apply (proj1 (proj2 (calculateArea_mode_selection
                           failingProj4 threePoints H2)) F2).
Defined.

Lemma fieldWalk_flat (k : nat) :
  useProjForLargeFields (Spec.closeRing (Spec.rotate k fieldWalk)) = false.
Proof.
  rewrite (useProjForLargeFields_members fieldWalk).
  - unfold useProjForLargeFields, fieldWalk.
    cbn [map lat lng Math_max Math_min fold_left].
    eval_minmax. apply orb_false_iff.
    split; apply gtb_false; lra.
  - discriminate.
  - intro p. rewrite closeRing_members. apply rotate_members.
Qed.

Lemma field_scale_positive (m : R) :
  0 <= m <= 90 - 1 -> 0 < cos (toRadians m).
Proof.
  intro Hm. pose proof PI_RGT_0 as Hpi.
  assert (H0 : 0 <= m * PI) by nra.
  assert (H1 : m * PI <= 89 * PI) by nra.
  apply cos_gt_0; unfold toRadians; lra.
Qed.

Lemma fieldWalk_area (proj4 : UtmDef -> R * R -> option (R * R)) :
  calculateArea proj4 (Spec.closeRing (Spec.rotate 0 fieldWalk)) =
  1232100 * cos (toRadians 45.004).
Proof.
  unfold calculateArea. rewrite fieldWalk_flat.
  unfold calculateAreaWithShoelace, shoelaceLoop, for_range, at_xy, reduce_sum.
  cbn [Spec.closeRing Spec.rotate skipn firstn fieldWalk app map length
       Nat.ltb Nat.leb Nat.sub seq fold_left nth Nat.add x y lat lng].
  replace ((0 + 45 + 45 + 45.01 + 45.01 + 45) / INR 5) with 45.004
    by (simpl; lra).
  pose proof (field_scale_positive 45.004) as Hk.
  set (k := cos (toRadians 45.004)) in *.
  assert (0 < k) by (apply Hk; lra).
  rewrite Rabs_pos_eq; lra.
Qed.

Lemma fieldWalk_later_area (proj4 : UtmDef -> R * R -> option (R * R)) :
  calculateArea proj4 (Spec.closeRing (Spec.rotate 2 fieldWalk)) =
  1232100 * cos (toRadians 45.006).
Proof.
  unfold calculateArea. rewrite fieldWalk_flat.
  unfold calculateAreaWithShoelace, shoelaceLoop, for_range, at_xy, reduce_sum.
  cbn [Spec.closeRing Spec.rotate skipn firstn fieldWalk app map length
       Nat.ltb Nat.leb Nat.sub seq fold_left nth Nat.add x y lat lng].
  replace ((0 + 45.01 + 45.01 + 45 + 45 + 45.01) / INR 5) with 45.006
    by (simpl; lra).
  pose proof (field_scale_positive 45.006) as Hk.
  set (k := cos (toRadians 45.006)) in *.
  assert (0 < k) by (apply Hk; lra).
  rewrite Rabs_pos_eq; lra.
Qed.

(** The two longitude scales are more than [10^-5] apart. *)
Lemma field_scales_apart :
  cos (toRadians 45.004) - cos (toRadians 45.006) >= 1 / 100000.
Proof.
  pose proof PI2_3_2 as Hlo. pose proof PI_4 as Hhi.
  rewrite form2.
  set (u := toRadians 0.001).
  set (v := toRadians 45.005).
  replace ((toRadians 45.004 - toRadians 45.006) / 2) with (- u)
    by (unfold u, toRadians; lra).
  replace ((toRadians 45.004 + toRadians 45.006) / 2) with v
    by (unfold v, toRadians; lra).
  rewrite sin_neg.
  assert (Hu : 1 / 60000 <= u <= 1 / 40000) by (unfold u, toRadians; lra).
  assert (Hv : 3 / 4 <= v <= PI / 2) by (unfold v, toRadians; lra).
  assert (Hsu : u / 2 <= sin u).
  { destruct (sin_bound u 0) as [Hlb _]; [lra|lra|].
    unfold sin_approx, sum_f_R0, sin_term in Hlb. simpl in Hlb.
    assert (0 <= u * u <= 1) by nra. nra. }
  assert (Hsv : 2 / 3 <= sin v).
  { apply Rle_trans with (sin (3 / 4)).
    - destruct (sin_bound (3 / 4) 0) as [Hlb _]; [lra|lra|].
      unfold sin_approx, sum_f_R0, sin_term in Hlb. simpl in Hlb. lra.
    - apply sin_incr_1; lra. }
  assert (Hpos : 0 <= sin u) by lra.
  nra.
Qed.

(** C8 (as stated) fails for rotation.  The field walk and the same walk
    started at the opposite corner are both closed by appending their
    start, and their areas differ, by more than the two decimals a result
    shows: the mean latitude is taken over the closed sequence, in which
    the start vertex counts twice. *)
Lemma area_rotation_counterexample :
  createClosedPolygon fieldWalk = Spec.closeRing fieldWalk
  /\ createClosedPolygon (Spec.rotate 2 fieldWalk)
     = Spec.closeRing (Spec.rotate 2 fieldWalk)
  /\ calculateArea failingProj4 (createClosedPolygon fieldWalk)
     = 1232100 * cos (toRadians 45.004)
  /\ calculateArea failingProj4 (createClosedPolygon (Spec.rotate 2 fieldWalk))
     = 1232100 * cos (toRadians 45.006)
  /\ calculateArea failingProj4 (createClosedPolygon (Spec.rotate 2 fieldWalk))
     <> calculateArea failingProj4 (createClosedPolygon fieldWalk)
  /\ toFixed 2 (calculateArea failingProj4 (createClosedPolygon (Spec.rotate 2 fieldWalk)))
     <> toFixed 2 (calculateArea failingProj4 (createClosedPolygon fieldWalk)).
Proof.
  pose proof (fieldWalk_closed 0 (or_introl eq_refl)) as H0.
  pose proof (fieldWalk_closed 2 (or_intror eq_refl)) as H2.
  change (Spec.rotate 0 fieldWalk) with fieldWalk in H0.
  pose proof (fieldWalk_area failingProj4) as A0.
  change (Spec.rotate 0 fieldWalk) with fieldWalk in A0.
  pose proof (fieldWalk_later_area failingProj4) as A2.
  pose proof field_scales_apart as Hapart.
  pose proof (field_scale_positive 45.006) as Hk.
  assert (0 < cos (toRadians 45.006)) by (apply Hk; lra).
  rewrite H0, H2, A0, A2.
  repeat split; try lra.
  intro Heq. symmetry in Heq. revert Heq.
  apply toFixed_apart; simpl; lra.
Qed.

Lemma fieldWalk_same_parameters :
  Spec.meanLatitude (Spec.closeRing (Spec.rotate 1 fieldWalk)) =
  Spec.meanLatitude (Spec.closeRing fieldWalk)
  /\ utmOf (Spec.closeRing (Spec.rotate 1 fieldWalk)) =
     utmOf (Spec.closeRing fieldWalk).
Proof.
  split.
  - unfold Spec.meanLatitude, fieldWalk. simpl. lra.
  - assert (Hzone : forall c, 0 <= c <= 0.01 ->
                     (Zfloor ((c + 180) / 6) + 1 = 31)%Z).
    { intros c Hc. rewrite (Zfloor_eq 30); [reflexivity|]. lra. }
    assert (Hnorth : forall m, 0 <= m -> geb m 0 = true).
    { intros m Hm. unfold geb. destruct (Rge_dec m 0); [reflexivity|lra]. }
    unfold utmOf, reduce_sum, fieldWalk.
    cbn [Spec.closeRing Spec.rotate skipn firstn app fold_left length lat lng].
    rewrite !Hzone, !Hnorth; [reflexivity| | | |]; simpl; lra.
Qed.

(** C8 (as the code has it).  Reversing the traversal flips the sign of
    the shoelace sum and leaves the area unchanged.  Rotating the start
    index of an explicitly closed polygon leaves the shoelace sum of any
    planar vertices unchanged, and leaves the area unchanged when the
    mean latitude and the UTM definition, both computed over the closed
    sequence in which the start vertex counts twice, are unchanged. *)
Theorem area_traversal_invariance (proj4 : UtmDef -> R * R -> option (R * R)) :
  (forall vertices : list XY,
     Spec.shoelaceSum (rev vertices) = - Spec.shoelaceSum vertices)
  /\ (forall closedCoords : list Point,
        calculateArea proj4 (rev closedCoords) = calculateArea proj4 closedCoords)
  /\ (forall (k : nat) (vertices : list XY),
        Spec.shoelaceSum (Spec.closeRing (Spec.rotate k vertices)) =
        Spec.shoelaceSum (Spec.closeRing vertices))
  /\ (forall (k : nat) (ring : list Point),
        Spec.meanLatitude (Spec.closeRing (Spec.rotate k ring)) =
        Spec.meanLatitude (Spec.closeRing ring) ->
        utmOf (Spec.closeRing (Spec.rotate k ring)) = utmOf (Spec.closeRing ring) ->
        calculateArea proj4 (Spec.closeRing (Spec.rotate k ring)) =
        calculateArea proj4 (Spec.closeRing ring)).
Proof.
  split; [exact shoelaceSum_rev|].
  split; [exact (calculateArea_rev proj4)|].
  split; [exact shoelaceSum_rotate|].
  exact (calculateArea_rotate proj4).
Qed.

Lemma area_traversal_invariance_witness :
  Spec.meanLatitude (Spec.closeRing (Spec.rotate 1 fieldWalk)) =
  Spec.meanLatitude (Spec.closeRing fieldWalk)
  /\ utmOf (Spec.closeRing (Spec.rotate 1 fieldWalk)) =
     utmOf (Spec.closeRing fieldWalk)
  /\ calculateArea identityProj4 (Spec.closeRing (Spec.rotate 1 fieldWalk)) =
     calculateArea identityProj4 (Spec.closeRing fieldWalk).
Proof.
  destruct fieldWalk_same_parameters as [Hmean Hutm].
  split; [exact Hmean|]. split; [exact Hutm|].
  exact (proj2 (proj2 (proj2 (area_traversal_invariance identityProj4)))
           1%nat fieldWalk Hmean Hutm).
Defined.

(* ================================================================== *)
(** ** Further properties of the haversine distance *)
(* ================================================================== *)

Import Samples.

Lemma atan_nonneg (t : R) : 0 <= t -> 0 <= atan t.
Proof.
  intros [Hpos | <-].
  - left. rewrite <- atan_0. apply atan_increasing. exact Hpos.
  - rewrite atan_0. lra.
Qed.

(** [Math.atan2] of two non-negative arguments lies in the first
    quadrant. *)
Lemma Math_atan2_quadrant (y0 x0 : R) :
  0 <= y0 -> 0 <= x0 -> 0 <= Math_atan2 y0 x0 <= PI / 2.
Proof.
  intros Hy Hx. unfold Math_atan2. pose proof PI_RGT_0 as Hpi.
  destruct (Rgt_dec x0 0) as [Hx0|Hx0].
  - split.
    + apply atan_nonneg. apply Rmult_le_pos; [exact Hy|].
      left. apply Rinv_0_lt_compat. exact Hx0.
    + left. destruct (atan_bound (y0 / x0)) as [_ H]. exact H.
  - destruct (Rlt_dec x0 0); [lra|].
    destruct (Rgt_dec y0 0); [lra|].
    destruct (Rlt_dec y0 0); lra.
Qed.

Lemma haversine_range (lat1 lng1 lat2 lng2 : R) :
  0 <= haversineDistance lat1 lng1 lat2 lng2 <= PI * EARTH_RADIUS.
Proof.
  unfold haversineDistance.
  match goal with
  | |- context [Math_atan2 ?u ?v] =>
      pose proof (Math_atan2_quadrant u v (sqrt_pos _) (sqrt_pos _)) as H
  end.
  unfold EARTH_RADIUS. split; nra.
Qed.

(** X2.  The haversine distance does not depend on the order of its two
    points, and is zero between a point and itself. *)
Theorem haversineDistance_symmetric (lat1 lng1 lat2 lng2 : R) :
  haversineDistance lat1 lng1 lat2 lng2 = haversineDistance lat2 lng2 lat1 lng1
  /\ haversineDistance lat1 lng1 lat1 lng1 = 0.
Proof.
  split; [|apply haversine_same].
  unfold haversineDistance.
  replace (toRadians (lat1 - lat2) / 2) with (- (toRadians (lat2 - lat1) / 2))
    by (unfold toRadians; lra).
  replace (toRadians (lng1 - lng2) / 2) with (- (toRadians (lng2 - lng1) / 2))
    by (unfold toRadians; lra).
  rewrite !sin_neg.
  set (s1 := sin (toRadians (lat2 - lat1) / 2)).
  set (s2 := sin (toRadians (lng2 - lng1) / 2)).
  set (c1 := cos (toRadians lat1)). set (c2 := cos (toRadians lat2)).
  replace (- s1 * - s1 + c2 * c1 * - s2 * - s2)
    with (s1 * s1 + c1 * c2 * s2 * s2) by ring.
  reflexivity.
Qed.

(** The squares of the sines of two angles of the first quadrant add up
    to at most the square of the sine of their sum. *)
Lemma sin_sqr_sum (p q : R) :
  0 <= p -> 0 <= q -> p + q <= PI / 2 ->
  sin p * sin p + sin q * sin q <= sin (p + q) * sin (p + q).
Proof.
  intros Hp Hq Hpq. pose proof PI_RGT_0 as Hpi.
  assert (Hsp : 0 <= sin p) by (apply sin_ge_0; lra).
  assert (Hsq : 0 <= sin q) by (apply sin_ge_0; lra).
  assert (Hc : 0 <= cos (p + q)) by (apply cos_ge_0; lra).
  assert (E : sin (p + q) * sin (p + q) - sin p * sin p - sin q * sin q
              = 2 * (sin p * sin q) * cos (p + q)).
  { rewrite sin_plus, cos_plus.
    pose proof (sin2_cos2 p) as Hu. pose proof (sin2_cos2 q) as Hv.
    unfold Rsqr in Hu, Hv.
    set (sp := sin p) in *. set (sq := sin q) in *.
    set (cp := cos p) in *. set (cq := cos q) in *.
    assert (Hcp : cp * cp = 1 - sp * sp) by lra.
    assert (Hcq : cq * cq = 1 - sq * sq) by lra.
    transitivity (sp * sp * (cq * cq) + (cp * cp) * (sq * sq)
                  + 2 * sp * sq * cp * cq - sp * sp - sq * sq); [ring|].
    rewrite Hcp, Hcq. ring. }
  assert (0 <= sin p * sin q) by (apply Rmult_le_pos; assumption).
  assert (0 <= 2 * (sin p * sin q) * cos (p + q)) by (apply Rmult_le_pos; lra).
  lra.
Qed.

Lemma asin_sqrt_le (a t : R) :
  0 <= a -> 0 <= t <= PI / 2 -> a <= sin t * sin t -> asin (sqrt a) <= t.
Proof.
  intros Ha Ht Hle. pose proof PI_RGT_0 as Hpi.
  assert (Hst : 0 <= sin t) by (apply sin_ge_0; lra).
  assert (Hs1 : sin t <= 1) by (pose proof (SIN_bound t); lra).
  assert (Hsq : sqrt a <= sin t).
  { rewrite <- (sqrt_Rsqr (sin t)) by exact Hst.
    apply sqrt_le_1_alt. unfold Rsqr. exact Hle. }
  pose proof (sqrt_pos a) as Hs0.
  apply sin_incr_0; try lra.
  - pose proof (asin_bound (sqrt a)); lra.
  - pose proof (asin_bound (sqrt a)); lra.
  - rewrite sin_asin by lra. exact Hsq.
Qed.

Lemma sin_sqr_abs (t : R) :
  sin (toRadians t / 2) * sin (toRadians t / 2)
  = sin (toRadians (Rabs t) / 2) * sin (toRadians (Rabs t) / 2).
Proof.
  unfold Rabs. destruct (Rcase_abs t); [|reflexivity].
  replace (toRadians (- t) / 2) with (- (toRadians t / 2))
    by (unfold toRadians; lra).
  rewrite sin_neg. ring.
Qed.

(** X1.  Two points whose differences of latitude and of longitude add
    up to at most 90 degrees are never further apart than the arc of
    their latitude difference plus the arc of their longitude difference
    on the sphere of radius 6371000 m, and never at a negative
    distance. *)
Theorem haversineDistance_bounds (lat1 lng1 lat2 lng2 : R) :
  Rabs (lat2 - lat1) + Rabs (lng2 - lng1) <= 90 ->
  0 <= haversineDistance lat1 lng1 lat2 lng2
    <= 6371000 * (PI / 180) * (Rabs (lat2 - lat1) + Rabs (lng2 - lng1)).
Proof.
  intro Hsum. split; [apply haversine_range|].
  pose proof PI_RGT_0 as Hpi.
  pose proof (Rabs_pos (lat2 - lat1)) as Hp0.
  pose proof (Rabs_pos (lng2 - lng1)) as Hq0.
  unfold haversineDistance, EARTH_RADIUS.
  set (p := toRadians (Rabs (lat2 - lat1)) / 2).
  set (q := toRadians (Rabs (lng2 - lng1)) / 2).
  assert (Hp : 0 <= p) by (unfold p, toRadians; nra).
  assert (Hq : 0 <= q) by (unfold q, toRadians; nra).
  assert (Hpq : p + q <= PI / 4) by (unfold p, q, toRadians; nra).
  set (a := sin (toRadians (lat2 - lat1) / 2) * sin (toRadians (lat2 - lat1) / 2)
            + cos (toRadians lat1) * cos (toRadians lat2)
              * sin (toRadians (lng2 - lng1) / 2)
              * sin (toRadians (lng2 - lng1) / 2)).
  assert (Ha : 0 <= a <= 1).
  { unfold a.
    replace (toRadians (lat2 - lat1)) with (toRadians lat2 - toRadians lat1)
      by (unfold toRadians; lra).
    apply haversine_term. }
  assert (Hle : a <= sin (p + q) * sin (p + q)).
  { apply Rle_trans with (sin p * sin p + sin q * sin q);
      [|apply sin_sqr_sum; lra].
    unfold a, p, q. rewrite <- !sin_sqr_abs.
    set (s1 := sin (toRadians (lat2 - lat1) / 2)).
    set (s2 := sin (toRadians (lng2 - lng1) / 2)).
    pose proof (COS_bound (toRadians lat1)) as H1.
    pose proof (COS_bound (toRadians lat2)) as H2.
    assert (Hc : cos (toRadians lat1) * cos (toRadians lat2) <= 1) by nra.
    pose proof (Rle_0_sqr s2) as Hs2. unfold Rsqr in Hs2.
    replace (cos (toRadians lat1) * cos (toRadians lat2) * s2 * s2)
      with (cos (toRadians lat1) * cos (toRadians lat2) * (s2 * s2)) by ring.
    nra. }
  rewrite atan2_sqrt_asin by exact Ha.
  assert (Hasin : asin (sqrt a) <= p + q)
    by (apply asin_sqrt_le; [lra|lra|exact Hle]).
  unfold p, q, toRadians in Hasin. lra.
Qed.

Lemma haversineDistance_bounds_witness :
  Rabs (0.01 - 0) + Rabs (0.02 - 0) <= 90
  /\ 0 <= haversineDistance 0 0 0.01 0.02
       <= 6371000 * (PI / 180) * (Rabs (0.01 - 0) + Rabs (0.02 - 0)).
Proof.
  assert (H : Rabs (0.01 - 0) + Rabs (0.02 - 0) <= 90)
    by (rewrite !Rabs_pos_eq by lra; lra).
  split; [exact H|]. apply (haversineDistance_bounds 0 0 0.01 0.02 H).
Defined.

Lemma pointDistance_nonneg (p q : Point) : 0 <= pointDistance p q.
Proof. unfold pointDistance. apply haversine_range. Qed.

Lemma pathSum_nonneg {A : Type} (f : A -> A -> R) (l : list A) :
  (forall a b, 0 <= f a b) -> 0 <= Spec.pathSum f l.
Proof.
  intro Hf. unfold Spec.pathSum.
  induction (Spec.consecutive l) as [|e es IH]; simpl; [lra|].
  specialize (Hf (fst e) (snd e)). lra.
Qed.

(* ================================================================== *)
(** ** Further properties of closing, perimeter and area *)
(* ================================================================== *)

Lemma at_point_app_0 (l : list Point) (a : Point) :
  l <> [] -> at_point (l ++ [a]) 0 = at_point l 0.
Proof. destruct l; [congruence|reflexivity]. Qed.

Lemma createClosedPolygon_cases (coords : list Point) :
  createClosedPolygon coords = coords
  \/ createClosedPolygon coords = coords ++ [at_point coords 0].
Proof.
  unfold createClosedPolygon.
  destruct (length coords <? 3)%nat; [now left|].
  destruct (gtb _ POLYGON_CLOSURE_THRESHOLD); [now right|now left].
Qed.

(** X3.  Closing is idempotent: a closed polygon is returned unchanged
    when closed again.  Closing keeps the recorded points in order and
    adds at most one point, a copy of the first. *)
Theorem createClosedPolygon_idempotent (coords : list Point) :
  createClosedPolygon (createClosedPolygon coords) = createClosedPolygon coords
  /\ (createClosedPolygon coords = coords
      \/ createClosedPolygon coords = coords ++ [at_point coords 0]).
Proof.
  split; [|apply createClosedPolygon_cases].
  destruct (Nat.ltb_spec (length coords) 3) as [Hlt|Hge].
  - assert (Hc : createClosedPolygon coords = coords).
    { unfold createClosedPolygon.
      destruct (Nat.ltb_spec (length coords) 3); [reflexivity|lia]. }
    rewrite !Hc. reflexivity.
  - assert (Hne : coords <> [])
      by (destruct coords; [simpl in Hge; lia|discriminate]).
    destruct (createClosedPolygon_cases coords) as [Hc|Hc]; rewrite !Hc.
    + reflexivity.
    + unfold createClosedPolygon.
      destruct (Nat.ltb_spec (length (coords ++ [at_point coords 0])) 3) as [|_];
        [reflexivity|].
      rewrite at_point_last, at_point_app_0 by exact Hne.
      rewrite haversine_same.
      unfold gtb, POLYGON_CLOSURE_THRESHOLD.
      destruct (Rgt_dec 0 5); [lra|reflexivity].
Qed.

Lemma calculateArea_nonneg
      (proj4 : UtmDef -> R * R -> option (R * R)) (closedCoords : list Point) :
  0 <= calculateArea proj4 closedCoords.
Proof.
  unfold calculateArea, calculateAreaWithProjection, projectedArea,
    calculateAreaWithShoelace.
  destruct (length closedCoords <? 3)%nat; [lra|].
  destruct (useProjForLargeFields closedCoords).
  - destruct (map_throwing _ closedCoords) as [utmCoords|].
    + pose proof (Rabs_pos (shoelaceLoop utmCoords)). lra.
    + match goal with |- 0 <= Rabs ?s / 2 => pose proof (Rabs_pos s) end. lra.
  - match goal with |- 0 <= Rabs ?s / 2 => pose proof (Rabs_pos s) end. lra.
Qed.

Lemma calculatePerimeter_nonneg (closedCoords : list Point) :
  0 <= calculatePerimeter closedCoords.
Proof.
  rewrite calculatePerimeter_sum. unfold Spec.perimeter.
  apply pathSum_nonneg. apply pointDistance_nonneg.
Qed.

Lemma toFixed_nonneg (d : nat) (v : R) : 0 <= v -> (0 <= units (toFixed d v))%Z.
Proof.
  intro Hv. unfold toFixed. destruct (Rlt_dec v 0); [lra|]. cbn [units].
  apply (Zfloor_lub 0). pose proof (pow10_pos d). simpl. nra.
Qed.

(** X4.  Areas and perimeters are never negative, whatever the input and
    whatever the projection library does; closing never shortens the
    perimeter; and the figures a result shows are never negative. *)
Theorem area_and_perimeter_nonnegative
        (proj4 : UtmDef -> R * R -> option (R * R)) (coords : list Point) (st : State) :
  0 <= calculateArea proj4 coords
  /\ 0 <= calculatePerimeter coords
  /\ calculatePerimeter coords <= calculatePerimeter (createClosedPolygon coords)
  /\ (exists r,
        results (calculateResultsWithCoordinates proj4 coords st) = Some r
        /\ (0 <= units (areaSquareMeters r))%Z
        /\ (0 <= units (distance r))%Z
        /\ (0 <= units (acres r))%Z
        /\ (0 <= units (hectares r))%Z
        /\ (0 <= units (guntalu r))%Z).
Proof.
  split; [apply calculateArea_nonneg|].
  split; [apply calculatePerimeter_nonneg|].
  split.
  - rewrite !calculatePerimeter_sum.
    destruct (createClosedPolygon_cases coords) as [-> | ->]; [lra|].
    destruct (snoc_cases coords) as [-> | (l & a & ->)].
    + simpl. unfold Spec.perimeter, Spec.pathSum. simpl. lra.
    + rewrite perimeter_snoc.
      pose proof (pointDistance_nonneg a (at_point (l ++ [a]) 0)). lra.
  - eexists. split; [reflexivity|].
    cbn [areaSquareMeters distance acres hectares guntalu].
    pose proof (calculateArea_nonneg proj4 (createClosedPolygon coords)) as Ha.
    pose proof (calculatePerimeter_nonneg (createClosedPolygon coords)) as Hp.
    repeat split; apply toFixed_nonneg; try assumption; lra.
Qed.

Lemma pathSum_plus {A : Type} (f g : A -> A -> R) (l : list A) :
  Spec.pathSum (fun a b => f a b + g a b) l = Spec.pathSum f l + Spec.pathSum g l.
Proof.
  unfold Spec.pathSum.
  induction (Spec.consecutive l) as [|e es IH]; simpl; [lra|]. rewrite IH. lra.
Qed.

Lemma pathSum_scale {A : Type} (c : R) (f : A -> A -> R) (l : list A) :
  Spec.pathSum (fun a b => c * f a b) l = c * Spec.pathSum f l.
Proof.
  unfold Spec.pathSum.
  induction (Spec.consecutive l) as [|e es IH]; simpl; [lra|]. rewrite IH. lra.
Qed.

(** A sum of successive differences telescopes. *)
Lemma pathSum_telescope {A : Type} (g : A -> R) (d : A) (l : list A) :
  Spec.pathSum (fun a b => g b - g a) l = g (last l d) - g (hd d l).
Proof.
  induction l as [|a l IH]; [unfold Spec.pathSum; simpl; lra|].
  destruct l as [|b t]; [unfold Spec.pathSum; simpl; lra|].
  rewrite pathSum_cons2, IH, last_cons_cons. cbn [hd]. lra.
Qed.

Lemma pathSum_map {A B : Type} (f : B -> B -> R) (g : A -> B) (l : list A) :
  Spec.pathSum f (map g l) = Spec.pathSum (fun a b => f (g a) (g b)) l.
Proof.
  induction l as [|a l IH]; [reflexivity|].
  destruct l as [|b t]; [reflexivity|].
  cbn [map]. rewrite !pathSum_cons2. cbn [map] in IH. rewrite IH. reflexivity.
Qed.

Lemma meanLatitude_shiftLng (delta : R) (l : list Point) :
  Spec.meanLatitude (map (shiftLng delta) l) = Spec.meanLatitude l.
Proof.
  unfold Spec.meanLatitude. rewrite map_map, length_map. reflexivity.
Qed.

(** X5.  Moving a whole track east by [delta] degrees changes the
    flat-mode shoelace sum by [delta] times the longitude scale times the
    northing of the last point relative to the first.  The flat-mode area
    is therefore independent of the longitude at which a field lies
    exactly when the sequence ends at the latitude it starts from, as it
    does when the first point was appended. *)
Theorem flat_area_longitude_shift (delta : R) (l : list Point) :
  let scale := 111000 * cos (toRadians (Spec.meanLatitude l)) in
  calculateAreaWithShoelace (map (shiftLng delta) l) =
    Rabs (Spec.shoelaceSum (map (Spec.planar (toRadians (Spec.meanLatitude l))) l)
          + delta * scale * (111000 * (lat (last l point0) - lat (hd point0 l))))
    / 2
  /\ (lat (last l point0) = lat (hd point0 l) ->
      calculateAreaWithShoelace (map (shiftLng delta) l) =
      calculateAreaWithShoelace l).
Proof.
  intro scale.
  assert (Hmain :
    calculateAreaWithShoelace (map (shiftLng delta) l) =
    Rabs (Spec.shoelaceSum (map (Spec.planar (toRadians (Spec.meanLatitude l))) l)
          + delta * scale * (111000 * (lat (last l point0) - lat (hd point0 l))))
    / 2).
  { rewrite calculateAreaWithShoelace_flat. unfold Spec.flatArea.
    rewrite <- !toRadians_radians.
    rewrite meanLatitude_shiftLng, <- Rabs_half. do 2 f_equal.
    unfold Spec.shoelaceSum. rewrite !pathSum_map.
    set (m := toRadians (Spec.meanLatitude l)).
    rewrite (pathSum_ext _
               (fun a b => Spec.cross (Spec.planar m a) (Spec.planar m b)
                           + delta * scale * (111000 * (lat b - lat a)))).
    - rewrite pathSum_plus, pathSum_scale.
      rewrite (pathSum_scale 111000 (fun a b => lat b - lat a)).
      rewrite (pathSum_telescope lat point0). reflexivity.
    - intros a b. unfold Spec.cross, Spec.planar, shiftLng, scale. cbn [x y lat lng].
      fold m. ring. }
  split; [exact Hmain|].
  intro Hclosed. rewrite Hmain, Hclosed, calculateAreaWithShoelace_flat.
  unfold Spec.flatArea. rewrite <- toRadians_radians, <- Rabs_half.
  do 2 f_equal. ring.
Qed.

Lemma flat_area_longitude_shift_witness :
  lat (last (Spec.closeRing fieldWalk) point0)
  = lat (hd point0 (Spec.closeRing fieldWalk))
  /\ calculateAreaWithShoelace (map (shiftLng 78) (Spec.closeRing fieldWalk)) =
     calculateAreaWithShoelace (Spec.closeRing fieldWalk).
Proof.
  assert (H : lat (last (Spec.closeRing fieldWalk) point0)
              = lat (hd point0 (Spec.closeRing fieldWalk))) by reflexivity.
  split; [exact H|].
  exact (proj2 (flat_area_longitude_shift 78 (Spec.closeRing fieldWalk)) H).
Defined.

(* ================================================================== *)
(** ** Invariants of a recording session *)
(* ================================================================== *)

Import Invariant.

Lemma in_skipn {A : Type} (k : nat) (l : list A) (a : A) :
  In a (skipn k l) -> In a l.
Proof.
  intro H. rewrite <- (firstn_skipn k l). apply in_or_app. now right.
Qed.

Lemma consecutive_tail_incl {A : Type} (a : A) (l : list A) (e : A * A) :
  In e (Spec.consecutive l) -> In e (Spec.consecutive (a :: l)).
Proof.
  destruct l as [|b t]; [intros []|]. intro H.
  change (Spec.consecutive (a :: b :: t)) with ((a, b) :: Spec.consecutive (b :: t)).
  now right.
Qed.

Lemma consecutive_skipn_incl {A : Type} (k : nat) (l : list A) (e : A * A) :
  In e (Spec.consecutive (skipn k l)) -> In e (Spec.consecutive l).
Proof.
  revert l. induction k as [|k IH]; intros l H; [exact H|].
  destruct l as [|a l]; [exact H|].
  apply consecutive_tail_incl, IH, H.
Qed.

Lemma lastOf_snoc (l : list Point) (a : Point) : lastOf (l ++ [a]) = Some a.
Proof.
  unfold lastOf. destruct (l ++ [a]) as [|b t] eqn:E.
  - destruct l; discriminate.
  - rewrite <- E, last_last. reflexivity.
Qed.

Lemma consecutive_snoc_in (l : list Point) (p : Point) (e : Point * Point) :
  In e (Spec.consecutive (l ++ [p])) ->
  In e (Spec.consecutive l) \/ exists q, lastOf l = Some q /\ e = (q, p).
Proof.
  destruct (snoc_cases l) as [-> | (l' & a & ->)]; [intros []|].
  rewrite consecutive_snoc. intro H. apply in_app_or in H.
  destruct H as [H|[<-|[]]]; [now left|right].
  exists a. split; [apply lastOf_snoc|reflexivity].
Qed.

Lemma perimeter_append (l : list Point) (p : Point) :
  Spec.perimeter (l ++ [p]) =
  Spec.perimeter l + match lastOf l with
                     | Some q => pointDistance q p
                     | None => 0
                     end.
Proof.
  unfold Spec.perimeter. rewrite pathSum_app.
  unfold Spec.link, lastOf. destruct l; unfold Spec.pathSum; simpl; lra.
Qed.

Lemma link_nonneg {A : Type} (f : A -> A -> R) (u v : list A) :
  (forall a b, 0 <= f a b) -> 0 <= Spec.link f u v.
Proof.
  intro Hf. unfold Spec.link. destruct u; [lra|]. destruct v; [lra|]. apply Hf.
Qed.

Lemma perimeter_skipn (k : nat) (l : list Point) :
  Spec.perimeter (skipn k l) <= Spec.perimeter l.
Proof.
  unfold Spec.perimeter. rewrite <- (firstn_skipn k l) at 2.
  rewrite pathSum_app.
  pose proof (pathSum_nonneg pointDistance (firstn k l) pointDistance_nonneg).
  pose proof (link_nonneg pointDistance (firstn k l) (skipn k l) pointDistance_nonneg).
  lra.
Qed.

(** The three outcomes of a tick, with everything they change. *)
Lemma recordGPSPoint_outcome (now : Z) (fix_ : Coords.t) (st : State) :
  let p := pointOf now fix_ in
  recordGPSPoint now fix_ st = set_skippedPointsCount (skippedPointsCount st + 1) st
  \/ (Coords.accuracy fix_ <= ACCURACY_THRESHOLD
      /\ lastRecordedPoint st = None
      /\ recordGPSPoint now fix_ st =
         set_lastRecordedPoint (Some p)
           (set_coordinates (retained (coordinates st) p) st))
  \/ (exists q,
        Coords.accuracy fix_ <= ACCURACY_THRESHOLD
        /\ lastRecordedPoint st = Some q
        /\ pointDistance q p >= MIN_DISTANCE_THRESHOLD
        /\ recordGPSPoint now fix_ st =
           set_lastRecordedPoint (Some p)
             (set_coordinates (retained (coordinates st) p)
                (set_currentDistance (cumulativeDistance st + pointDistance q p)
                   (set_cumulativeDistance
                      (cumulativeDistance st + pointDistance q p) st)))).
Proof.
  intro p. unfold recordGPSPoint, gtb, ltb.
  destruct (Rgt_dec (Coords.accuracy fix_) ACCURACY_THRESHOLD) as [|Hacc];
    [now left|].
  destruct (lastRecordedPoint st) as [q|] eqn:Hlast.
  - cbn [lat lng].
    destruct (Rlt_dec _ MIN_DISTANCE_THRESHOLD) as [|Hfar]; [now left|].
    right; right. exists q.
    split; [lra|]. split; [reflexivity|].
    split; [unfold pointDistance, p, pointOf; cbn [lat lng]; lra|].
    cbn [set_lastRecordedPoint set_coordinates set_currentDistance
         set_cumulativeDistance coordinates].
    rewrite retained_eq. reflexivity.
  - right; left. split; [lra|]. split; [reflexivity|].
    cbn [set_lastRecordedPoint set_coordinates coordinates].
    rewrite retained_eq. reflexivity.
Qed.

Lemma lastOf_none (l : list Point) : lastOf l = None -> l = [].
Proof. destruct l; [reflexivity|discriminate]. Qed.

Lemma retained_snoc (before : list Point) (p : Point) :
  (length before <= MAX_COORDINATES)%nat ->
  exists kept, retained before p = kept ++ [p]
               /\ forall a, In a kept -> In a before.
Proof.
  intro Hcap. unfold retained. rewrite length_app. cbn [length].
  rewrite skipn_app. pose proof MAX_COORDINATES_pos as Hpos.
  replace (length before + 1 - MAX_COORDINATES - length before)%nat with 0%nat by lia.
  cbn [skipn]. eexists. split; [reflexivity|].
  intros a Ha. eapply in_skipn, Ha.
Qed.

Lemma recording_appended (st : State) (p : Point) (total : R) :
  recording st ->
  accuracy p <= ACCURACY_THRESHOLD ->
  (forall q, lastRecordedPoint st = Some q ->
             pointDistance q p >= MIN_DISTANCE_THRESHOLD) ->
  Spec.perimeter (coordinates st ++ [p]) <= total ->
  accurate (retained (coordinates st) p)
  /\ wellSpaced (retained (coordinates st) p)
  /\ Some p = lastOf (retained (coordinates st) p)
  /\ (length (retained (coordinates st) p) <= MAX_COORDINATES)%nat
  /\ Spec.perimeter (retained (coordinates st) p) <= total.
Proof.
  intros (Hacc & Hsp & Hlast & Hcap & _ & _) Hp Hfar Htot.
  split; [|split; [|split; [|split]]].
  - intros a Ha. unfold retained in Ha. apply in_skipn in Ha.
    apply in_app_or in Ha. destruct Ha as [Ha|[<-|[]]]; [apply Hacc, Ha|exact Hp].
  - intros e He. unfold retained in He. apply consecutive_skipn_incl in He.
    apply consecutive_snoc_in in He.
    destruct He as [He|(q & Hq & ->)]; [apply Hsp, He|].
    cbn [fst snd]. apply Hfar. rewrite Hlast. exact Hq.
  - destruct (retained_snoc (coordinates st) p Hcap) as (kept & -> & _).
    symmetry. apply lastOf_snoc.
  - rewrite retained_length. lia.
  - unfold retained. eapply Rle_trans; [apply perimeter_skipn|exact Htot].
Qed.

Lemma recording_tick (now : Z) (fix_ : Coords.t) (st : State) :
  recording st -> recording (recordGPSPoint now fix_ st).
Proof.
  intro Hrec. pose proof Hrec as (Hacc & Hsp & Hlast & Hcap & Hcur & Hper).
  destruct (recordGPSPoint_outcome now fix_ st)
    as [-> | [(Hok & Hnone & ->) | (q & Hok & Hq & Hfar & ->)]].
  - exact Hrec.
  - destruct (recording_appended st (pointOf now fix_) (cumulativeDistance st) Hrec)
      as (A & B & C & D & E).
    + exact Hok.
    + intros q Hq. congruence.
    + rewrite perimeter_append, <- Hlast, Hnone. lra.
    + unfold recording.
      cbn [coordinates lastRecordedPoint currentDistance cumulativeDistance
           set_lastRecordedPoint set_coordinates].
      repeat split; assumption.
  - destruct (recording_appended st (pointOf now fix_)
                (cumulativeDistance st + pointDistance q (pointOf now fix_)) Hrec)
      as (A & B & C & D & E).
    + exact Hok.
    + intros q' Hq'. rewrite Hq in Hq'. injection Hq' as <-. exact Hfar.
    + rewrite perimeter_append, <- Hlast, Hq. lra.
    + unfold recording.
      cbn [coordinates lastRecordedPoint currentDistance cumulativeDistance
           set_lastRecordedPoint set_coordinates set_currentDistance
           set_cumulativeDistance].
      repeat split; assumption.
Qed.

Lemma recording_runEvents (events : list Event) :
  forall st, recording st -> recording (runEvents events st).
Proof.
  induction events as [|e rest IH]; intros st Hrec; [exact Hrec|].
  cbn [runEvents fold_left]. apply IH.
  destruct e as [position|now]; cbn [handle].
  - exact Hrec.
  - unfold onTick. destruct (currentPosition st); [|exact Hrec].
    apply recording_tick, Hrec.
Qed.

Lemma recording_start (st0 : State) : recording (startTracking true 1 1 st0).
Proof.
  unfold recording. cbn. unfold accurate, wellSpaced, Spec.perimeter, Spec.pathSum.
  cbn. repeat split; try (intros ? []); try lia; lra.
Qed.

Lemma recording_session (events : list Event) (st0 : State) :
  recording (session events st0).
Proof. apply recording_runEvents, recording_start. Qed.

(** X6.  At every moment of a session the recorded points all have an
    accuracy within the threshold, consecutive recorded points are at
    least the minimum distance apart, the last recorded point is the one
    new fixes are compared with, the sequence holds at most
    [MAX_COORDINATES] points, and the live distance shown equals the
    accumulated one and is never below the path length of the recorded
    points. *)
Theorem session_recording_invariant (events : list Event) (st0 : State) :
  let st := session events st0 in
  (forall p, In p (coordinates st) -> accuracy p <= ACCURACY_THRESHOLD)
  /\ (forall p q, In (p, q) (Spec.consecutive (coordinates st)) ->
                  pointDistance p q >= MIN_DISTANCE_THRESHOLD)
  /\ lastRecordedPoint st = lastOf (coordinates st)
  /\ (length (coordinates st) <= MAX_COORDINATES)%nat
  /\ currentDistance st = cumulativeDistance st
  /\ calculatePerimeter (coordinates st) <= currentDistance st.
Proof.
  intro st.
  destruct (recording_session events st0) as (Hacc & Hsp & Hlast & Hcap & Hcur & Hper).
  fold st in Hacc, Hsp, Hlast, Hcap, Hcur, Hper.
  split; [exact Hacc|]. split; [intros p q H; apply (Hsp (p, q) H)|].
  split; [exact Hlast|]. split; [exact Hcap|]. split; [exact Hcur|].
  rewrite calculatePerimeter_sum, Hcur. exact Hper.
Qed.

(* ================================================================== *)
(** ** Live distance and final perimeter *)
(* ================================================================== *)

(** While nothing has been trimmed, the accumulated distance is exactly
    the path length of the recorded points. *)
Lemma exact_distance_runEvents (events : list Event) :
  forall st,
  recording st ->
  cumulativeDistance st = Spec.perimeter (coordinates st) ->
  (length (coordinates st)
   + acceptedCount (verdicts Spec.config (currentPosition st)
                      (lastRecordedPoint st) events)
   <= MAX_COORDINATES)%nat ->
  cumulativeDistance (runEvents events st)
  = Spec.perimeter (coordinates (runEvents events st)).
Proof.
  induction events as [|e rest IH]; intros st Hrec Hex Hroom; [exact Hex|].
  cbn [runEvents fold_left]. fold (runEvents rest (handle e st)).
  destruct e as [position|now].
  - cbn [handle]. apply IH; [exact Hrec|exact Hex|exact Hroom].
  - cbn [handle verdicts] in *. unfold onTick in *.
    destruct (currentPosition st) as [fix_|] eqn:Hcur;
      [|apply IH; [exact Hrec|exact Hex|rewrite Hcur; exact Hroom]].
    pose proof (recording_tick now fix_ st Hrec) as Hrec'.
    pose proof (recordGPSPoint_currentPosition now fix_ st) as Hcp.
    pose proof (recordGPSPoint_verdict now fix_ st) as Hv.
    pose proof Hrec as (_ & _ & Hlast & _ & _ & _).
    rewrite acceptedCount_cons in Hroom.
    destruct (recordGPSPoint_outcome now fix_ st)
      as [Hout | [(Hok & Hnone & Hout) | (q & Hok & Hq & Hfar & Hout)]].
    + (* the state only gains a skipped point *)
      apply IH; [exact Hrec'|rewrite Hout; exact Hex|].
      rewrite Hcp, Hcur.
      destruct (Spec.fixFilter Spec.config fix_ (lastRecordedPoint st)) eqn:Hf.
      * destruct Hv as (Hc & _ & Hl & _). rewrite Hout in Hc, Hl.
        cbn [coordinates lastRecordedPoint set_skippedPointsCount] in Hc, Hl.
        pose proof (retained_length (coordinates st) (pointOf now fix_)) as Hlen.
        rewrite <- Hc in Hlen. cbn [isAccept] in Hroom. lia.
      * rewrite Hout. cbn [coordinates lastRecordedPoint set_skippedPointsCount].
        cbn [isAccept] in Hroom. lia.
      * rewrite Hout. cbn [coordinates lastRecordedPoint set_skippedPointsCount].
        cbn [isAccept] in Hroom. lia.
    + assert (Hf : Spec.fixFilter Spec.config fix_ (lastRecordedPoint st) = Spec.Accept).
      { rewrite fixFilter_code. cbn [Spec.config Spec.accuracyThresholdMeters].
        destruct (Rgt_dec _ ACCURACY_THRESHOLD); [lra|]. rewrite Hnone. reflexivity. }
      rewrite Hf in Hroom. cbn [isAccept] in Hroom.
      apply IH; [exact Hrec'| |].
      * rewrite Hout.
        cbn [coordinates cumulativeDistance set_lastRecordedPoint set_coordinates].
        rewrite retained_small by lia.
        rewrite perimeter_append, <- Hlast, Hnone. lra.
      * rewrite Hcp, Hcur, Hout.
        cbn [coordinates lastRecordedPoint set_lastRecordedPoint set_coordinates].
        rewrite retained_small by lia. rewrite length_app. cbn [length].
        rewrite Hf in *. lia.
    + assert (Hf : Spec.fixFilter Spec.config fix_ (lastRecordedPoint st) = Spec.Accept).
      { rewrite fixFilter_code.
        cbn [Spec.config Spec.accuracyThresholdMeters Spec.minDistanceThresholdMeters].
        destruct (Rgt_dec _ ACCURACY_THRESHOLD); [lra|]. rewrite Hq.
        unfold pointDistance, pointOf in Hfar. cbn [lat lng] in Hfar.
        destruct (Rlt_dec _ MIN_DISTANCE_THRESHOLD); [lra|reflexivity]. }
      rewrite Hf in Hroom. cbn [isAccept] in Hroom.
      apply IH; [exact Hrec'| |].
      * rewrite Hout.
        cbn [coordinates cumulativeDistance set_lastRecordedPoint set_coordinates
             set_currentDistance set_cumulativeDistance].
        rewrite retained_small by lia.
        rewrite perimeter_append, <- Hlast, Hq. lra.
      * rewrite Hcp, Hcur, Hout.
        cbn [coordinates lastRecordedPoint set_lastRecordedPoint set_coordinates
             set_currentDistance set_cumulativeDistance].
        rewrite retained_small by lia. rewrite length_app. cbn [length].
        rewrite Hf in *. lia.
Qed.

Lemma closed_perimeter (coords : list Point) :
  calculatePerimeter (createClosedPolygon coords) =
  calculatePerimeter coords
  + (if (3 <=? length coords)%nat &&
        gtb (pointDistance (at_point coords 0) (at_point coords (length coords - 1)))
            POLYGON_CLOSURE_THRESHOLD
     then pointDistance (at_point coords (length coords - 1)) (at_point coords 0)
     else 0).
Proof.
  rewrite !calculatePerimeter_sum.
  unfold createClosedPolygon, pointDistance.
  destruct (Nat.ltb_spec (length coords) 3) as [Hlt|Hge].
  - replace (3 <=? length coords)%nat with false
      by (symmetry; apply Nat.leb_gt; lia).
    simpl. lra.
  - replace (3 <=? length coords)%nat with true
      by (symmetry; apply Nat.leb_le; lia).
    cbn [andb].
    destruct (gtb _ POLYGON_CLOSURE_THRESHOLD); [|lra].
    destruct (snoc_cases coords) as [->|[l' [a ->]]]; [simpl in Hge; lia|].
    rewrite perimeter_snoc, at_point_last. reflexivity.
Qed.

(** X7.  In a session that accepted no more fixes than the sequence can
    hold, the live distance shown while recording is exactly the path
    length of the recorded points, and the perimeter computed on stop is
    that live distance plus the closing edge when the first point is
    appended. *)
Theorem live_distance_is_path_length (events : list Event) (st0 : State) :
  (acceptedCount (sessionVerdicts events) <= MAX_COORDINATES)%nat ->
  let st := session events st0 in
  currentDistance st = calculatePerimeter (coordinates st)
  /\ calculatePerimeter (createClosedPolygon (coordinates st)) =
     currentDistance st
     + (if (3 <=? length (coordinates st))%nat &&
           gtb (pointDistance (at_point (coordinates st) 0)
                  (at_point (coordinates st) (length (coordinates st) - 1)))
               POLYGON_CLOSURE_THRESHOLD
        then pointDistance (at_point (coordinates st) (length (coordinates st) - 1))
                           (at_point (coordinates st) 0)
        else 0).
Proof.
  intros Hroom st.
  assert (Hex : cumulativeDistance st = Spec.perimeter (coordinates st)).
  { unfold st, session. apply exact_distance_runEvents.
    - apply recording_start.
    - cbn. unfold Spec.perimeter, Spec.pathSum. reflexivity.
    - exact Hroom. }
  destruct (recording_session events st0) as (_ & _ & _ & _ & Hcur & _).
  fold st in Hcur.
  assert (H1 : currentDistance st = calculatePerimeter (coordinates st))
    by (rewrite calculatePerimeter_sum, Hcur; exact Hex).
  split; [exact H1|]. rewrite closed_perimeter, H1. reflexivity.
Qed.

Lemma twoFixSession_accepted :
  acceptedCount (sessionVerdicts twoFixSession) = 1%nat.
Proof. unfold twoFixSession. rewrite twoFixes_verdicts. reflexivity. Qed.

Lemma live_distance_is_path_length_witness :
  (acceptedCount (sessionVerdicts twoFixSession) <= MAX_COORDINATES)%nat
  /\ currentDistance (session twoFixSession initialState)
     = calculatePerimeter (coordinates (session twoFixSession initialState)).
Proof.
  assert (H : (acceptedCount (sessionVerdicts twoFixSession) <= MAX_COORDINATES)%nat).
  { rewrite twoFixSession_accepted. pose proof MAX_COORDINATES_pos. lia. }
  split; [exact H|].
  exact (proj1 (live_distance_is_path_length twoFixSession initialState H)).
Defined.

(* ================================================================== *)
(** ** The result of a session *)
(* ================================================================== *)

Lemma toFixed_at_most (d : nat) (v : R) (n : Z) :
  (0 <= n)%Z -> v * 10 ^ d <= IZR n -> (units (toFixed d v) <= n)%Z.
Proof.
  intros Hn Hv. unfold toFixed. pose proof (pow10_pos d) as Hp.
  destruct (Rlt_dec v 0) as [Hneg|Hpos]; cbn [units].
  - assert (0 <= Zfloor (- v * 10 ^ d + / 2))%Z by (apply (Zfloor_lub 0); simpl; nra).
    lia.
  - destruct (Zfloor_bound (v * 10 ^ d + / 2)) as [Hlo _].
    apply le_IZR. apply Rnot_lt_le. intro Hgt.
    assert (Hn1 : (n + 1 <= Zfloor (v * 10 ^ d + / 2))%Z) by (apply lt_IZR in Hgt; lia).
    apply IZR_le in Hn1. rewrite plus_IZR in Hn1. lra.
Qed.

Lemma sum_at_most (g : Point -> R) (bound : R) (l : list Point) :
  (forall p, In p l -> g p <= bound) ->
  Spec.sumR (map g l) <= INR (length l) * bound.
Proof.
  induction l as [|a l IH]; intro H; [simpl; lra|].
  cbn [map Spec.sumR fold_right length]. rewrite S_INR.
  assert (g a <= bound) by (apply H; now left).
  assert (Spec.sumR (map g l) <= INR (length l) * bound)
    by (apply IH; intros p Hp; apply H; now right).
  unfold Spec.sumR in *. nra.
Qed.

(** X8.  A result produced by stopping a session reports between 3 and
    [MAX_COORDINATES] recorded points, a closed polygon of as many points
    or one more, and an average accuracy of at most 10.0 m. *)
Theorem session_result_well_formed
        (proj4 : UtmDef -> R * R -> option (R * R))
        (events : list Event) (st0 : State) (r : Result) :
  results (stopTracking proj4 (session events st0)) = Some r ->
  (3 <= pointsRecorded r <= MAX_COORDINATES)%nat
  /\ (closedPolygonPoints r = pointsRecorded r
      \/ closedPolygonPoints r = S (pointsRecorded r))
  /\ (units (avgAccuracy r) <= 100)%Z
  /\ measurementNumber r = currentMeasurement st0.
Proof.
  intro Hres.
  destruct (recording_session events st0) as (Hacc & _ & _ & Hcap & _ & _).
  set (st := session events st0) in *.
  unfold stopTracking in Hres.
  set (st1 := (_ ;; _ ;; set_isTracking false) st) in Hres.
  assert (H1 : results st1 = results st /\ currentMeasurement st1 = currentMeasurement st).
  { unfold st1, then_, skip.
    destruct (watchId st) as [w|]; [destruct (w =? 0)%Z|];
      (destruct (intervalRef st) as [i|]; [destruct (i =? 0)%Z|]);
      split; reflexivity. }
  destruct H1 as [Hr1 Hm1].
  destruct (Nat.ltb_spec (length (coordinates st)) 3) as [Hlt|Hge].
  - cbn [results set_error] in Hres. rewrite Hr1 in Hres.
    unfold st, session in Hres. rewrite runEvents_results in Hres. discriminate.
  - unfold calculateResultsWithCoordinates in Hres.
    cbn [results set_measurements set_results] in Hres.
    injection Hres as <-.
    cbn [pointsRecorded closedPolygonPoints avgAccuracy measurementNumber].
    split; [lia|]. split; [|split].
    + destruct (createClosedPolygon_cases (coordinates st)) as [-> | ->];
        [now left|right]. rewrite length_app. cbn [length]. lia.
    + destruct (Nat.ltb_spec 0 (length (coordinates st))) as [Hpos|]; [|lia].
      apply toFixed_at_most; [lia|].
      rewrite reduce_sum_sumR.
      pose proof (sum_at_most accuracy ACCURACY_THRESHOLD (coordinates st) Hacc) as Hsum.
      unfold ACCURACY_THRESHOLD in Hsum.
      assert (Hn : 0 < INR (length (coordinates st))) by (apply lt_0_INR; lia).
      assert (Hq : Spec.sumR (map accuracy (coordinates st))
                   / INR (length (coordinates st)) <= 10).
      { apply Rmult_le_reg_r with (INR (length (coordinates st))); [exact Hn|].
        unfold Rdiv. rewrite Rmult_assoc, Rinv_l by lra. lra. }
      simpl. lra.
    + transitivity (currentMeasurement st).
      { unfold then_, skip.
        destruct (watchId st) as [w|]; [destruct (w =? 0)%Z|];
          (destruct (intervalRef st) as [i|]; [destruct (i =? 0)%Z|]);
          reflexivity. }
      unfold st, session. clear.
      induction events as [|e rest IH] using rev_ind; [reflexivity|].
      unfold runEvents in *. rewrite fold_left_app. cbn [fold_left].
      destruct e as [p|now]; cbn [handle]; [exact IH|].
      unfold onTick.
      destruct (currentPosition _) as [fix_|]; [|exact IH].
      unfold recordGPSPoint.
      destruct (gtb _ ACCURACY_THRESHOLD); [exact IH|].
      destruct (lastRecordedPoint _); [|exact IH].
      destruct (ltb _ MIN_DISTANCE_THRESHOLD); exact IH.
Qed.

Lemma shortWalk_length :
  length (coordinates (session shortWalk initialState)) = 3%nat.
Proof.
  destruct (session_counters shortWalk initialState) as [_ Hlen].
  rewrite Hlen. unfold sessionVerdicts, shortWalk.
  rewrite walk_verdicts by exact I. rewrite acceptedCount_repeat.
  unfold MAX_COORDINATES. lia.
Qed.

Lemma session_result_well_formed_witness :
  exists r,
    results (stopTracking failingProj4 (session shortWalk initialState)) = Some r
    /\ (units (avgAccuracy r) <= 100)%Z.
Proof.
  destruct (stopTracking_produces failingProj4 (session shortWalk initialState))
    as (r & Hr & _).
  { rewrite shortWalk_length. lia. }
  exists r. split; [exact Hr|].
  exact (proj1 (proj2 (proj2
           (session_result_well_formed failingProj4 shortWalk initialState r Hr)))).
Defined.

(* ================================================================== *)
(** ** A fix sampled twice *)
(* ================================================================== *)

(** X9.  When the timer fires twice on the same fix, the second tick
    never records it: whatever the first tick did, the second leaves the
    recorded points as they are and counts one more skipped point. *)
Theorem repeated_tick_is_skipped (now1 now2 : Z) (fix_ : Coords.t) (st : State) :
  currentPosition st = Some fix_ ->
  let st1 := onTick now1 st in
  let st2 := onTick now2 st1 in
  coordinates st2 = coordinates st1
  /\ lastRecordedPoint st2 = lastRecordedPoint st1
  /\ skippedPointsCount st2 = S (skippedPointsCount st1).
Proof.
  intros Hcur st1 st2.
  assert (Hst1 : st1 = recordGPSPoint now1 fix_ st)
    by (unfold st1, onTick; rewrite Hcur; reflexivity).
  assert (Hcur1 : currentPosition st1 = Some fix_)
    by (rewrite Hst1, recordGPSPoint_currentPosition; exact Hcur).
  assert (Hst2 : st2 = recordGPSPoint now2 fix_ st1)
    by (unfold st2, onTick; rewrite Hcur1; reflexivity).
  assert (Hrej : st2 = set_skippedPointsCount (skippedPointsCount st1 + 1) st1).
  { pose proof (recordGPSPoint_verdict now1 fix_ st) as V1.
    pose proof (recordGPSPoint_verdict now2 fix_ st1) as V2.
    rewrite <- Hst1 in V1. rewrite <- Hst2 in V2.
    assert (Hlast : Spec.fixFilter Spec.config fix_ (lastRecordedPoint st1)
                    <> Spec.Accept).
    { destruct (Spec.fixFilter Spec.config fix_ (lastRecordedPoint st)) eqn:Hv1.
      - destruct V1 as (_ & _ & Hl & _). rewrite Hl.
        rewrite fixFilter_code.
        destruct (Rgt_dec _ _); [discriminate|].
        cbn [pointOf lat lng]. rewrite haversine_same.
        cbn [Spec.config Spec.minDistanceThresholdMeters].
        unfold MIN_DISTANCE_THRESHOLD.
        destruct (Rlt_dec 0 2.5); [discriminate|lra].
      - unfold rejectedFrom in V1. rewrite V1.
        cbn [lastRecordedPoint set_skippedPointsCount]. rewrite Hv1. discriminate.
      - unfold rejectedFrom in V1. rewrite V1.
        cbn [lastRecordedPoint set_skippedPointsCount]. rewrite Hv1. discriminate. }
    destruct (Spec.fixFilter Spec.config fix_ (lastRecordedPoint st1));
      [congruence|exact V2|exact V2]. }
  rewrite Hrej. cbn [coordinates lastRecordedPoint skippedPointsCount
                     set_skippedPointsCount].
  repeat split. lia.
Qed.

Lemma repeated_tick_is_skipped_witness :
  currentPosition (onPosition (Coords.mk 0 0 3) initialState) = Some (Coords.mk 0 0 3)
  /\ coordinates (onTick 2000 (onTick 0 (onPosition (Coords.mk 0 0 3) initialState)))
     = coordinates (onTick 0 (onPosition (Coords.mk 0 0 3) initialState)).
Proof.
  assert (H : currentPosition (onPosition (Coords.mk 0 0 3) initialState)
              = Some (Coords.mk 0 0 3)) by reflexivity.
  split; [exact H|].
  exact (proj1 (repeated_tick_is_skipped 0 2000 (Coords.mk 0 0 3)
                  (onPosition (Coords.mk 0 0 3) initialState) H)).
Defined.

(* ================================================================== *)
(** ** The accuracy banner and the accuracy filter *)
(* ================================================================== *)

Import TrackerView Lifecycle.

(** X10.  For a delivered fix with a non-zero accuracy, the banner shows
    a rating exactly when the fix passes the accuracy check of the
    filter, and rates it excellent exactly up to 5 m; a fix rated by the
    banner is never rejected for its accuracy.  A fix that reports an
    accuracy of exactly 0 gets no rating. *)
Theorem accuracy_banner_matches_filter (position : Coords.t) (st : State) :
  let a := Coords.accuracy position in
  let shown := getAccuracyStatus (onPosition position st) in
  (a <> 0 -> (shown <> None <-> a <= ACCURACY_THRESHOLD))
  /\ (a <> 0 -> (shown = Some excellent <-> a <= 5))
  /\ (shown <> None ->
      forall prior,
        Spec.fixFilter Spec.config position prior <> Spec.RejectLowAccuracy)
  /\ (a = 0 -> shown = None).
Proof.
  intros a shown.
  assert (Hs : shown = if Req_dec_T a 0 then None
                       else if leb a 5 then Some excellent
                       else if leb a 10 then Some good else None) by reflexivity.
  unfold leb, ACCURACY_THRESHOLD in *.
  split; [|split; [|split]].
  - intro Ha. rewrite Hs. destruct (Req_dec_T a 0); [contradiction|].
    destruct (Rle_dec a 5); [split; [lra|discriminate]|].
    destruct (Rle_dec a 10); [split; [lra|discriminate]|].
    split; [congruence|lra].
  - intro Ha. rewrite Hs. destruct (Req_dec_T a 0); [contradiction|].
    destruct (Rle_dec a 5); [split; [lra|reflexivity]|].
    destruct (Rle_dec a 10); split; try discriminate; lra.
  - intros Hshown prior. rewrite fixFilter_code.
    cbn [Spec.config Spec.accuracyThresholdMeters]. fold a.
    unfold ACCURACY_THRESHOLD.
    destruct (Rgt_dec a 10) as [Hbad|_].
    + exfalso. apply Hshown. rewrite Hs.
      destruct (Req_dec_T a 0); [reflexivity|].
      destruct (Rle_dec a 5); [lra|]. destruct (Rle_dec a 10); [lra|reflexivity].
    + destruct prior; [destruct (Rlt_dec _ _)|]; discriminate.
  - intro Ha. rewrite Hs. destruct (Req_dec_T a 0); [reflexivity|contradiction].
Qed.

Lemma accuracy_banner_matches_filter_witness :
  Coords.accuracy (Coords.mk 0 0 3) <> 0
  /\ (getAccuracyStatus (onPosition (Coords.mk 0 0 3) initialState) = Some excellent
      <-> Coords.accuracy (Coords.mk 0 0 3) <= 5).
Proof.
  assert (H : Coords.accuracy (Coords.mk 0 0 3) <> 0) by (simpl; lra).
  split; [exact H|].
  exact (proj1 (proj2 (accuracy_banner_matches_filter (Coords.mk 0 0 3) initialState)) H).
Defined.

(* ================================================================== *)
(** ** The drawing of the recorded points *)
(* ================================================================== *)

Lemma Math_min_pair (a b : R) : Math_min [a; b] = Rmin a b.
Proof. reflexivity. Qed.

Lemma scaled_within (v lo hi range size : R) :
  lo <= v <= hi -> hi - lo <= range -> 0 < range -> 0 <= size ->
  0 <= (v - lo) / range * size <= size.
Proof.
  intros Hv Hr Hpos Hsize.
  assert (Ht : 0 <= (v - lo) / range <= 1).
  { split.
    - apply Rmult_le_pos; [lra|]. left. apply Rinv_0_lt_compat. exact Hpos.
    - apply Rmult_le_reg_r with range; [exact Hpos|].
      unfold Rdiv. rewrite Rmult_assoc, Rinv_l by lra. lra. }
  split; nra.
Qed.

Lemma handleResize_room (innerWidth : R) :
  94 <= innerWidth ->
  40 <= width (handleResize innerWidth) /\ 40 <= height (handleResize innerWidth).
Proof.
  intro Hw. unfold handleResize. cbn [width height].
  rewrite !Math_min_pair. unfold gtb.
  destruct (Rgt_dec innerWidth 768).
  - unfold Rmin. destruct (Rle_dec 300 (400 * 3 / 4)); split; lra.
  - unfold Rmin.
    destruct (Rle_dec 350 (innerWidth - 40));
      [destruct (Rle_dec 300 (350 * 3 / 4))
      |destruct (Rle_dec 300 ((innerWidth - 40) * 3 / 4))]; split; lra.
Qed.

(** X11.  Whenever the drawing area is at least 40 by 40, as it is after
    a resize of a window at least 94 wide, every recorded point is drawn
    inside the area, at least the padding of 20 away from each edge; the
    scales never divide by zero, even when all points coincide.  There is
    no drawing exactly when no point is recorded. *)
Theorem visualization_within_padding
        (coordinates : list Point) (dims : Dimensions) :
  (40 <= width dims /\ 40 <= height dims
   \/ exists innerWidth, 94 <= innerWidth /\ dims = handleResize innerWidth) ->
  (memoizedVisualizationData coordinates dims = None <-> coordinates = [])
  /\ forall v p,
       memoizedVisualizationData coordinates dims = Some v ->
       In p coordinates ->
       20 <= scaleX v (lng p) <= svgWidth v - 20
       /\ 20 <= scaleY v (lat p) <= svgHeight v - 20
       /\ svgWidth v = width dims /\ svgHeight v = height dims.
Proof.
  intro Hdims.
  assert (Hroom : 40 <= width dims /\ 40 <= height dims).
  { destruct Hdims as [H|(iw & Hiw & ->)]; [exact H|apply handleResize_room, Hiw]. }
  clear Hdims. destruct Hroom as [Hw Hh].
  split.
  - unfold memoizedVisualizationData.
    destruct coordinates; cbn [length Nat.eqb]; split; try reflexivity; discriminate.
  - intros v p Hv Hp. unfold memoizedVisualizationData in Hv.
    destruct coordinates as [|c cs] eqn:Hc; [destruct Hp|].
    rewrite <- Hc in *. assert (Hlen : (length coordinates =? 0)%nat = false)
      by (rewrite Hc; reflexivity).
    rewrite Hlen in Hv. injection Hv as <-.
    cbn [scaleX scaleY svgWidth svgHeight].
    assert (Hn : forall g : Point -> R, map g coordinates <> [])
      by (intro g; rewrite Hc; discriminate).
    destruct (Math_max_spec (map lat coordinates) (Hn lat)) as [_ HmaxLat].
    destruct (Math_min_spec (map lat coordinates) (Hn lat)) as [_ HminLat].
    destruct (Math_max_spec (map lng coordinates) (Hn lng)) as [_ HmaxLng].
    destruct (Math_min_spec (map lng coordinates) (Hn lng)) as [_ HminLng].
    specialize (HmaxLat (lat p) (in_map lat _ _ Hp)).
    specialize (HminLat (lat p) (in_map lat _ _ Hp)).
    specialize (HmaxLng (lng p) (in_map lng _ _ Hp)).
    specialize (HminLng (lng p) (in_map lng _ _ Hp)).
    set (minLat := Math_min (map lat coordinates)) in *.
    set (maxLat := Math_max (map lat coordinates)) in *.
    set (minLng := Math_min (map lng coordinates)) in *.
    set (maxLng := Math_max (map lng coordinates)) in *.
    pose proof (Rmax_l (maxLat - minLat) 0.0001).
    pose proof (Rmax_r (maxLat - minLat) 0.0001).
    pose proof (Rmax_l (maxLng - minLng) 0.0001).
    pose proof (Rmax_r (maxLng - minLng) 0.0001).
    pose proof (scaled_within (lng p) minLng maxLng
                  (Rmax (maxLng - minLng) 0.0001) (width dims - 2 * 20)) as HX.
    pose proof (scaled_within (lat p) minLat maxLat
                  (Rmax (maxLat - minLat) 0.0001) (height dims - 2 * 20)) as HY.
    assert (0 <= (lng p - minLng) / Rmax (maxLng - minLng) 0.0001
                 * (width dims - 2 * 20) <= width dims - 2 * 20)
      by (apply HX; lra).
    assert (0 <= (lat p - minLat) / Rmax (maxLat - minLat) 0.0001
                 * (height dims - 2 * 20) <= height dims - 2 * 20)
      by (apply HY; lra).
    repeat split; lra.
Qed.

Lemma visualization_within_padding_witness :
  (40 <= width initialDimensions /\ 40 <= height initialDimensions
   \/ exists innerWidth, 94 <= innerWidth /\ initialDimensions = handleResize innerWidth)
  /\ (memoizedVisualizationData fieldWalk initialDimensions = None <-> fieldWalk = []).
Proof.
  assert (H : 40 <= width initialDimensions /\ 40 <= height initialDimensions
              \/ exists innerWidth,
                   94 <= innerWidth /\ initialDimensions = handleResize innerWidth)
    by (left; simpl; lra).
  split; [exact H|].
  exact (proj1 (visualization_within_padding fieldWalk initialDimensions H)).
Defined.

(* ================================================================== *)
(** ** The average lies between the stored results *)
(* ================================================================== *)

Lemma toFixed_monotone (d : nat) (v w : R) :
  v <= w -> (units (toFixed d v) <= units (toFixed d w))%Z.
Proof.
  intro Hvw. unfold toFixed. pose proof (pow10_pos d) as Hp.
  destruct (Rlt_dec v 0) as [Hv|Hv]; destruct (Rlt_dec w 0) as [Hw|Hw];
    cbn [units].
  - assert (Zfloor (- w * 10 ^ d + / 2) <= Zfloor (- v * 10 ^ d + / 2))%Z
      by (apply Zfloor_le; nra).
    lia.
  - assert (0 <= Zfloor (- v * 10 ^ d + / 2))%Z by (apply (Zfloor_lub 0); simpl; nra).
    assert (0 <= Zfloor (w * 10 ^ d + / 2))%Z by (apply (Zfloor_lub 0); simpl; nra).
    lia.
  - lra.
  - apply Zfloor_le. nra.
Qed.

Lemma sum_at_least {A : Type} (g : A -> R) (bound : R) (l : list A) :
  (forall m, In m l -> bound <= g m) ->
  INR (length l) * bound <= Spec.sumR (map g l).
Proof.
  induction l as [|a l IH]; intro H; [simpl; lra|].
  cbn [map length]. rewrite S_INR.
  assert (bound <= g a) by (apply H; now left).
  assert (INR (length l) * bound <= Spec.sumR (map g l))
    by (apply IH; intros p Hp; apply H; now right).
  unfold Spec.sumR in *. cbn [fold_right]. nra.
Qed.

Lemma sum_at_most_gen {A : Type} (g : A -> R) (bound : R) (l : list A) :
  (forall m, In m l -> g m <= bound) ->
  Spec.sumR (map g l) <= INR (length l) * bound.
Proof.
  induction l as [|a l IH]; intro H; [simpl; lra|].
  cbn [map length]. rewrite S_INR.
  assert (g a <= bound) by (apply H; now left).
  assert (Spec.sumR (map g l) <= INR (length l) * bound)
    by (apply IH; intros p Hp; apply H; now right).
  unfold Spec.sumR in *. cbn [fold_right]. nra.
Qed.

(** The rendering of the mean of parsed figures lies between any bounds
    that enclose all of them. *)
Lemma mean_rendering_between {A : Type} (d : nat) (g : A -> Fixed d)
      (l : list A) (lo hi : Z) :
  l <> [] ->
  (forall m, In m l -> (lo <= units (g m) <= hi)%Z) ->
  (lo <= units (toFixed d (reduce_sum (fun m => parseFloat (g m)) l
                           / INR (length l))) <= hi)%Z.
Proof.
  intros Hne Hall. rewrite reduce_sum_sumR.
  pose proof (pow10_pos d) as Hp.
  assert (Hn : 0 < INR (length l))
    by (apply lt_0_INR; destruct l; [congruence|simpl; lia]).
  set (mean := Spec.sumR (map (fun m => parseFloat (g m)) l) / INR (length l)).
  assert (Hlo : parseFloat (mkFixed d lo) <= mean).
  { unfold mean. apply Rmult_le_reg_r with (INR (length l)); [exact Hn|].
    unfold Rdiv. rewrite Rmult_assoc, Rinv_l, Rmult_1_r by lra.
    rewrite Rmult_comm. apply sum_at_least.
    intros m Hm. unfold parseFloat. cbn [units].
    destruct (Hall m Hm) as [H _]. apply IZR_le in H.
    unfold Rdiv. apply Rmult_le_compat_r; [|exact H].
    left. apply Rinv_0_lt_compat. exact Hp. }
  assert (Hhi : mean <= parseFloat (mkFixed d hi)).
  { unfold mean. apply Rmult_le_reg_r with (INR (length l)); [exact Hn|].
    unfold Rdiv. rewrite Rmult_assoc, Rinv_l, Rmult_1_r by lra.
    rewrite (Rmult_comm _ (INR (length l))). apply sum_at_most_gen.
    intros m Hm. unfold parseFloat. cbn [units].
    destruct (Hall m Hm) as [_ H]. apply IZR_le in H.
    unfold Rdiv. apply Rmult_le_compat_r; [|exact H].
    left. apply Rinv_0_lt_compat. exact Hp. }
  apply (toFixed_monotone d) in Hlo. apply (toFixed_monotone d) in Hhi.
  rewrite toFixed_parseFloat in Hlo, Hhi. cbn [units] in Hlo, Hhi. lia.
Qed.

(** X12.  The averaged area and the averaged perimeter, as shown, are
    never below the smallest nor above the largest of the stored results
    they average. *)
Theorem average_between_extremes
        (measurements : list Result) (avg : Average.t) (lo hi plo phi : Z) :
  calculateAverageResults measurements = Some avg ->
  (forall m, In m measurements -> (lo <= units (areaSquareMeters m) <= hi)%Z) ->
  (forall m, In m measurements -> (plo <= units (distance m) <= phi)%Z) ->
  (lo <= units (Average.areaSquareMeters avg) <= hi)%Z
  /\ (plo <= units (Average.distance avg) <= phi)%Z.
Proof.
  intros Havg Harea Hdist. unfold calculateAverageResults in Havg.
  destruct (Nat.ltb_spec (length measurements) 2) as [|Hlen]; [discriminate|].
  injection Havg as <-. cbn [Average.areaSquareMeters Average.distance].
  assert (Hne : measurements <> [])
    by (destruct measurements; [simpl in Hlen; lia|discriminate]).
  split; apply mean_rendering_between; assumption.
Qed.

Lemma average_between_extremes_witness :
  exists avg,
    calculateAverageResults [sampleResult; sampleResult] = Some avg
    /\ (4000000 <= units (Average.areaSquareMeters avg) <= 4000000)%Z.
Proof.
  eexists. split; [reflexivity|].
  refine (proj1 (average_between_extremes [sampleResult; sampleResult] _
                   4000000 4000000 100000 100000 eq_refl _ _)).
  - intros m [<-|[<-|[]]]; simpl; lia.
  - intros m [<-|[<-|[]]]; simpl; lia.
Defined.

(* ================================================================== *)
(** ** The list of measurements only grows *)
(* ================================================================== *)

Lemma stopTracking_measurements
      (proj4 : UtmDef -> R * R -> option (R * R)) (st : State) :
  measurements (stopTracking proj4 st) = measurements st
  \/ exists r, measurements (stopTracking proj4 st) = measurements st ++ [r]
               /\ (3 <= pointsRecorded r)%nat
               /\ results (stopTracking proj4 st) = Some r.
Proof.
  destruct (Nat.ltb_spec (length (coordinates st)) 3) as [Hlt|Hge].
  - left. apply (stopTracking_too_few proj4 st Hlt).
  - right. destruct (stopTracking_produces proj4 st Hge) as (r & Hr & Hm & Hp & _).
    exists r. split; [exact Hm|]. split; [lia|exact Hr].
Qed.

Lemma perform_measurements
      (proj4 : UtmDef -> R * R -> option (R * R)) (a : Action) (st : State) :
  measurements (perform proj4 a st) = measurements st
  \/ (a = PressStop
      /\ exists r, measurements (perform proj4 a st) = measurements st ++ [r]
                   /\ (3 <= pointsRecorded r)%nat).
Proof.
  destruct a; cbn [perform]; try (left; reflexivity).
  - left. unfold startTracking. destruct (negb geolocation); reflexivity.
  - destruct (stopTracking_measurements proj4 st) as [H|(r & H & Hr & _)];
      [now left|right]. split; [reflexivity|]. eauto.
  - left. unfold onTick. destruct (currentPosition st) as [fix_|]; [|reflexivity].
    unfold recordGPSPoint.
    destruct (gtb _ ACCURACY_THRESHOLD); [reflexivity|].
    destruct (lastRecordedPoint st); [|reflexivity].
    destruct (ltb _ MIN_DISTANCE_THRESHOLD); reflexivity.
Qed.

(** X13.  Whatever the user and the browser do, stored results are never
    removed, reordered or changed: the list of measurements only grows at
    its end, by at most one result per press of stop, and every result
    added holds at least 3 recorded points. *)
Theorem measurements_only_grow
        (proj4 : UtmDef -> R * R -> option (R * R))
        (actions : list Action) (st : State) :
  exists added,
    measurements (performAll proj4 actions st) = measurements st ++ added
    /\ (length added <= length (filter isStop actions))%nat
    /\ (forall r, In r added -> (3 <= pointsRecorded r)%nat).
Proof.
  revert st. induction actions as [|a rest IH]; intro st.
  - exists []. rewrite app_nil_r. repeat split; [simpl; lia|intros r []].
  - cbn [performAll fold_left]. fold (performAll proj4 rest (perform proj4 a st)).
    destruct (IH (perform proj4 a st)) as (added & Hm & Hlen & Hall).
    destruct (perform_measurements proj4 a st) as [Hsame|(-> & r & Hr & Hpts)].
    + exists added. rewrite Hm, Hsame. split; [reflexivity|]. split; [|exact Hall].
      cbn [filter]. destruct (isStop a); cbn [length]; lia.
    + exists (r :: added). rewrite Hm, Hr, <- app_assoc. split; [reflexivity|].
      split; [cbn [filter isStop length]; lia|].
      intros r' [<-|Hr']; [exact Hpts|apply Hall, Hr'].
Qed.

(* ================================================================== *)
(** ** A provider error does not stop the recording *)
(* ================================================================== *)

(** X14.  The error callback of the location source marks the component
    as not tracking but leaves the watch and the recording timer
    installed and the session data untouched: a tick that follows records
    exactly what it would have recorded without the error. *)
Theorem provider_error_keeps_recording
        (code : GeoErrorCode) (now : Z) (st : State) :
  let failed := onPositionError code st in
  isTracking failed = false
  /\ intervalRef failed = intervalRef st
  /\ watchId failed = watchId st
  /\ coordinates failed = coordinates st
  /\ onTick now failed = onPositionError code (onTick now st).
Proof.
  intro failed. repeat split.
  unfold failed, onTick, onPositionError, then_.
  cbn [currentPosition set_error set_isTracking set_isGpsReady].
  destruct (currentPosition st) as [fix_|]; [|reflexivity].
  unfold recordGPSPoint.
  cbn [lastRecordedPoint skippedPointsCount coordinates cumulativeDistance
       set_error set_isTracking set_isGpsReady].
  destruct (gtb _ ACCURACY_THRESHOLD); [reflexivity|].
  destruct (lastRecordedPoint st); [|reflexivity].
  destruct (ltb _ MIN_DISTANCE_THRESHOLD); reflexivity.
Qed.

(* ================================================================== *)
(** ** The map-based component *)
(* ================================================================== *)

(** X15.  The two components measure distance alike: the haversine
    function of the map-based component returns what the one of the
    field-measurement component returns on the same two points. *)
Theorem haversine_implementations_agree (lat1 lng1 lat2 lng2 : R) :
  MapView.haversineDistance (lat1, lng1) (lat2, lng2)
  = haversineDistance lat1 lng1 lat2 lng2.
Proof.
  unfold MapView.haversineDistance, haversineDistance, toRadians, EARTH_RADIUS.
  cbn [fst snd].
  replace ((lat2 - lat1) * PI / 180 / 2) with ((lat2 - lat1) * (PI / 180) / 2) by lra.
  replace ((lng2 - lng1) * PI / 180 / 2) with ((lng2 - lng1) * (PI / 180) / 2) by lra.
  replace (lat1 * PI / 180) with (lat1 * (PI / 180)) by lra.
  replace (lat2 * PI / 180) with (lat2 * (PI / 180)) by lra.
  set (s1 := sin ((lat2 - lat1) * (PI / 180) / 2)).
  set (s2 := sin ((lng2 - lng1) * (PI / 180) / 2)).
  set (c1 := cos (lat1 * (PI / 180))). set (c2 := cos (lat2 * (PI / 180))).
  replace (s1 ^ 2 + c1 * c2 * s2 ^ 2) with (s1 * s1 + c1 * c2 * s2 * s2) by ring.
  reflexivity.
Qed.

Lemma mapDeliver_snoc (fixes : list MapView.Coord) (c : MapView.Coord)
      (st : MapTracker.State) :
  MapTracker.deliver (fixes ++ [c]) st
  = MapTracker.onPosition (fst c) (snd c) (MapTracker.deliver fixes st).
Proof. unfold MapTracker.deliver. rewrite fold_left_app. reflexivity. Qed.

Lemma at_coord_before_last (l : list MapView.Coord) (a c : MapView.Coord) :
  MapView.at_coord ((l ++ [a]) ++ [c]) (length ((l ++ [a]) ++ [c]) - 2) = a.
Proof.
  unfold MapView.at_coord. rewrite !length_app. cbn [length].
  replace (length l + 1 + 1 - 2)%nat with (length l) by lia.
  rewrite app_nth1 by (rewrite length_app; simpl; lia).
  rewrite app_nth2 by lia. rewrite Nat.sub_diag. reflexivity.
Qed.

(** X16.  The map-based component keeps every delivered fix, in order,
    without filtering, and its total distance is the sum of the
    haversine distances between consecutive fixes; stopping keeps both on
    display. *)
Theorem map_tracking_accumulates
        (fixes : list MapView.Coord) (id : Z) (st0 : MapTracker.State) :
  let st := MapTracker.deliver fixes (MapTracker.startTracking true id st0) in
  MapTracker.coordinates st = fixes
  /\ MapTracker.totalDistance st = Spec.pathSum MapView.haversineDistance fixes
  /\ MapTracker.coordinates (MapTracker.stopTracking st) = fixes
  /\ MapTracker.totalDistance (MapTracker.stopTracking st)
     = MapTracker.totalDistance st
  /\ MapTracker.isTracking (MapTracker.stopTracking st) = false.
Proof.
  intro st.
  assert (H : MapTracker.coordinates st = fixes
              /\ MapTracker.totalDistance st
                 = Spec.pathSum MapView.haversineDistance fixes).
  { unfold st. clear st.
    induction fixes as [|c fixes IH] using rev_ind.
    - split; reflexivity.
    - rewrite mapDeliver_snoc. destruct IH as [IHc IHd].
      unfold MapTracker.onPosition.
      cbn [MapTracker.coordinates MapTracker.totalDistance].
      rewrite IHc, IHd. split; [destruct c; reflexivity|].
      destruct (snoc_cases fixes) as [-> | (l & a & ->)].
      + cbn. unfold Spec.pathSum. reflexivity.
      + replace (1 <? length ((l ++ [a]) ++ [(fst c, snd c)]))%nat with true
          by (symmetry; apply Nat.ltb_lt; rewrite !length_app; simpl; lia).
        rewrite at_coord_before_last.
        unfold Spec.pathSum at 2.
        rewrite consecutive_snoc, map_app, sumR_app.
        fold (Spec.pathSum MapView.haversineDistance (l ++ [a])).
        cbn [map Spec.sumR fold_right fst snd]. destruct c. cbn [fst snd]. lra. }
  destruct H as [Hc Hd]. repeat split; assumption.
Qed.

(** A loop body that agrees on the indices visited gives the same
    result. *)
Lemma for_range_ext (n : nat) (body body' : nat -> R -> R) (init : R) :
  (forall i acc, (i < n)%nat -> body i acc = body' i acc) ->
  for_range n body init = for_range n body' init.
Proof.
  intro H. unfold for_range.
  assert (G : forall l a0, (forall i, In i l -> (i < n)%nat) ->
              fold_left (fun acc i => body i acc) l a0
              = fold_left (fun acc i => body' i acc) l a0).
  { induction l as [|i l IH]; intros a0 Hl; [reflexivity|].
    cbn [fold_left]. rewrite H by (apply Hl; now left).
    apply IH. intros j Hj. apply Hl. now right. }
  apply G. intros i Hi. apply in_seq in Hi. lia.
Qed.

(** [polygonArea] sums [edgeTerm] around the ring of its coordinates. *)
Lemma polygonArea_cyclic (coords : list MapView.Coord) :
  MapView.polygonArea coords =
  if (length coords <? 3)%nat then 0
  else Rabs (Spec.pathSum MapTracker.edgeTerm (Spec.closeRing coords) / 2).
Proof.
  unfold MapView.polygonArea.
  destruct (Nat.ltb_spec (length coords) 3) as [|Hlen]; [reflexivity|].
  cbv zeta. do 2 f_equal.
  destruct coords as [|c0 cs] eqn:Hc; [simpl in Hlen; lia|]. rewrite <- Hc in *.
  assert (Hring : Spec.closeRing coords = coords ++ [c0]) by (rewrite Hc; reflexivity).
  rewrite Hring. unfold Spec.pathSum.
  symmetry. etransitivity;
    [symmetry; apply (pair_loop (0, 0) MapTracker.edgeTerm (coords ++ [c0]))|].
  symmetry. rewrite length_app. cbn [length].
  replace (length coords + 1 - 1)%nat with (length coords) by lia.
  apply for_range_ext. intros i acc Hi.
  unfold MapView.at_coord. unfold MapView.Coord in *.
  assert (H1 : nth i (coords ++ [c0]) (0, 0) = nth i coords (0, 0))
    by (apply app_nth1; exact Hi).
  assert (H2 : nth (i + 1) (coords ++ [c0]) (0, 0)
               = nth ((i + 1) mod length coords) coords (0, 0)).
  { destruct (Nat.eq_dec (i + 1) (length coords)) as [E|E].
    - rewrite E, Nat.Div0.mod_same, app_nth2 by lia.
      rewrite Nat.sub_diag. rewrite Hc. reflexivity.
    - rewrite Nat.mod_small by lia. apply app_nth1. lia. }
  rewrite H1, H2.
  destruct (nth i coords (0, 0)) as [lat1 lon1].
  destruct (nth ((i + 1) mod length coords) coords (0, 0)) as [lat2 lon2].
  unfold MapTracker.edgeTerm. cbn [fst snd]. reflexivity.
Qed.

Lemma closeRing_rev {A : Type} (a : A) (t : list A) (f : A -> A -> R) :
  Spec.pathSum f (Spec.closeRing (rev (a :: t)))
  = Spec.pathSum f (rev (Spec.closeRing (a :: t))).
Proof.
  change (rev (a :: t)) with (rev t ++ [a]).
  rewrite pathSum_closeRing_swap.
  replace (rev (Spec.closeRing (a :: t))) with (Spec.closeRing ([a] ++ rev t)).
  - reflexivity.
  - change (Spec.closeRing (a :: t)) with ((a :: t) ++ [a]).
    rewrite rev_app_distr. reflexivity.
Qed.

Lemma polygonArea_rotate (coords : list MapView.Coord) (k : nat) :
  MapView.polygonArea (Spec.rotate k coords) = MapView.polygonArea coords.
Proof. rewrite !polygonArea_cyclic, rotate_length, pathSum_rotate. reflexivity. Qed.

Lemma polygonArea_rev (coords : list MapView.Coord) :
  MapView.polygonArea (rev coords) = MapView.polygonArea coords.
Proof.
  rewrite !polygonArea_cyclic, length_rev.
  destruct (length coords <? 3)%nat; [reflexivity|].
  destruct coords as [|a t]; [reflexivity|].
  rewrite closeRing_rev, pathSum_rev.
  rewrite (pathSum_ext _ (fun c1 c2 => - MapTracker.edgeTerm c1 c2))
    by (intros; unfold MapTracker.edgeTerm; ring).
  rewrite pathSum_opp.
  replace (- Spec.pathSum MapTracker.edgeTerm (Spec.closeRing (a :: t)) / 2)
    with (- (Spec.pathSum MapTracker.edgeTerm (Spec.closeRing (a :: t)) / 2)) by lra.
  apply Rabs_Ropp.
Qed.

(** X17.  The area of the map-based component does not depend on the
    vertex the track starts from nor on the direction in which it is
    walked; it is never negative, and 0 for fewer than 3 coordinates. *)
Theorem polygonArea_start_and_direction (coords : list MapView.Coord) (k : nat) :
  MapView.polygonArea (Spec.rotate k coords) = MapView.polygonArea coords
  /\ MapView.polygonArea (rev coords) = MapView.polygonArea coords
  /\ ((length coords < 3)%nat -> MapView.polygonArea coords = 0)
  /\ 0 <= MapView.polygonArea coords.
Proof.
  split; [apply polygonArea_rotate|split; [apply polygonArea_rev|split]].
  - intro H. unfold MapView.polygonArea.
    destruct (Nat.ltb_spec (length coords) 3); [reflexivity|lia].
  - unfold MapView.polygonArea.
    destruct (length coords <? 3)%nat; [lra|apply Rabs_pos].
Qed.

Lemma polygonArea_start_and_direction_witness :
  (length Samples.twoCorners < 3)%nat
  /\ MapView.polygonArea Samples.twoCorners = 0.
Proof.
  assert (H : (length Samples.twoCorners < 3)%nat) by (simpl; lia).
  split; [exact H|].
  exact (proj1 (proj2 (proj2
           (polygonArea_start_and_direction Samples.twoCorners 0))) H).
Defined.

(* ================================================================== *)
(** ** The measurement store of the server *)
(* ================================================================== *)

Lemma IdValue_eq_dec (a b : Server.IdValue) : {a = b} + {a <> b}.
Proof. decide equality; [apply Z.eq_dec|apply Nat.eq_dec]. Qed.

(** A lookup by the integer [i] finds the measurements stored under the
    integer [i], and no other. *)
Lemma matches_spec (i : Z) (x : Api.Stored) :
  Api.matches (Some i) x = true <-> Api.idOf x = Server.IntegerId i.
Proof.
  unfold Api.matches. destruct (Api.idOf x) as [j|tag].
  - rewrite Z.eqb_eq. split; congruence.
  - split; discriminate.
Qed.

Lemma matches_false (i : Z) (x : Api.Stored) :
  Api.matches (Some i) x = false <-> Api.idOf x <> Server.IntegerId i.
Proof.
  rewrite <- matches_spec. destruct (Api.matches (Some i) x); split; congruence.
Qed.

Lemma matches_none (x : Api.Stored) : Api.matches None x = false.
Proof. reflexivity. Qed.

Lemma find_matches_absent (i : Z) (l : list Api.Stored) :
  ~ In (Server.IntegerId i) (map Api.idOf l) ->
  find (Api.matches (Some i)) l = None.
Proof.
  induction l as [|x t IH]; intro H; [reflexivity|].
  cbn [find]. cbn [map In] in H.
  destruct (Api.matches (Some i) x) eqn:E.
  - apply matches_spec in E. tauto.
  - apply IH. tauto.
Qed.

Lemma find_matches_present (i : Z) (l : list Api.Stored) :
  In (Server.IntegerId i) (map Api.idOf l) ->
  exists m, find (Api.matches (Some i)) l = Some m /\ In m l
            /\ Api.idOf m = Server.IntegerId i.
Proof.
  induction l as [|x t IH]; intro H; [destruct H|].
  cbn [find]. cbn [map In] in H.
  destruct (Api.matches (Some i) x) eqn:E.
  - apply matches_spec in E. exists x. repeat split; [now left|exact E].
  - apply matches_false in E. destruct H as [H|H]; [contradiction|].
    destruct (IH H) as (m & Hf & Hin & Hid).
    exists m. repeat split; [exact Hf|now right|exact Hid].
Qed.

Lemma find_matches_unique (i : Z) (l : list Api.Stored) (m : Api.Stored) :
  NoDup (map Api.idOf l) -> In m l -> Api.idOf m = Server.IntegerId i ->
  find (Api.matches (Some i)) l = Some m.
Proof.
  induction l as [|x t IH]; intros Hnd Hin Hid; [destruct Hin|].
  cbn [find]. cbn [map] in Hnd. inversion Hnd as [|? ? Hx Ht]; subst.
  destruct Hin as [->|Hin].
  - replace (Api.matches (Some i) m) with true
      by (symmetry; apply matches_spec; exact Hid).
    reflexivity.
  - destruct (Api.matches (Some i) x) eqn:E.
    + apply matches_spec in E. exfalso. apply Hx. rewrite E, <- Hid.
      apply in_map. exact Hin.
    + apply IH; [exact Ht|exact Hin|exact Hid].
Qed.

Lemma find_matches_snoc_other (j : Z) (l : list Api.Stored) (m : Api.Stored) :
  Api.idOf m <> Server.IntegerId j ->
  find (Api.matches (Some j)) (l ++ [m]) = find (Api.matches (Some j)) l.
Proof.
  intro H. apply matches_false in H. induction l as [|x t IH].
  - cbn [app find]. rewrite H. reflexivity.
  - cbn [app find]. destruct (Api.matches (Some j) x); [reflexivity|exact IH].
Qed.

Lemma find_matches_snoc_new (i : Z) (l : list Api.Stored) (m : Api.Stored) :
  Api.idOf m = Server.IntegerId i ->
  ~ In (Server.IntegerId i) (map Api.idOf l) ->
  find (Api.matches (Some i)) (l ++ [m]) = Some m.
Proof.
  intros Hm H. apply matches_spec in Hm. induction l as [|x t IH].
  - cbn [app find]. rewrite Hm. reflexivity.
  - cbn [app find]. cbn [map In] in H.
    destruct (Api.matches (Some i) x) eqn:E.
    + apply matches_spec in E. tauto.
    + apply IH. tauto.
Qed.

(** X18.  A measurement posted without an [id] of its own can be
    fetched again: it is stored under the identifier the server
    assigned, with the server's timestamp and the posted fields, a [GET]
    with that identifier answers exactly the object the [POST] answered,
    and the answer for every other identifier is what it was. *)
Theorem post_then_get (body : Api.Body) (now : Z) (s : Api.Store) :
  Api.bodyId body = None ->
  (forall i, In (Server.IntegerId i) (Api.ids s) -> (i < Api.measurementId s)%Z) ->
  exists m,
    fst (Api.handle (Api.PostMeasurement body now) s) = Api.Created m
    /\ Api.idOf m = Server.IntegerId (Api.measurementId s)
    /\ Api.timestamp m = now
    /\ Server.areaSquareMeters (Api.measurement m) = Api.bodyArea body
    /\ (let s' := snd (Api.handle (Api.PostMeasurement body now) s) in
        Api.handle (Api.GetMeasurement (Some (Api.measurementId s))) s'
        = (Api.Found m, s')
        /\ forall j, j <> Api.measurementId s ->
             fst (Api.handle (Api.GetMeasurement (Some j)) s')
             = fst (Api.handle (Api.GetMeasurement (Some j)) s)).
Proof.
  intros Hbody Hids.
  cbn [Api.handle]. unfold Api.postMeasurement. rewrite Hbody. cbn [fst snd].
  eexists. split; [reflexivity|].
  split; [reflexivity|]. split; [reflexivity|]. split; [reflexivity|].
  cbv zeta. unfold Api.getMeasurement. cbn [Api.measurements].
  split.
  - rewrite (find_matches_snoc_new (Api.measurementId s)); [reflexivity|reflexivity|].
    intro Hin. apply Hids in Hin. lia.
  - intros j Hj. rewrite find_matches_snoc_other
      by (unfold Api.idOf; cbn [Api.measurement Server.id]; congruence).
    destruct (find (Api.matches (Some j)) (Api.measurements s)); reflexivity.
Qed.

Lemma post_then_get_witness :
  exists m,
    fst (Api.handle (Api.PostMeasurement Samples.plainBody 5) Api.initialStore)
    = Api.Created m
    /\ Api.idOf m = Server.IntegerId 1.
Proof.
  destruct (post_then_get Samples.plainBody 5 Api.initialStore)
    as (m & H1 & H2 & _).
  - reflexivity.
  - intros i Hi. destruct Hi.
  - exists m. split; [exact H1|exact H2].
Defined.

(** *** Deleting *)

Lemma findIndex_none {A : Type} (p : A -> bool) (l : list A) :
  Api.findIndex p l = None <-> forall x, In x l -> p x = false.
Proof.
  induction l as [|x t IH]; [split; [intros _ y []|reflexivity]|].
  cbn [Api.findIndex]. destruct (p x) eqn:Hp.
  - split; [discriminate|]. intro H. rewrite (H x (or_introl eq_refl)) in Hp.
    discriminate.
  - destruct (Api.findIndex p t) eqn:Hf; cbn [option_map].
    + split; [discriminate|]. intro H.
      assert (Some n = None) by (apply IH; intros y Hy; apply H; now right).
      discriminate.
    + split; [|reflexivity]. intros _ y [<-|Hy]; [exact Hp|].
      apply (proj1 IH eq_refl). exact Hy.
Qed.

Lemma matches_in_ids (i : Z) (l : list Api.Stored) :
  (forall x, In x l -> Api.matches (Some i) x = false)
  <-> ~ In (Server.IntegerId i) (map Api.idOf l).
Proof.
  split.
  - intros H Hin. apply in_map_iff in Hin. destruct Hin as (x & Hx & Hin).
    specialize (H x Hin). apply matches_false in H. contradiction.
  - intros H x Hin. apply matches_false. intro E.
    apply H. rewrite <- E. apply in_map. exact Hin.
Qed.

(** What remains after the first match has been spliced out. *)
Lemma spliced_properties (i : Z) (l : list Api.Stored) (k : nat) :
  Api.findIndex (Api.matches (Some i)) l = Some k ->
  length l = S (length (Api.splice1 k l))
  /\ incl (map Api.idOf (Api.splice1 k l)) (map Api.idOf l)
  /\ (NoDup (map Api.idOf l) ->
      NoDup (map Api.idOf (Api.splice1 k l))
      /\ ~ In (Server.IntegerId i) (map Api.idOf (Api.splice1 k l)))
  /\ (forall j, j <> i ->
        find (Api.matches (Some j)) (Api.splice1 k l)
        = find (Api.matches (Some j)) l)
  /\ (forall x, In x l -> Api.idOf x <> Server.IntegerId i ->
        In x (Api.splice1 k l)).
Proof.
  revert k. induction l as [|x t IH]; intros k Hk; [discriminate|].
  cbn [Api.findIndex] in Hk.
  destruct (Api.matches (Some i) x) eqn:Hx.
  - injection Hk as <-. unfold Api.splice1. cbn [firstn skipn app].
    apply matches_spec in Hx.
    split; [reflexivity|]. split; [cbn [map]; apply incl_tl, incl_refl|].
    split; [|split].
    + intro H. cbn [map] in H. inversion H; subst. rewrite <- Hx. split; assumption.
    + intros j Hj. cbn [find].
      replace (Api.matches (Some j) x) with false; [reflexivity|].
      symmetry. apply matches_false. rewrite Hx. congruence.
    + intros y [<-|Hy] Hne; [contradiction|exact Hy].
  - destruct (Api.findIndex (Api.matches (Some i)) t) as [k'|] eqn:Hf;
      [|discriminate].
    cbn [option_map] in Hk. injection Hk as <-.
    destruct (IH k' eq_refl) as (Hlen & Hincl & Hnd & Hfind & Hstay).
    unfold Api.splice1 in *. cbn [firstn skipn app length map].
    cbn [skipn] in Hlen, Hincl, Hnd, Hfind, Hstay.
    apply matches_false in Hx.
    split; [cbn [length] in *; lia|].
    split; [intros a [<-|Ha]; [now left|right; apply Hincl; exact Ha]|].
    split; [|split].
    + intro H. inversion H as [|? ? Hnx Hnt]; subst.
      split.
      * constructor; [|apply Hnd; exact Hnt].
        intro Ha. apply Hnx. apply Hincl. exact Ha.
      * intros [Ha|Ha]; [contradiction|].
        apply (proj2 (Hnd Hnt)). exact Ha.
    + intros j Hj. cbn [find].
      destruct (Api.matches (Some j) x); [reflexivity|apply Hfind; exact Hj].
    + intros y [<-|Hy] Hne; [now left|right; apply Hstay; assumption].
Qed.

Lemma deleteMeasurement_cases (param : option Z) (s : Api.Store) :
  (Api.handle (Api.DeleteMeasurement param) s = (Api.NotFound, s)
   /\ (forall i, param = Some i -> ~ In (Server.IntegerId i) (Api.ids s)))
  \/ (exists i k,
        param = Some i
        /\ Api.findIndex (Api.matches (Some i)) (Api.measurements s) = Some k
        /\ Api.handle (Api.DeleteMeasurement param) s
           = (Api.Deleted,
              {| Api.measurements := Api.splice1 k (Api.measurements s);
                 Api.measurementId := Api.measurementId s |})).
Proof.
  cbn [Api.handle]. unfold Api.deleteMeasurement, Api.ids.
  destruct param as [i|].
  - destruct (Api.findIndex (Api.matches (Some i)) (Api.measurements s))
      as [k|] eqn:Hk.
    + right. exists i, k. auto.
    + left. split; [reflexivity|]. intros j [= <-].
      apply matches_in_ids. apply findIndex_none. exact Hk.
  - left.
    replace (Api.findIndex (Api.matches None) (Api.measurements s))
      with (@None nat) by (symmetry; apply findIndex_none; reflexivity).
    split; [reflexivity|discriminate].
Qed.

(** X19.  Deleting removes exactly the measurement asked for: with
    pairwise distinct identifiers in the store, a [DELETE] of an integer
    under which a measurement is stored answers success, the store is one
    shorter, the identifier is no longer found, and every other
    identifier is answered as before; a [DELETE] of an integer under
    which nothing is stored, or of a parameter that is not a number,
    answers 404 and leaves the store as it was.  A measurement whose
    posted body put a value that is not an integer under [id] is beyond
    the reach of both routes: no [GET] by identifier answers it and no
    [DELETE] removes it. *)
Theorem delete_removes (i : Z) (s : Api.Store) :
  NoDup (Api.ids s) ->
  (In (Server.IntegerId i) (Api.ids s) ->
     let s' := snd (Api.handle (Api.DeleteMeasurement (Some i)) s) in
     fst (Api.handle (Api.DeleteMeasurement (Some i)) s) = Api.Deleted
     /\ length (Api.measurements s) = S (length (Api.measurements s'))
     /\ Api.handle (Api.GetMeasurement (Some i)) s' = (Api.NotFound, s')
     /\ Api.measurementId s' = Api.measurementId s
     /\ forall j, j <> i ->
          fst (Api.handle (Api.GetMeasurement (Some j)) s')
          = fst (Api.handle (Api.GetMeasurement (Some j)) s))
  /\ (~ In (Server.IntegerId i) (Api.ids s) ->
      Api.handle (Api.DeleteMeasurement (Some i)) s = (Api.NotFound, s))
  /\ Api.handle (Api.DeleteMeasurement None) s = (Api.NotFound, s)
  /\ (forall m,
        In m (Api.measurements s) ->
        (forall j, Api.idOf m <> Server.IntegerId j) ->
        forall param,
          fst (Api.handle (Api.GetMeasurement param) s) <> Api.Found m
          /\ In m (Api.measurements
                     (snd (Api.handle (Api.DeleteMeasurement param) s)))).
Proof.
  intro Hnd. split; [|split; [|split]].
  - intro Hin.
    destruct (deleteMeasurement_cases (Some i) s)
      as [[_ Hout]|(i' & k & [= <-] & Hk & ->)];
      [exfalso; apply (Hout i eq_refl); exact Hin|].
    destruct (spliced_properties i _ k Hk) as (Hlen & _ & Hrest & Hfind & _).
    destruct (Hrest Hnd) as [_ Hgone].
    cbv zeta. cbn [fst snd Api.measurements Api.measurementId Api.handle].
    unfold Api.getMeasurement. cbn [Api.measurements].
    repeat split.
    + exact Hlen.
    + rewrite (find_matches_absent _ _ Hgone). reflexivity.
    + intros j Hj. rewrite (Hfind j Hj).
      destruct (find (Api.matches (Some j)) (Api.measurements s)); reflexivity.
  - intro Hout.
    destruct (deleteMeasurement_cases (Some i) s)
      as [[H _]|(i' & k & [= <-] & Hk & _)]; [exact H|].
    assert (Hnone : Api.findIndex (Api.matches (Some i)) (Api.measurements s)
                    = None)
      by (apply findIndex_none, matches_in_ids; exact Hout).
    congruence.
  - destruct (deleteMeasurement_cases None s)
      as [[H _]|(i' & k & Habs & _)]; [exact H|discriminate].
  - intros m Hm Hother param. split.
    + cbn [Api.handle]. unfold Api.getMeasurement.
      destruct (find (Api.matches param) (Api.measurements s)) as [x|] eqn:Hf;
        cbn [fst]; [|discriminate].
      intros [= ->]. apply find_some in Hf. destruct Hf as [_ Hmatch].
      destruct param as [j|]; [|discriminate].
      apply matches_spec in Hmatch. exact (Hother j Hmatch).
    + destruct (deleteMeasurement_cases param s)
        as [[-> _]|(j & k & -> & Hk & ->)]; [exact Hm|].
      cbn [snd Api.measurements].
      apply (spliced_properties j _ k Hk); [exact Hm|apply Hother].
Qed.

(** A measurement posted to a fresh server is stored under 1; deleting 1
    answers success and leaves nothing to be found under 1. *)
Lemma delete_removes_witness :
  NoDup (Api.ids Samples.oneStored)
  /\ In (Server.IntegerId 1) (Api.ids Samples.oneStored)
  /\ fst (Api.handle (Api.DeleteMeasurement (Some 1%Z)) Samples.oneStored)
     = Api.Deleted
  /\ length (Api.measurements Samples.oneStored)
     = S (length (Api.measurements
                    (snd (Api.handle (Api.DeleteMeasurement (Some 1%Z))
                                     Samples.oneStored)))).
Proof.
  assert (Hnd : NoDup (Api.ids Samples.oneStored))
    by (constructor; [intros []|constructor]).
  assert (Hin : In (Server.IntegerId 1) (Api.ids Samples.oneStored))
    by (left; reflexivity).
  split; [exact Hnd|]. split; [exact Hin|].
  destruct (proj1 (delete_removes 1 Samples.oneStored Hnd) Hin) as (H1 & H2 & _).
  split; [exact H1|exact H2].
Defined.

(** *** Listing *)

Lemma insertByTime_perm (m : Api.Stored) (l : list Api.Stored) :
  Permutation (Api.insertByTime m l) (m :: l).
Proof.
  induction l as [|x t IH]; [apply Permutation_refl|].
  cbn [Api.insertByTime]. destruct (Api.timestamp x <=? Api.timestamp m)%Z.
  - apply Permutation_refl.
  - eapply Permutation_trans; [apply perm_skip, IH|apply perm_swap].
Qed.

Lemma sortNewestFirst_perm (l : list Api.Stored) :
  Permutation (Api.sortNewestFirst l) l.
Proof.
  induction l as [|x t IH]; [apply Permutation_refl|].
  cbn [Api.sortNewestFirst fold_right]. fold (Api.sortNewestFirst t).
  eapply Permutation_trans; [apply insertByTime_perm|apply perm_skip, IH].
Qed.

Lemma insertByTime_sorted (m : Api.Stored) (l : list Api.Stored) :
  StronglySorted (fun a b => (Api.timestamp b <= Api.timestamp a)%Z) l ->
  StronglySorted (fun a b => (Api.timestamp b <= Api.timestamp a)%Z)
                 (Api.insertByTime m l).
Proof.
  induction l as [|x t IH]; intro Hs.
  - constructor; constructor.
  - cbn [Api.insertByTime]. inversion Hs as [|? ? Ht Hx]; subst.
    destruct (Z.leb_spec (Api.timestamp x) (Api.timestamp m)) as [Hle|Hgt].
    + constructor; [exact Hs|]. constructor; [exact Hle|].
      eapply Forall_impl; [|exact Hx]. intros b Hb. cbv beta in Hb. lia.
    + constructor; [apply IH; exact Ht|].
      apply Forall_forall. intros b Hb.
      apply (Permutation_in _ (insertByTime_perm m t)) in Hb.
      destruct Hb as [<-|Hb]; [lia|].
      rewrite Forall_forall in Hx. apply Hx. exact Hb.
Qed.

Lemma sortNewestFirst_sorted (l : list Api.Stored) :
  StronglySorted (fun a b => (Api.timestamp b <= Api.timestamp a)%Z)
                 (Api.sortNewestFirst l).
Proof.
  induction l as [|x t IH]; [constructor|].
  cbn [Api.sortNewestFirst fold_right]. apply insertByTime_sorted. exact IH.
Qed.

Lemma insertByTime_same_instant (m : Api.Stored) (l : list Api.Stored) (t0 : Z) :
  filter (fun x => (Api.timestamp x =? t0)%Z) (Api.insertByTime m l)
  = filter (fun x => (Api.timestamp x =? t0)%Z) (m :: l).
Proof.
  induction l as [|x t IH]; [reflexivity|].
  cbn [Api.insertByTime].
  destruct (Z.leb_spec (Api.timestamp x) (Api.timestamp m)) as [Hle|Hgt];
    [reflexivity|].
  cbn [filter] in *. rewrite IH.
  destruct (Z.eqb_spec (Api.timestamp x) t0) as [Ex|Ex];
    destruct (Z.eqb_spec (Api.timestamp m) t0) as [Em|Em];
    try reflexivity.
  lia.
Qed.

Lemma sortNewestFirst_stable (l : list Api.Stored) (t0 : Z) :
  filter (fun x => (Api.timestamp x =? t0)%Z) (Api.sortNewestFirst l)
  = filter (fun x => (Api.timestamp x =? t0)%Z) l.
Proof.
  induction l as [|x t IH]; [reflexivity|].
  cbn [Api.sortNewestFirst fold_right]. fold (Api.sortNewestFirst t).
  rewrite insertByTime_same_instant. cbn [filter]. rewrite IH. reflexivity.
Qed.

Lemma find_matches_perm (i : Z) (l l' : list Api.Stored) :
  NoDup (map Api.idOf l) -> Permutation l' l ->
  find (Api.matches (Some i)) l' = find (Api.matches (Some i)) l.
Proof.
  intros Hnd Hp.
  assert (Hnd' : NoDup (map Api.idOf l'))
    by (eapply Permutation_NoDup; [apply Permutation_map, Permutation_sym, Hp|exact Hnd]).
  destruct (in_dec IdValue_eq_dec (Server.IntegerId i) (map Api.idOf l))
    as [Hin|Hout].
  - destruct (find_matches_present i l Hin) as (m & Hf & Hm & Hid).
    rewrite Hf. apply find_matches_unique; [exact Hnd'| |exact Hid].
    apply (Permutation_in _ (Permutation_sym Hp)). exact Hm.
  - rewrite (find_matches_absent i l Hout). apply find_matches_absent.
    intro Hin. apply Hout.
    apply (Permutation_in _ (Permutation_map Api.idOf Hp)). exact Hin.
Qed.

(** X20.  Listing answers all stored measurements, newest first,
    measurements of the same instant in the order they were stored; the
    store itself is left in that order, so that listing again answers the
    same, and, identifiers being distinct, every [GET] by identifier is
    answered as before. *)
Theorem listing_newest_first (s : Api.Store) :
  exists listing,
    fst (Api.handle Api.GetMeasurements s) = Api.Listing listing
    /\ Permutation listing (Api.measurements s)
    /\ StronglySorted (fun a b => (Api.timestamp b <= Api.timestamp a)%Z) listing
    /\ (forall t0,
          filter (fun x => (Api.timestamp x =? t0)%Z) listing
          = filter (fun x => (Api.timestamp x =? t0)%Z) (Api.measurements s))
    /\ (let s' := snd (Api.handle Api.GetMeasurements s) in
        Api.measurements s' = listing
        /\ Api.measurementId s' = Api.measurementId s
        /\ Api.handle Api.GetMeasurements s' = (Api.Listing listing, s')
        /\ (NoDup (Api.ids s) ->
            forall param,
              fst (Api.handle (Api.GetMeasurement param) s')
              = fst (Api.handle (Api.GetMeasurement param) s))).
Proof.
  exists (Api.sortNewestFirst (Api.measurements s)).
  cbn [Api.handle]. unfold Api.getMeasurements. cbn [fst snd].
  split; [reflexivity|].
  split; [apply sortNewestFirst_perm|].
  split; [apply sortNewestFirst_sorted|].
  split; [intro t0; apply sortNewestFirst_stable|].
  cbv zeta. cbn [Api.measurements Api.measurementId].
  split; [reflexivity|]. split; [reflexivity|].
  assert (Hidem : Api.sortNewestFirst (Api.sortNewestFirst (Api.measurements s))
                  = Api.sortNewestFirst (Api.measurements s)).
  { generalize (sortNewestFirst_sorted (Api.measurements s)).
    generalize (Api.sortNewestFirst (Api.measurements s)) as l.
    induction l as [|x t IH]; intro Hs; [reflexivity|].
    inversion Hs as [|? ? Ht Hx]; subst.
    cbn [Api.sortNewestFirst fold_right]. fold (Api.sortNewestFirst t).
    rewrite (IH Ht). destruct t as [|y t']; [reflexivity|].
    cbn [Api.insertByTime]. inversion Hx; subst.
    destruct (Z.leb_spec (Api.timestamp y) (Api.timestamp x)); [reflexivity|lia]. }
  split.
  - rewrite Hidem. reflexivity.
  - intros Hnd param. unfold Api.getMeasurement. cbn [Api.measurements].
    destruct param as [i|].
    + rewrite (find_matches_perm i (Api.measurements s)
                 (Api.sortNewestFirst (Api.measurements s)) Hnd
                 (sortNewestFirst_perm _)).
      destruct (find (Api.matches (Some i)) (Api.measurements s)); reflexivity.
    + replace (find (Api.matches None) (Api.sortNewestFirst (Api.measurements s)))
        with (@None Api.Stored).
      * replace (find (Api.matches None) (Api.measurements s))
          with (@None Api.Stored); [reflexivity|].
        clear. induction (Api.measurements s); [reflexivity|assumption].
      * clear. induction (Api.sortNewestFirst (Api.measurements s));
          [reflexivity|assumption].
Qed.

(** *** Identifiers *)

Lemma handle_counter (r : Api.Request) (s : Api.Store) :
  Api.measurementId (snd (Api.handle r s))
  = (Api.measurementId s + (if Api.isPost r then 1 else 0))%Z.
Proof.
  destruct r as [body now| |param|param|]; cbn [Api.handle Api.isPost].
  - reflexivity.
  - cbn. lia.
  - unfold Api.getMeasurement.
    destruct (find (Api.matches param) (Api.measurements s)); cbn [snd]; lia.
  - unfold Api.deleteMeasurement.
    destruct (Api.findIndex (Api.matches param) (Api.measurements s));
      cbn [snd Api.measurementId]; lia.
  - cbn [Api.getStats snd]. lia.
Qed.

Lemma handle_wellNumbered (r : Api.Request) (s : Api.Store) :
  Api.carriesNoId r = true ->
  Api.wellNumbered s -> Api.wellNumbered (snd (Api.handle r s)).
Proof.
  intros Hr (Hnd & Hpos & Hb). unfold Api.wellNumbered, Api.ids in *.
  destruct r as [body now| |param|param|].
  - cbn [Api.handle]. cbn [Api.carriesNoId] in Hr. unfold Api.postMeasurement.
    destruct (Api.bodyId body); [discriminate|].
    cbn [snd Api.measurements Api.measurementId].
    rewrite map_app. cbn [map].
    unfold Api.idOf at 2 4. cbn [Api.measurement Server.id].
    split; [|split; [lia|]].
    + apply NoDup_app; [exact Hnd|constructor; [intros []|constructor]|].
      intros a Ha [<-|[]]. apply Hb in Ha. destruct Ha as (i & [= <-] & Hi). lia.
    + intros v Hv. apply in_app_or in Hv. destruct Hv as [Hv|[<-|[]]].
      * destruct (Hb v Hv) as (i & -> & Hi). exists i. split; [reflexivity|lia].
      * exists (Api.measurementId s). split; [reflexivity|lia].
  - cbn [Api.handle]. unfold Api.getMeasurements.
    cbn [snd Api.measurements Api.measurementId].
    pose proof (Permutation_map Api.idOf
                  (sortNewestFirst_perm (Api.measurements s))) as Hp.
    split; [|split; [exact Hpos|]].
    + eapply Permutation_NoDup; [apply Permutation_sym, Hp|exact Hnd].
    + intros v Hv. apply (Permutation_in _ Hp) in Hv. apply Hb. exact Hv.
  - cbn [Api.handle]. unfold Api.getMeasurement.
    destruct (find (Api.matches param) (Api.measurements s)); cbn [snd];
      (split; [exact Hnd|split; [exact Hpos|exact Hb]]).
  - destruct (deleteMeasurement_cases param s)
      as [[-> _]|(j & k & -> & Hk & ->)];
      cbn [snd Api.measurements Api.measurementId];
      [split; [exact Hnd|split; [exact Hpos|exact Hb]]|].
    destruct (spliced_properties j _ k Hk) as (Hlen & Hincl & Hrest & _).
    split; [apply Hrest; exact Hnd|split; [exact Hpos|]].
    intros v Hv. apply Hb. apply Hincl. exact Hv.
  - cbn [Api.handle Api.getStats snd].
    split; [exact Hnd|split; [exact Hpos|exact Hb]].
Qed.

Lemma run_wellNumbered (requests : list Api.Request) (s : Api.Store) :
  forallb Api.carriesNoId requests = true ->
  Api.wellNumbered s ->
  Api.wellNumbered (Api.run requests s)
  /\ Api.measurementId (Api.run requests s)
     = (Api.measurementId s + Z.of_nat (Api.posts requests))%Z.
Proof.
  revert s. induction requests as [|r rs IH]; intros s Hall Hs.
  - split; [exact Hs|]. cbn. lia.
  - cbn [forallb] in Hall. apply andb_prop in Hall. destruct Hall as [Hr Hrs].
    cbn [Api.run fold_left]. fold (Api.run rs (snd (Api.handle r s))).
    destruct (IH _ Hrs (handle_wellNumbered r s Hr Hs)) as [Hw Hc].
    split; [exact Hw|]. rewrite Hc, handle_counter.
    unfold Api.posts. cbn [filter]. destruct (Api.isPost r); cbn [length]; lia.
Qed.

(** X21.  Identifiers are never reused: after any sequence of requests
    to a fresh server in which no posted body carries an [id] of its own,
    the stored identifiers are pairwise distinct, each is an integer, at
    least 1 and below the counter, and the counter is one more than the
    number of posts, whatever has been deleted in between. *)
Theorem ids_never_reused (requests : list Api.Request) :
  forallb Api.carriesNoId requests = true ->
  let s := Api.run requests Api.initialStore in
  NoDup (Api.ids s)
  /\ (forall v, In v (Api.ids s) ->
        exists i, v = Server.IntegerId i /\ (1 <= i < Api.measurementId s)%Z)
  /\ Api.measurementId s = (1 + Z.of_nat (Api.posts requests))%Z.
Proof.
  intros Hall s.
  assert (H0 : Api.wellNumbered Api.initialStore).
  { split; [constructor|split; [cbn; lia|intros i []]]. }
  destruct (run_wellNumbered requests Api.initialStore Hall H0)
    as [(Hnd & _ & Hb) Hc].
  split; [exact Hnd|split; [exact Hb|exact Hc]].
Qed.

Lemma ids_never_reused_witness :
  NoDup (Api.ids (Api.run Samples.postDeletePost Api.initialStore))
  /\ Api.measurementId (Api.run Samples.postDeletePost Api.initialStore) = 3%Z.
Proof.
  assert (H : forallb Api.carriesNoId Samples.postDeletePost = true)
    by reflexivity.
  destruct (ids_never_reused Samples.postDeletePost H) as (Hnd & _ & Hc).
  split; [exact Hnd|exact Hc].
Defined.

(** *** Statistics *)

Lemma area_sum_units (ms : list Server.Measurement) :
  Spec.sumR (map (fun m => Server.parseFloatOr0 (Server.areaSquareMeters m)) ms)
  = IZR (Api.areaUnits ms) / 10 ^ 2.
Proof.
  induction ms as [|m ms IH]; [cbn; lra|].
  cbn [map Api.areaUnits fold_right]. fold (Api.areaUnits ms).
  unfold Spec.sumR in *. cbn [fold_right]. rewrite IH, plus_IZR.
  destruct (Server.areaSquareMeters m) as [a|]; cbn [Server.parseFloatOr0].
  - unfold parseFloat. field.
  - lra.
Qed.

Lemma stats_totalArea_units (ms : list Server.Measurement) :
  Server.totalArea (Server.stats ms) = mkFixed 2 (Api.areaUnits ms).
Proof.
  unfold Server.stats. cbn [Server.totalArea].
  rewrite reduce_sum_sumR, area_sum_units.
  apply (toFixed_parseFloat 2 (mkFixed 2 (Api.areaUnits ms))).
Qed.

(** X22.  The total area of the statistics is exactly the sum of the
    stored area figures: adding the two-digit figures of the
    measurements and rendering the sum with two digits loses nothing.  In
    particular it is 0.00 when nothing is stored, and with one stored
    measurement both the total and the average are that measurement's
    figure. *)
Theorem stats_total_area_exact (ms : list Server.Measurement) :
  units (Server.totalArea (Server.stats ms)) = Api.areaUnits ms
  /\ (ms = [] -> units (Server.totalArea (Server.stats ms)) = 0%Z)
  /\ (forall m a, ms = [m] -> Server.areaSquareMeters m = Some a ->
        Server.totalArea (Server.stats ms) = a
        /\ Server.averageArea (Server.stats ms) = a).
Proof.
  split; [rewrite stats_totalArea_units; reflexivity|].
  split.
  - intros ->. rewrite stats_totalArea_units. reflexivity.
  - intros m a -> Ha.
    split.
    + rewrite stats_totalArea_units. cbn [Api.areaUnits fold_right].
      rewrite Ha. destruct a as [n]. cbn [units]. f_equal. lia.
    + unfold Server.stats. cbn [Server.averageArea length Nat.ltb Nat.leb].
      unfold reduce_sum. cbn [fold_left]. rewrite Ha.
      cbn [Server.parseFloatOr0 INR].
      replace ((0 + parseFloat a) / 1) with (parseFloat a) by lra.
      apply toFixed_parseFloat.
Qed.

Lemma stats_total_area_exact_witness :
  Server.totalArea (Server.stats [Samples.storedSample]) = mkFixed 2 10000
  /\ Server.averageArea (Server.stats [Samples.storedSample]) = mkFixed 2 10000.
Proof.
  exact (proj2 (proj2 (stats_total_area_exact [Samples.storedSample]))
           Samples.storedSample (mkFixed 2 10000) eq_refl eq_refl).
Defined.

Lemma sum_nonneg {A : Type} (g : A -> R) (l : list A) :
  (forall m, In m l -> 0 <= g m) -> 0 <= reduce_sum g l.
Proof.
  intro H. rewrite reduce_sum_sumR. unfold Spec.sumR.
  induction l as [|a l IH]; cbn [map fold_right]; [lra|].
  assert (0 <= g a) by (apply H; now left).
  assert (0 <= fold_right Rplus 0 (map g l))
    by (apply IH; intros m Hm; apply H; now right).
  lra.
Qed.

Lemma quality_ratio (p k : R) :
  0 <= p -> 0 < k -> 0 <= p / (p + k) * 100 <= 100.
Proof.
  intros Hp Hk.
  assert (Hd : 0 < p + k) by lra.
  assert (0 <= p / (p + k) <= 1).
  { split.
    - apply Rmult_le_pos; [lra|]. left. apply Rinv_0_lt_compat. exact Hd.
    - apply (Rmult_le_reg_r (p + k)); [exact Hd|].
      unfold Rdiv. rewrite Rmult_assoc, Rinv_l by lra. lra. }
  lra.
Qed.

(** X23.  In the statistics the number of measurements reported is the
    number stored.  When no stored measurement reports a negative
    count, the data quality is the literal 100% exactly when the total of
    skipped points is 0, and otherwise a percentage between 0.0 and
    100.0.  The counts are not validated when they are posted: one
    stored measurement that reports -3 recorded points and 1 skipped
    point gives a data quality of 150.0%. *)
Theorem stats_data_quality (ms : list Server.Measurement) :
  Server.totalMeasurements (Server.stats ms) = length ms
  /\ ((forall m, In m ms ->
         0 <= Server.or0 (Server.pointsRecorded m)
         /\ 0 <= Server.or0 (Server.skippedPoints m)) ->
      (Server.dataQuality (Server.stats ms) = None
       <-> Server.totalSkippedPoints (Server.stats ms) = 0)
      /\ (forall q, Server.dataQuality (Server.stats ms) = Some q ->
            (0 <= units q <= 1000)%Z))
  /\ Server.dataQuality (Server.stats [Samples.negativeCount])
     = Some (mkFixed 1 1500).
Proof.
  split; [reflexivity|]. split.
  - intro Hcounts. unfold Server.stats.
    cbn [Server.dataQuality Server.totalSkippedPoints].
    set (skipped := reduce_sum (fun m => Server.or0 (Server.skippedPoints m)) ms).
    set (points := reduce_sum (fun m => Server.or0 (Server.pointsRecorded m)) ms).
    assert (Hs : 0 <= skipped)
      by (apply sum_nonneg; intros m Hm; apply Hcounts; exact Hm).
    assert (Hp : 0 <= points)
      by (apply sum_nonneg; intros m Hm; apply Hcounts; exact Hm).
    unfold gtb. destruct (Rgt_dec skipped 0) as [Hpos|Hzero].
    + split; [split; [discriminate|lra]|].
      intros q [= <-].
      destruct (quality_ratio points skipped Hp Hpos) as [Hlo Hhi].
      split; [apply toFixed_nonneg; exact Hlo|].
      apply toFixed_at_most; [lia|]. simpl. lra.
    + split; [split; [lra|reflexivity]|]. discriminate.
  - unfold Server.stats, Samples.negativeCount.
    cbn [Server.dataQuality]. unfold reduce_sum.
    cbn [fold_left Server.or0 Server.pointsRecorded Server.skippedPoints].
    unfold gtb. destruct (Rgt_dec (0 + 1) 0) as [_|H]; [|lra].
    f_equal. replace ((0 + -3) / (0 + -3 + (0 + 1)) * 100) with 150 by lra.
    unfold toFixed. destruct (Rlt_dec 150 0) as [H|_]; [lra|].
    f_equal. apply Zfloor_eq. simpl. lra.
Qed.

Lemma stats_data_quality_witness :
  (forall m, In m [Samples.storedSample] ->
     0 <= Server.or0 (Server.pointsRecorded m)
     /\ 0 <= Server.or0 (Server.skippedPoints m))
  /\ exists q,
       Server.dataQuality (Server.stats [Samples.storedSample]) = Some q
       /\ (0 <= units q <= 1000)%Z.
Proof.
  assert (H : forall m, In m [Samples.storedSample] ->
                0 <= Server.or0 (Server.pointsRecorded m)
                /\ 0 <= Server.or0 (Server.skippedPoints m)).
  { intros m [<-|[]]. cbn. split; lra. }
  split; [exact H|].
  assert (Hq : exists q,
             Server.dataQuality (Server.stats [Samples.storedSample]) = Some q).
  { unfold Server.stats, Samples.storedSample. cbn [Server.dataQuality].
    unfold reduce_sum. cbn [fold_left Server.or0 Server.skippedPoints].
    unfold gtb. destruct (Rgt_dec (0 + 1) 0) as [_|Hn]; [|lra].
    eexists. reflexivity. }
  destruct Hq as (q & Hq). exists q. split; [exact Hq|].
  apply (proj2 (proj1 (proj2 (stats_data_quality [Samples.storedSample])) H)).
  exact Hq.
Defined.
